(** * Perfect Wood data manager: the persistence gateway of [data-manager.js]

    [DataManager] loads and saves three values (the dataset of products,
    customers and sellers, and the customer and supplier transaction logs)
    either through [window.electronAPI], when the page runs under Electron, or
    as JSON text in the browser's [localStorage].

    The development has twelve parts, definitions first.

    - [Double]: the Number type, binary64, with the rounding of a decimal
      literal to the nearest value and the exact decimal expansion of a
      value.
    - [JSON]: the codec the gateway relies on, [JSON.stringify] and
      [JSON.parse], as a printer and a recursive-descent parser over JSON
      trees.
    - [JS]: JavaScript values and the object store, so that two references to
      one array are one array (the gateway hands out references to the arrays
      of its [defaultData] object).
    - [DataManager]: the methods of the [DataManager] object, in a
      state-and-exception monad over the world (object store, [localStorage],
      the Electron host), and the vocabulary of the properties.
    - [Backup]: [exportData] with the indented text it writes, and the
      vocabulary of the further properties.
    - [DoubleFacts], [JSONFacts], [JSFacts], [DataManagerSpec]: the lemmas of
      each part and the properties of the gateway.
    - [BackupFacts], [DataManagerFrames], [DataManagerMore]: the indented text
      is read back by [JSON.parse]; what each method leaves alone; further
      properties of the methods, [exportData] among them.

    How text and numbers are modelled.  A string, the text in [localStorage]
    and of a file included, is the sequence of its UTF-16 code units, each
    written as the one, two or three bytes that UTF-8 has for it, so that two
    strings are equal exactly when their byte sequences are.  A number is a
    binary64 value: [JSON.parse] rounds a literal to the nearest value, to
    Infinity beyond the range and to zero below it, and [JSON.stringify]
    writes [null] for a value that is not finite and [0] for the negative
    zero.

    What the model leaves out.  [JSON.stringify] is modelled up to the
    spelling of its text: a finite number is written with all the digits of
    its exact decimal expansion, in the form digits, [e], exponent ([15e-1]
    for 1.5), where the code writes the shortest digits that read back as the
    same value; a surrogate code unit without its partner is written as it
    is, where the code writes a [\u] escape; the members of an object keep
    the order in which they were added, where the code moves the keys that
    are array indices to the front.  In each case [JSON.parse] reads the
    same value from both texts.  [localStorage] has no quota.  The calls to
    [console] are not modelled.  Of [exportData] the two readings of the
    clock are arguments and the download is the name and the text of the
    file; the anchor element and the object URL that carry it are not
    modelled.  What crosses to the Electron host is a JSON tree, or
    [undefined]. *)

From Stdlib Require Import ZArith NArith List Ascii String Lia.
From Stdlib Require Import Decimal DecimalN DecimalPos DecimalFacts.
From stdpp Require Import base option list gmap strings.

Set Warnings "-register-all".

Local Open Scope char_scope.
Local Open Scope list_scope.

(** ** Numbers *)

Module Double.

Local Open Scope Z_scope.

(** A Number: a binary64 value.  [Finite m e] is [m * 2^e]. *)
Inductive num : Type :=
| Finite (m e : Z)
| Zero (negative : bool)
| Infinite (negative : bool)
| NaN.

(** The finite values other than zero: 53 bits of significand, the exponent
    between -1074 and 971, and a full significand unless the exponent is the
    least one (the subnormal values). *)
Definition canonical (m e : Z) : bool :=
  (0 <? Z.abs m) && (Z.abs m <? 2 ^ 53) && (-1074 <=? e) && (e <=? 971)
  && ((2 ^ 52 <=? Z.abs m) || (e =? -1074)).

Definition is_double (x : num) : bool :=
  match x with
  | Finite m e => canonical m e
  | _ => true
  end.

(** The value nearest to [a / b], for positive [a] and [b], ties to the even
    significand: the quotient is taken with at least 65 bits and the bits
    below the significand decide, together with what the division left. *)
Definition round_ratio (a b : Z) : Z * Z :=
  let s := Z.max 1076 (66 + Z.log2 b - Z.log2 a) in
  let q := a * 2 ^ s / b in
  let sticky := negb (a * 2 ^ s mod b =? 0) in
  let e := Z.max (Z.log2 q - s - 52) (-1074) in
  let sh := e + s in
  let m0 := q / 2 ^ sh in
  let low := q mod 2 ^ sh in
  let half := 2 ^ (sh - 1) in
  let up := (half <? low) || ((low =? half) && (sticky || Z.odd m0)) in
  let m1 := if up then m0 + 1 else m0 in
  if m1 =? 2 ^ 53 then (2 ^ 52, e + 1) else (m1, e).

(** StringToNumber on a decimal literal [d * 10^k] with [d >= 0] and its
    sign: the nearest Number, an infinity beyond the range, a zero below
    it. *)
Definition of_decimal (negative : bool) (d k : Z) : num :=
  if d <=? 0 then Zero negative
  else
    let '(m, e) := if 0 <=? k then round_ratio (d * 10 ^ k) 1
                   else round_ratio d (10 ^ (- k)) in
    if m =? 0 then Zero negative
    else if 971 <? e then Infinite negative
    else Finite (if negative then - m else m) e.

(** The Number that the literal [m * 10^e] denotes. *)
Definition number (m e : Z) : num := of_decimal (m <? 0) (Z.abs m) e.

(** Trailing zeros of the digits go to the exponent. *)
Fixpoint strip_zeros (fuel : nat) (d k : Z) : Z * Z :=
  match fuel with
  | O => (d, k)
  | S f =>
      if (d mod 10 =? 0) && negb (d =? 0) then strip_zeros f (d / 10) (k + 1)
      else (d, k)
  end.

(** A positive finite value as a decimal, exactly: [m * 2^e = d * 10^k]. *)
Definition to_decimal (m e : Z) : Z * Z :=
  let '(d, k) := if 0 <=? e then (m * 2 ^ e, 0) else (m * 5 ^ (- e), e) in
  strip_zeros (Z.to_nat (Z.log2 d)) d k.

(** The values that [JSON.stringify] writes as a number that reads back as
    the same value: the finite ones, without the negative zero. *)
Definition exact (x : num) : bool :=
  match x with
  | Finite m e => canonical m e
  | Zero negative => negb negative
  | _ => false
  end.

(** The Number that is read back from what [JSON.stringify] writes for a
    Number, [None] when it writes [null]: the infinities and NaN. *)
Definition reread (x : num) : option num :=
  match x with
  | Finite m e =>
      let '(d, k) := to_decimal (Z.abs m) e in
      Some (of_decimal (m <? 0) d k)
  | Zero _ => Some (Zero false)
  | Infinite _ | NaN => None
  end.

(** ToBoolean *)
Definition nonzero (x : num) : bool :=
  match x with
  | Finite m _ => negb (m =? 0)
  | Infinite _ => true
  | Zero _ | NaN => false
  end.

End Double.
(** ** JSON trees, [JSON.stringify] and [JSON.parse] *)

Module JSON.
Import Double.

(** A number is a binary64 value.  A string is the sequence of its UTF-16
    code units, each written as UTF-8 writes it (one byte below 0080, two
    below 0800, three otherwise), so that text in ASCII is itself.  An object
    is its list of members in enumeration order. *)
Inductive json : Type :=
| JNull
| JBool (b : bool)
| JNumber (x : num)
| JStr (s : string)
| JArr (xs : list json)
| JObj (fs : list (string * json)).

Section json_induction.
Variable P : json -> Prop.
Hypothesis Hnull : P JNull.
Hypothesis Hbool : forall b, P (JBool b).
Hypothesis Hnum : forall x, P (JNumber x).
Hypothesis Hstr : forall s, P (JStr s).
Hypothesis Harr : forall xs, Forall P xs -> P (JArr xs).
Hypothesis Hobj : forall fs, Forall (fun kv => P (snd kv)) fs -> P (JObj fs).

Fixpoint json_rect' (j : json) : P j :=
    match j with
    | JNull => Hnull
    | JBool b => Hbool b
    | JNumber x => Hnum x
    | JStr s => Hstr s
    | JArr xs =>
        Harr xs ((fix go (l : list json) : Forall P l :=
                    match l with
                    | [] => List.Forall_nil P
                    | x :: l' => List.Forall_cons P x l' (json_rect' x) (go l')
                    end) xs)
    | JObj fs =>
        Hobj fs ((fix go (l : list (string * json))
                   : Forall (fun kv => P (snd kv)) l :=
                    match l with
                    | [] => List.Forall_nil _
                    | kv :: l' =>
                        List.Forall_cons (fun kv => P (snd kv)) kv l'
                          (json_rect' (snd kv)) (go l')
                    end) fs)
    end.
End json_induction.

(** The number that the literal [m * 10^e] denotes. *)
Definition JNum (m e : Z) : json := JNumber (number m e).

(** *** Printing *)

Fixpoint uint_chars (d : Decimal.uint) : list ascii :=
  match d with
  | Nil => []
  | D0 d => "0" :: uint_chars d
  | D1 d => "1" :: uint_chars d
  | D2 d => "2" :: uint_chars d
  | D3 d => "3" :: uint_chars d
  | D4 d => "4" :: uint_chars d
  | D5 d => "5" :: uint_chars d
  | D6 d => "6" :: uint_chars d
  | D7 d => "7" :: uint_chars d
  | D8 d => "8" :: uint_chars d
  | D9 d => "9" :: uint_chars d
  end.

Definition print_N (n : N) : list ascii := uint_chars (N.to_uint n).

Definition print_Z (z : Z) : list ascii :=
  match z with
  | Z0 => print_N 0
  | Zpos p => print_N (Npos p)
  | Zneg p => "-" :: print_N (Npos p)
  end.

Definition print_decimal (d k : Z) : list ascii :=
  print_Z d ++ (if (k =? 0)%Z then [] else "e" :: print_Z k).

(** A Number as [JSON.stringify] writes it: a finite value by digits that
    denote it exactly (not by the shortest digits that [Number::toString]
    picks), both zeros as [0], the infinities and NaN as [null]. *)
Definition print_num (x : num) : list ascii :=
  match x with
  | Finite m e =>
      let '(d, k) := to_decimal (Z.abs m) e in
      print_decimal (if (m <? 0)%Z then (- d)%Z else d) k
  | Zero _ => ["0"]
  | Infinite _ | NaN => ["n"; "u"; "l"; "l"]
  end.

Definition hex_char (n : nat) : ascii :=
  nth n ["0"; "1"; "2"; "3"; "4"; "5"; "6"; "7"; "8"; "9";
         "a"; "b"; "c"; "d"; "e"; "f"] "0".

(** QuoteJSONString: the quote, the backslash and the control characters are
    escaped, every other byte is copied (so is a surrogate without its
    partner, for which QuoteJSONString writes an escape that reads back as
    the same code unit). *)
Definition escape_char (c : ascii) : list ascii :=
  if (c =? "034")%char then ["\"; "034"]
  else if (c =? "\")%char then ["\"; "\"]
  else if (c =? "008")%char then ["\"; "b"]
  else if (c =? "012")%char then ["\"; "f"]
  else if (c =? "010")%char then ["\"; "n"]
  else if (c =? "013")%char then ["\"; "r"]
  else if (c =? "009")%char then ["\"; "t"]
  else if (nat_of_ascii c <? 32)%nat
       then ["\"; "u"; "0"; "0";
             hex_char (nat_of_ascii c / 16); hex_char (nat_of_ascii c mod 16)]
  else [c].

Definition print_chars (cs : list ascii) : list ascii :=
  "034" :: flat_map escape_char cs ++ ["034"].

Definition print_string (s : string) : list ascii :=
  print_chars (list_ascii_of_string s).

Fixpoint join_comma (parts : list (list ascii)) : list ascii :=
  match parts with
  | [] => []
  | p :: ps =>
      match ps with
      | [] => p
      | _ :: _ => p ++ "," :: join_comma ps
      end
  end.

Fixpoint print (j : json) : list ascii :=
  match j with
  | JNull => ["n"; "u"; "l"; "l"]
  | JBool true => ["t"; "r"; "u"; "e"]
  | JBool false => ["f"; "a"; "l"; "s"; "e"]
  | JNumber x => print_num x
  | JStr s => print_string s
  | JArr xs => "[" :: join_comma (map print xs) ++ ["]"]
  | JObj fs =>
      "{" :: join_comma
               (map (fun kv => print_string (fst kv) ++ ":" :: print (snd kv)) fs)
          ++ ["}"]
  end.

Definition print_member (kv : string * json) : list ascii :=
  print_string (fst kv) ++ ":" :: print (snd kv).

(** [JSON.stringify] of a JSON tree (no indentation). *)
Definition stringify (j : json) : string := string_of_list_ascii (print j).

(** *** Parsing *)

Definition is_ws (c : ascii) : bool :=
  (c =? " ")%char || (c =? "009")%char || (c =? "010")%char || (c =? "013")%char.

Fixpoint skip_ws (s : list ascii) : list ascii :=
  match s with
  | c :: r => if is_ws c then skip_ws r else s
  | [] => []
  end.

Definition digit_of (c : ascii) : option (Decimal.uint -> Decimal.uint) :=
  if (c =? "0")%char then Some D0
  else if (c =? "1")%char then Some D1
  else if (c =? "2")%char then Some D2
  else if (c =? "3")%char then Some D3
  else if (c =? "4")%char then Some D4
  else if (c =? "5")%char then Some D5
  else if (c =? "6")%char then Some D6
  else if (c =? "7")%char then Some D7
  else if (c =? "8")%char then Some D8
  else if (c =? "9")%char then Some D9
  else None.

(** The longest prefix of digits, as a decimal numeral. *)
Fixpoint read_uint (s : list ascii) : Decimal.uint * list ascii :=
  match s with
  | c :: r =>
      match digit_of c with
      | Some d => let '(u, r') := read_uint r in (d u, r')
      | None => (Nil, s)
      end
  | [] => (Nil, [])
  end.

(** The integer part of a number: [0], or digits that do not start with [0]. *)
Definition int_part_ok (u : Decimal.uint) : bool :=
  match u with
  | Nil => false
  | D0 Nil => true
  | D0 _ => false
  | _ => true
  end.

Definition nonempty_uint (u : Decimal.uint) : bool :=
  match u with Nil => false | _ => true end.

(** [. digits+], when present: the digits and the rest. *)
Definition read_frac (s : list ascii) : option (Decimal.uint * list ascii) :=
  match s with
  | c :: r =>
      if (c =? ".")%char then
        let '(u, r') := read_uint r in
        if nonempty_uint u then Some (u, r') else None
      else Some (Nil, s)
  | [] => Some (Nil, [])
  end.

(** [(e|E) (+|-)? digits+], when present: the exponent and the rest. *)
Definition read_exp (s : list ascii) : option (Z * list ascii) :=
  match s with
  | c :: r =>
      if (c =? "e")%char || (c =? "E")%char then
        let '(neg, r1) :=
          match r with
          | c' :: r' =>
              if (c' =? "-")%char then (true, r')
              else if (c' =? "+")%char then (false, r')
              else (false, r)
          | [] => (false, r)
          end in
        let '(u, r2) := read_uint r1 in
        if nonempty_uint u then
          let v := Z.of_N (N.of_uint u) in
          Some (if neg then (- v)%Z else v, r2)
        else None
      else Some (0%Z, s)
  | [] => Some (0%Z, [])
  end.

Definition parse_number (s : list ascii) : option (json * list ascii) :=
  let '(neg, s1) :=
    match s with
    | c :: r => if (c =? "-")%char then (true, r) else (false, s)
    | [] => (false, s)
    end in
  let '(ui, s2) := read_uint s1 in
  if int_part_ok ui then
    match read_frac s2 with
    | Some (uf, s3) =>
        match read_exp s3 with
        | Some (ex, s4) =>
            let digits := match uf with Nil => ui | _ => Decimal.app ui uf end in
            let v := Z.of_N (N.of_uint digits) in
            Some (JNumber (of_decimal neg v
                                      (ex - Z.of_nat (Decimal.nb_digits uf))%Z),
                  s4)
        | None => None
        end
    | None => None
    end
  else None.

Definition hex_val (c : ascii) : option nat :=
  let n := nat_of_ascii c in
  if (48 <=? n)%nat && (n <=? 57)%nat then Some (n - 48)
  else if (97 <=? n)%nat && (n <=? 102)%nat then Some (n - 87)
  else if (65 <=? n)%nat && (n <=? 70)%nat then Some (n - 55)
  else None.

(** [\uXXXX]: the code unit. *)
Definition hex4 (a b c d : ascii) : option nat :=
  match hex_val a, hex_val b, hex_val c, hex_val d with
  | Some x, Some y, Some z, Some w => Some (((x * 16 + y) * 16 + z) * 16 + w)
  | _, _, _, _ => None
  end.

(** The bytes of a code unit. *)
Definition unit_bytes (n : nat) : list ascii :=
  if (n <? 128)%nat then [ascii_of_nat n]
  else if (n <? 2048)%nat
       then [ascii_of_nat (192 + n / 64); ascii_of_nat (128 + n mod 64)]
  else [ascii_of_nat (224 + n / 4096); ascii_of_nat (128 + (n / 64) mod 64);
        ascii_of_nat (128 + n mod 64)].

Definition cons_chars (cs : list ascii) (r : option (list ascii * list ascii))
  : option (list ascii * list ascii) :=
  match r with
  | Some (cs', rest) => Some (cs ++ cs', rest)
  | None => None
  end.

Definition cons_char (c : ascii) (r : option (list ascii * list ascii))
  : option (list ascii * list ascii) :=
  cons_chars [c] r.

(** The characters of a string literal after its opening quote, up to and
    including the closing quote. *)
Fixpoint parse_chars (s : list ascii) : option (list ascii * list ascii) :=
  match s with
  | [] => None
  | c :: r =>
      if (c =? "034")%char then Some ([], r)
      else if (c =? "\")%char then
        match r with
        | [] => None
        | x :: r' =>
            if (x =? "034")%char then cons_char "034" (parse_chars r')
            else if (x =? "\")%char then cons_char "\" (parse_chars r')
            else if (x =? "/")%char then cons_char "/" (parse_chars r')
            else if (x =? "b")%char then cons_char "008" (parse_chars r')
            else if (x =? "f")%char then cons_char "012" (parse_chars r')
            else if (x =? "n")%char then cons_char "010" (parse_chars r')
            else if (x =? "r")%char then cons_char "013" (parse_chars r')
            else if (x =? "t")%char then cons_char "009" (parse_chars r')
            else if (x =? "u")%char then
              match r' with
              | h1 :: h2 :: h3 :: h4 :: r'' =>
                  match hex4 h1 h2 h3 h4 with
                  | Some n => cons_chars (unit_bytes n) (parse_chars r'')
                  | None => None
                  end
              | _ => None
              end
            else None
        end
      else if (nat_of_ascii c <? 32)%nat then None
      else cons_char c (parse_chars r)
  end.

(** Does [s] start with the keyword [kw]?  If so, what follows it. *)
Fixpoint strip (kw s : list ascii) : option (list ascii) :=
  match kw with
  | [] => Some s
  | k :: kw' =>
      match s with
      | c :: r => if (c =? k)%char then strip kw' r else None
      | [] => None
      end
  end.

(** Assignment of a member to an object: a key that is already there keeps
    its place and takes the new value. *)
Fixpoint obj_set (fs : list (string * json)) (k : string) (v : json)
  : list (string * json) :=
  match fs with
  | [] => [(k, v)]
  | (k', v') :: fs' =>
      if String.eqb k' k then (k', v) :: fs' else (k', v') :: obj_set fs' k v
  end.

Definition build_object (ms : list (string * json)) : list (string * json) :=
  fold_left (fun acc kv => obj_set acc (fst kv) (snd kv)) ms [].

Fixpoint parse_value (fuel : nat) (s : list ascii) {struct fuel}
  : option (json * list ascii) :=
  match fuel with
  | O => None
  | S f =>
      match skip_ws s with
      | [] => None
      | c :: r =>
          if (c =? "n")%char then
            match strip ["u"; "l"; "l"] r with
            | Some r' => Some (JNull, r') | None => None end
          else if (c =? "t")%char then
            match strip ["r"; "u"; "e"] r with
            | Some r' => Some (JBool true, r') | None => None end
          else if (c =? "f")%char then
            match strip ["a"; "l"; "s"; "e"] r with
            | Some r' => Some (JBool false, r') | None => None end
          else if (c =? "034")%char then
            match parse_chars r with
            | Some (cs, r') => Some (JStr (string_of_list_ascii cs), r')
            | None => None
            end
          else if (c =? "[")%char then
            match skip_ws r with
            | [] => None
            | c' :: r' =>
                if (c' =? "]")%char then Some (JArr [], r')
                else match parse_elements f r with
                     | Some (xs, r'') => Some (JArr xs, r'')
                     | None => None
                     end
            end
          else if (c =? "{")%char then
            match skip_ws r with
            | [] => None
            | c' :: r' =>
                if (c' =? "}")%char then Some (JObj [], r')
                else match parse_members f r with
                     | Some (ms, r'') => Some (JObj (build_object ms), r'')
                     | None => None
                     end
            end
          else parse_number (c :: r)
      end
  end

with parse_elements (fuel : nat) (s : list ascii) {struct fuel}
  : option (list json * list ascii) :=
  match fuel with
  | O => None
  | S f =>
      match parse_value f s with
      | None => None
      | Some (x, r) =>
          match skip_ws r with
          | [] => None
          | c :: r' =>
              if (c =? ",")%char then
                match parse_elements f r' with
                | Some (xs, r'') => Some (x :: xs, r'')
                | None => None
                end
              else if (c =? "]")%char then Some ([x], r')
              else None
          end
      end
  end

with parse_members (fuel : nat) (s : list ascii) {struct fuel}
  : option (list (string * json) * list ascii) :=
  match fuel with
  | O => None
  | S f =>
      match skip_ws s with
      | [] => None
      | q :: r =>
          if (q =? "034")%char then
            match parse_chars r with
            | None => None
            | Some (k, r1) =>
                match skip_ws r1 with
                | [] => None
                | c :: r2 =>
                    if (c =? ":")%char then
                      match parse_value f r2 with
                      | None => None
                      | Some (v, r3) =>
                          match skip_ws r3 with
                          | [] => None
                          | c' :: r4 =>
                              if (c' =? ",")%char then
                                match parse_members f r4 with
                                | Some (ms, r5) =>
                                    Some ((string_of_list_ascii k, v) :: ms, r5)
                                | None => None
                                end
                              else if (c' =? "}")%char
                                   then Some ([(string_of_list_ascii k, v)], r4)
                              else None
                          end
                      end
                    else None
                end
            end
          else None
      end
  end.

(** [JSON.parse]: one value between optional white space; [None] stands for
    the SyntaxError.  A descent consumes a character at least every second
    call, so the fuel below never runs out on any text
    ([JSONFacts.parse_value_fuel_enough]). *)
Definition parse (text : string) : option json :=
  let cs := list_ascii_of_string text in
  match parse_value (2 * length cs + 2) cs with
  | Some (j, r) => match skip_ws r with [] => Some j | _ :: _ => None end
  | None => None
  end.

(** No object lists a key twice. *)
Fixpoint unique_keys (j : json) : bool :=
  match j with
  | JArr xs => forallb unique_keys xs
  | JObj fs =>
      bool_decide (NoDup (map fst fs))
      && forallb (fun kv => unique_keys (snd kv)) fs
  | _ => true
  end.

(** JSON data: trees that [JSON.stringify] writes as they are.  No object
    lists a key twice, and every number is finite and not the negative
    zero. *)
Fixpoint wf (j : json) : bool :=
  match j with
  | JNumber x => exact x
  | JArr xs => forallb wf xs
  | JObj fs =>
      bool_decide (NoDup (map fst fs)) && forallb (fun kv => wf (snd kv)) fs
  | _ => true
  end.

(** Every number is a Number. *)
Fixpoint numbers_are_doubles (j : json) : bool :=
  match j with
  | JNumber x => is_double x
  | JArr xs => forallb numbers_are_doubles xs
  | JObj fs => forallb (fun kv => numbers_are_doubles (snd kv)) fs
  | _ => true
  end.

(** The tree that is read back from the text that [JSON.stringify] writes
    for [j]: an infinity or NaN has become [null], the negative zero has
    become zero. *)
Fixpoint stored_as (j : json) : json :=
  match j with
  | JNumber x =>
      match reread x with
      | Some y => JNumber y
      | None => JNull
      end
  | JArr xs => JArr (map stored_as xs)
  | JObj fs => JObj (map (fun kv => (fst kv, stored_as (snd kv))) fs)
  | _ => j
  end.

Fixpoint jsize (j : json) : nat :=
  match j with
  | JArr xs => S (list_sum (map (fun x => S (jsize x)) xs))
  | JObj fs => S (list_sum (map (fun kv => S (jsize (snd kv))) fs))
  | _ => 1
  end.

(** *** Reading back what was printed *)

Definition digit_free (r : list ascii) : Prop :=
  match r with [] => True | c :: _ => digit_of c = None end.

Definition delimited (r : list ascii) : bool :=
  match r with
  | [] => true
  | c :: _ =>
      match digit_of c with
      | Some _ => false
      | None => negb ((c =? ".")%char || (c =? "e")%char || (c =? "E")%char)
      end
  end.

(** Characters that start a number. *)
Definition num_start (c : ascii) : Prop := c = "-" \/ is_Some (digit_of c).

(** The first character of a printed value: not white space, not a closing
    bracket. *)
Definition opens (c : ascii) : Prop :=
  is_ws c = false /\ (c =? "]")%char = false /\ (c =? "}")%char = false.

Definition roundtrips (j : json) : Prop :=
  unique_keys j = true -> forall fuel r,
    jsize j <= fuel -> delimited r = true ->
    parse_value fuel (print j ++ r) = Some (stored_as j, r).

End JSON.

(** ** JavaScript values and the object store *)

Module JS.
Import Double JSON.

Definition loc := nat.

(** A value is a primitive or a reference to an array or object of the
    store.  Numbers are as in [json]. *)
Inductive val : Type :=
| VUndefined
| VNull
| VBool (b : bool)
| VNumber (x : num)
| VStr (s : string)
| VRef (l : loc).

(** The number that the literal [m * 10^e] denotes. *)
Definition VNum (m e : Z) : val := VNumber (number m e).

Inductive cell : Type :=
| CArray (xs : list val)
| CObject (fs : list (string * val)).

(** ToBoolean. *)
Definition truthy (v : val) : bool :=
  match v with
  | VUndefined | VNull => false
  | VBool b => b
  | VNumber x => nonzero x
  | VStr s => negb (String.eqb s EmptyString)
  | VRef _ => true
  end.

Definition alloc (c : cell) (h : list cell) : val * list cell :=
  (VRef (length h), h ++ [c]).

Definition index_key (i : nat) : string :=
  string_of_list_ascii (print_N (N.of_nat i)).

(** The own enumerable properties of the object at [l], in order. *)
Definition own_fields (h : list cell) (l : loc) : list (string * val) :=
  match h !! l with
  | Some (CObject fs) => fs
  | Some (CArray xs) => imap (fun i x => (index_key i, x)) xs
  | None => []
  end.

Fixpoint assoc {A} (k : string) (fs : list (string * A)) : option A :=
  match fs with
  | [] => None
  | (k', v) :: fs' => if String.eqb k' k then Some v else assoc k fs'
  end.

(** The property read [v.k] for a name [k] that is neither an array index
    nor [length] nor inherited: [None] is the TypeError of reading a property
    of [undefined] or [null]. *)
Definition get_field (h : list cell) (v : val) (k : string) : option val :=
  match v with
  | VUndefined | VNull => None
  | VRef l =>
      match h !! l with
      | Some (CObject fs) => Some (default VUndefined (assoc k fs))
      | _ => Some VUndefined
      end
  | _ => Some VUndefined
  end.

(** A fresh copy of a JSON tree in the store, as [JSON.parse] builds it:
    the members first, then the array or object that holds them. *)
Fixpoint alloc_json (j : json) (h : list cell) : val * list cell :=
  match j with
  | JNull => (VNull, h)
  | JBool b => (VBool b, h)
  | JNumber x => (VNumber x, h)
  | JStr s => (VStr s, h)
  | JArr xs =>
      let '(vs, h') :=
        (fix go (xs : list json) (h : list cell) : list val * list cell :=
           match xs with
           | [] => ([], h)
           | x :: xs' =>
               let '(v, h1) := alloc_json x h in
               let '(vs, h2) := go xs' h1 in
               (v :: vs, h2)
           end) xs h in
      alloc (CArray vs) h'
  | JObj fs =>
      let '(vs, h') :=
        (fix go (fs : list (string * json)) (h : list cell)
           : list (string * val) * list cell :=
           match fs with
           | [] => ([], h)
           | kv :: fs' =>
               let '(v, h1) := alloc_json (snd kv) h in
               let '(vs, h2) := go fs' h1 in
               ((fst kv, v) :: vs, h2)
           end) fs h in
      alloc (CObject vs) h'
  end.

(** The JSON tree a value stands for, when it is one: no [undefined] inside
    and no cycle.  A chain of references without a cycle visits a cell at most
    once, so fuel above the size of the store is enough
    ([JSFacts.reify_fuel_enough]). *)
Fixpoint reify (fuel : nat) (h : list cell) (v : val) : option json :=
  match fuel with
  | O => None
  | S f =>
      match v with
      | VUndefined => None
      | VNull => Some JNull
      | VBool b => Some (JBool b)
      | VNumber x => Some (JNumber x)
      | VStr s => Some (JStr s)
      | VRef l =>
          match h !! l with
          | Some (CArray xs) => JArr <$> mapM (reify f h) xs
          | Some (CObject fs) =>
              JObj <$> mapM (fun kv => pair (fst kv) <$> reify f h (snd kv)) fs
          | None => None
          end
      end
  end.

Definition denotes (h : list cell) (v : val) (j : json) : Prop :=
  reify (S (length h)) h v = Some j.

(** SerializeJSONProperty: what [JSON.stringify] writes for a value.  The
    outer [None] is the TypeError of a cyclic structure, the inner [None] the
    result [undefined]; [undefined] in an array is written as [null], and a
    member whose value is [undefined] is left out. *)
Fixpoint serialize (fuel : nat) (h : list cell) (v : val)
  : option (option json) :=
  match fuel with
  | O => None
  | S f =>
      match v with
      | VUndefined => Some None
      | VNull => Some (Some JNull)
      | VBool b => Some (Some (JBool b))
      | VNumber x => Some (Some (JNumber x))
      | VStr s => Some (Some (JStr s))
      | VRef l =>
          match h !! l with
          | Some (CArray xs) =>
              match mapM (fun x => default JNull <$> serialize f h x) xs with
              | Some js => Some (Some (JArr js))
              | None => None
              end
          | Some (CObject fs) =>
              match mapM (fun kv =>
                            match serialize f h (snd kv) with
                            | Some (Some j) => Some (Some (fst kv, j))
                            | Some None => Some None
                            | None => None
                            end) fs with
              | Some ms => Some (Some (JObj (omap id ms)))
              | None => None
              end
          | None => None
          end
      end
  end.

Fixpoint jdepth (j : json) : nat :=
  match j with
  | JArr xs => S (foldr (fun x d => Nat.max (jdepth x) d) 0 xs)
  | JObj fs => S (foldr (fun kv d => Nat.max (jdepth (snd kv)) d) 0 fs)
  | _ => 1
  end.

(** What [alloc_json] builds: the store is extended, and the new value stands
    for the tree. *)
Definition alloc_ok (j : json) : Prop :=
  forall h v h', alloc_json j h = (v, h') ->
    exists h2, h' = h ++ h2 /\ jdepth j <= S (length h2) /\
               forall f, jdepth j <= f -> reify f h' v = Some j.

(** A chain of nested cells under a value: the cell at position [i] stands
    for a tree that is [i] levels less deep. *)
Definition chain (h : list cell) (d : nat) (ls : list loc) : Prop :=
  forall i l, ls !! i = Some l ->
    l < length h /\
    exists f j, reify f h (VRef l) = Some j /\ jdepth j + i = d.

(** *** Truthiness and members of parsed values *)

(** ToBoolean of the value a tree stands for. *)
Definition jtruthy (j : json) : bool :=
  match j with
  | JNull => false
  | JBool b => b
  | JNumber x => nonzero x
  | JStr s => negb (String.eqb s EmptyString)
  | JArr _ | JObj _ => true
  end.

(** A member of an allocated object: same key, a value for the member's tree. *)
Definition member_of (h : list cell) (kv : string * val) (kj : string * json)
  : Prop :=
  fst kv = fst kj /\ denotes h (snd kv) (snd kj)
  /\ truthy (snd kv) = jtruthy (snd kj).

End JS.

(** ** The data manager *)

Module DataManager.
Import JSON JS.

Local Open Scope string_scope.
Local Open Scope list_scope.

Inductive exn : Type :=
| SyntaxError            (* JSON.parse on text that is not JSON *)
| TypeError              (* property of undefined or null, cyclic stringify *)
| HostRejected           (* a promise of window.electronAPI rejected *)
| Error (msg : string).  (* new Error(msg) *)

Inductive outcome (A : Type) : Type :=
| Ret (a : A)
| Throw (e : exn).
Arguments Ret {A} a.
Arguments Throw {A} e.

Inductive settled (A : Type) : Type :=
| Resolved (a : A)
| Rejected.
Arguments Resolved {A} a.
Arguments Rejected {A}.

(** [window.electronAPI]: the bridge to the host process, which keeps a state
    of its own.  A value that crosses the bridge is a JSON tree, or
    [undefined] ([None]). *)
Record HostAPI (H : Type) : Type := {
  api_loadData : H -> settled (option json) * H;
  api_saveData : option json -> H -> settled unit * H;
  api_saveTransactions : string -> option json -> H -> settled unit * H;
  api_clearAllData : H -> settled unit * H
}.
Arguments api_loadData {H} _ _.
Arguments api_saveData {H} _ _ _.
Arguments api_saveTransactions {H} _ _ _ _.
Arguments api_clearAllData {H} _ _.

(** The world a method runs in: the object store, the browser's
    [localStorage], the [defaultData] object of the manager,
    [window.electronAPI] when there is one, and the state of the host. *)
Record world (H : Type) : Type := World {
  heap : list cell;
  localStorage : gmap string string;
  defaultData : loc;
  electronAPI : option (HostAPI H);
  hostState : H
}.
Arguments World {H} _ _ _ _ _.
Arguments heap {H} _.
Arguments localStorage {H} _.
Arguments defaultData {H} _.
Arguments electronAPI {H} _.
Arguments hostState {H} _.

Section Methods.
Context {H : Type}.

Definition set_heap (h : list cell) (w : world H) : world H :=
  World h (localStorage w) (defaultData w) (electronAPI w) (hostState w).
Definition set_localStorage (s : gmap string string) (w : world H) : world H :=
  World (heap w) s (defaultData w) (electronAPI w) (hostState w).
Definition set_hostState (s : H) (w : world H) : world H :=
  World (heap w) (localStorage w) (defaultData w) (electronAPI w) s.

(** Computations: a state monad over the world with exceptions; the state
    written before a [throw] stays written. *)
Definition M (A : Type) : Type := world H -> outcome A * world H.

Definition ret {A} (a : A) : M A := fun w => (Ret a, w).
Definition throw {A} (e : exn) : M A := fun w => (Throw e, w).
Definition bind {A B} (m : M A) (k : A -> M B) : M B :=
  fun w => match m w with
           | (Ret a, w') => k a w'
           | (Throw e, w') => (Throw e, w')
           end.
Definition try_catch {A} (body : M A) (handler : exn -> M A) : M A :=
  fun w => match body w with
           | (Ret a, w') => (Ret a, w')
           | (Throw e, w') => handler e w'
           end.

Notation "'let*' x ':=' m 'in' k" := (bind m (fun x => k))
  (at level 10, x name, m at level 100, k at level 200).
Notation "m ';;' k" := (bind m (fun _ => k))
  (at level 100, k at level 200, right associativity).

(** [window.electronAPI], when the script runs under Electron. *)
Definition get_electronAPI : M (option (HostAPI H)) :=
  fun w => (Ret (electronAPI w), w).

(** [await call]: the host settles the promise. *)
Definition await {A} (call : H -> settled A * H) : M A :=
  fun w => match call (hostState w) with
           | (Resolved a, s) => (Ret a, set_hostState s w)
           | (Rejected, s) => (Throw HostRejected, set_hostState s w)
           end.

(** *** [localStorage] *)

Definition getItem (key : string) : M (option string) :=
  fun w => (Ret (localStorage w !! key), w).
Definition setItem (key value : string) : M unit :=
  fun w => (Ret tt, set_localStorage (<[key := value]> (localStorage w)) w).
Definition removeItem (key : string) : M unit :=
  fun w => (Ret tt, set_localStorage (delete key (localStorage w)) w).

(** [item ? yes(item) : no] for the result of [getItem]: [null] and the
    empty string are falsy. *)
Definition if_item {A} (item : option string) (yes : string -> M A) (no : M A)
  : M A :=
  match item with
  | Some s => if String.eqb s EmptyString then no else yes s
  | None => no
  end.

(** *** Values *)

Definition new_cell (c : cell) : M val :=
  fun w => let '(v, h) := alloc c (heap w) in (Ret v, set_heap h w).

Definition read_field (v : val) (k : string) : M val :=
  fun w => match get_field (heap w) v k with
           | Some x => (Ret x, w)
           | None => (Throw TypeError, w)
           end.

(** A value that arrives from the host. *)
Definition receive (r : option json) : M val :=
  fun w => match r with
           | Some j => let '(v, h) := alloc_json j (heap w) in (Ret v, set_heap h w)
           | None => (Ret VUndefined, w)
           end.

(** A value that is sent to the host. *)
Definition send (v : val) : M (option json) :=
  fun w => (Ret (reify (S (length (heap w))) (heap w) v), w).

Definition JSON_parse (text : string) : M val :=
  fun w => match JSON.parse text with
           | Some j => let '(v, h) := alloc_json j (heap w) in (Ret v, set_heap h w)
           | None => (Throw SyntaxError, w)
           end.

(** [JSON.stringify(v)], converted to a string as [setItem] does: the result
    [undefined] becomes the text [undefined]. *)
Definition JSON_stringify (v : val) : M string :=
  fun w => match serialize (S (length (heap w))) (heap w) v with
           | Some (Some j) => (Ret (JSON.stringify j), w)
           | Some None => (Ret "undefined", w)
           | None => (Throw TypeError, w)
           end.

(** [this.defaultData] *)
Definition this_defaultData : M val :=
  fun w => (Ret (VRef (defaultData w)), w).

(** [{ ...this.defaultData }]: a new object with the same members. *)
Definition spread_defaultData : M val :=
  fun w => let '(v, h) := alloc (CObject (own_fields (heap w) (defaultData w)))
                                (heap w) in
           (Ret v, set_heap h w).

(** [a || []] *)
Definition or_empty_array (a : val) : M val :=
  if truthy a then ret a else new_cell (CArray []).

(** *** Methods of [DataManager] *)

Definition migrateFromLocalStorage : M unit :=
  let* existingData := getItem "perfectWoodData" in
  let* existingCustomerTransactions := getItem "customerTransactions" in
  let* existingSupplierTransactions := getItem "supplierTransactions" in
  if_item existingData
    (setItem "data/perfectWoodData.json") (ret tt) ;;
  if_item existingCustomerTransactions
    (setItem "data/customerTransactions.json") (ret tt) ;;
  if_item existingSupplierTransactions
    (setItem "data/supplierTransactions.json") (ret tt).

Definition initialize : M unit :=
  try_catch
    (let* api := get_electronAPI in
     match api with
     | Some _ => ret tt
     | None => migrateFromLocalStorage
     end)
    (fun _ => ret tt).

Definition loadData : M val :=
  try_catch
    (let* api := get_electronAPI in
     match api with
     | Some api =>
         let* r := await (api_loadData api) in
         let* result := receive r in
         let* data := read_field result "data" in
         if truthy data then ret data else this_defaultData
     | None =>
         let* data := getItem "data/perfectWoodData.json" in
         if_item data JSON_parse spread_defaultData
     end)
    (fun _ => spread_defaultData).

Definition saveData (data : val) : M bool :=
  try_catch
    (let* api := get_electronAPI in
     match api with
     | Some api =>
         let* d := send data in
         await (api_saveData api d) ;;
         ret true
     | None =>
         let* text := JSON_stringify data in
         setItem "data/perfectWoodData.json" text ;;
         ret true
     end)
    (fun _ => ret false).

Definition loadCustomerTransactions : M val :=
  try_catch
    (let* api := get_electronAPI in
     match api with
     | Some api =>
         let* r := await (api_loadData api) in
         let* result := receive r in
         let* ts := read_field result "customerTransactions" in
         or_empty_array ts
     | None =>
         let* transactions := getItem "data/customerTransactions.json" in
         if_item transactions JSON_parse (new_cell (CArray []))
     end)
    (fun _ => new_cell (CArray [])).

Definition saveCustomerTransactions (transactions : val) : M bool :=
  try_catch
    (let* api := get_electronAPI in
     match api with
     | Some api =>
         let* d := send transactions in
         await (api_saveTransactions api "customer" d) ;;
         ret true
     | None =>
         let* text := JSON_stringify transactions in
         setItem "data/customerTransactions.json" text ;;
         ret true
     end)
    (fun _ => ret false).

Definition loadSupplierTransactions : M val :=
  try_catch
    (let* api := get_electronAPI in
     match api with
     | Some api =>
         let* r := await (api_loadData api) in
         let* result := receive r in
         let* ts := read_field result "supplierTransactions" in
         or_empty_array ts
     | None =>
         let* transactions := getItem "data/supplierTransactions.json" in
         if_item transactions JSON_parse (new_cell (CArray []))
     end)
    (fun _ => new_cell (CArray [])).

Definition saveSupplierTransactions (transactions : val) : M bool :=
  try_catch
    (let* api := get_electronAPI in
     match api with
     | Some api =>
         let* d := send transactions in
         await (api_saveTransactions api "supplier" d) ;;
         ret true
     | None =>
         let* text := JSON_stringify transactions in
         setItem "data/supplierTransactions.json" text ;;
         ret true
     end)
    (fun _ => ret false).

(** [importData(file)]: [file] is the text the FileReader delivers, [None]
    when reading fails.  [Ret true] is the resolved promise, [Throw e] the
    promise rejected with [e]. *)
Definition importData (file : option string) : M bool :=
  match file with
  | None => throw (Error "Error reading file")
  | Some text =>
      try_catch
        (let* importData := JSON_parse text in
         let* products := read_field importData "products" in
         let* customers := read_field importData "customers" in
         let* sellers := read_field importData "sellers" in
         (if negb (truthy products) || negb (truthy customers)
             || negb (truthy sellers)
          then throw (Error "Invalid data structure") else ret tt) ;;
         let* p := or_empty_array products in
         let* c := or_empty_array customers in
         let* s := or_empty_array sellers in
         let* dataset :=
           new_cell (CObject [("products", p); ("customers", c); ("sellers", s)]) in
         saveData dataset ;;
         let* customerTransactions :=
           read_field importData "customerTransactions" in
         (if truthy customerTransactions
          then saveCustomerTransactions customerTransactions ;; ret tt
          else ret tt) ;;
         let* supplierTransactions :=
           read_field importData "supplierTransactions" in
         (if truthy supplierTransactions
          then saveSupplierTransactions supplierTransactions ;; ret tt
          else ret tt) ;;
         ret true)
        (fun error => throw error)
  end.

Definition clearAllData : M bool :=
  try_catch
    (let* api := get_electronAPI in
     match api with
     | Some api =>
         await (api_clearAllData api) ;;
         ret true
     | None =>
         removeItem "data/perfectWoodData.json" ;;
         removeItem "data/customerTransactions.json" ;;
         removeItem "data/supplierTransactions.json" ;;
         ret true
     end)
    (fun _ => ret false).

(** [arr.push(x)], as a caller may do with a value it was given. *)
Definition array_push (arr x : val) : M unit :=
  fun w => match arr with
           | VRef l =>
               match heap w !! l with
               | Some (CArray xs) =>
                   (Ret tt, set_heap (<[l := CArray (xs ++ [x])]> (heap w)) w)
               | _ => (Throw TypeError, w)
               end
           | _ => (Throw TypeError, w)
           end.

End Methods.

Notation "'let*' x ':=' m 'in' k" := (bind m (fun x => k))
  (at level 10, x name, m at level 100, k at level 200).
Notation "m ';;' k" := (bind m (fun _ => k))
  (at level 100, k at level 200, right associativity).

(** *** Vocabulary of the properties *)

(** The value of the [defaultData] literal. *)
Definition default_tree : json :=
  JObj [("products", JArr []); ("customers", JArr []); ("sellers", JArr []);
        ("customerTransactions", JArr []); ("supplierTransactions", JArr [])].

(** The [defaultData] object still has the value of its literal. *)
Definition default_intact {H} (w : world H) : Prop :=
  denotes (heap w) (VRef (defaultData w)) default_tree.

Definition has_array (k : string) (fs : list (string * json)) : bool :=
  match assoc k fs with
  | Some (JArr _) => true
  | _ => false
  end.

(** A Dataset: an object with sequences [products], [customers], [sellers],
    all of it JSON data. *)
Definition dataset_shape (j : json) : bool :=
  match j with
  | JObj fs => has_array "products" fs && has_array "customers" fs
               && has_array "sellers" fs
  | _ => false
  end.

Definition valid_dataset (j : json) : bool := wf j && dataset_shape j.

(** A transaction log: a sequence of JSON data. *)
Definition sequence_shape (j : json) : bool :=
  match j with JArr _ => true | _ => false end.

Definition valid_transactions (j : json) : bool := wf j && sequence_shape j.

(** [Array.isArray(v)] *)
Definition is_array (h : list cell) (v : val) : bool :=
  match v with
  | VRef l =>
      match h !! l with
      | Some (CArray _) => true
      | _ => false
      end
  | _ => false
  end.

(** [Array.isArray(v.k)]; [false] also when reading [v.k] throws. *)
Definition array_field (h : list cell) (v : val) (k : string) : bool :=
  match get_field h v k with
  | Some x => is_array h x
  | None => false
  end.

(** The value is a record whose [products], [customers] and [sellers] are
    arrays, whatever they hold. *)
Definition is_record (h : list cell) (v : val) : bool :=
  array_field h v "products" && array_field h v "customers"
  && array_field h v "sellers".

(** The [defaultData] object is still such a record. *)
Definition default_shaped {H} (w : world H) : Prop :=
  is_record (heap w) (VRef (defaultData w)) = true.

(** What the gateway needs from a host to read back what it wrote: the save
    resolves, and the next [loadData] resolves with an object that has the
    saved tree under [field]. *)
Definition host_keeps {H} (api : HostAPI H) (s : H)
           (save : option json -> H -> settled unit * H)
           (field : string) (j : json) : Prop :=
  exists s1 s2 fs,
    save (Some j) s = (Resolved tt, s1) /\
    api_loadData api s1 = (Resolved (Some (JObj fs)), s2) /\
    assoc field fs = Some j.

Definition backend_keeps {H} (w : world H)
           (save : HostAPI H -> option json -> H -> settled unit * H)
           (field : string) (j : json) : Prop :=
  match electronAPI w with
  | Some api => host_keeps api (hostState w) (save api) field j
  | None => True
  end.

(** The members of the object that [JSON.parse] returns, read at any later
    time. *)
Definition reads_as (h : list cell) (v : val) (fs : list (string * json))
  : Prop :=
  forall k h3,
    match assoc k fs with
    | Some j => exists x, get_field (h ++ h3) v k = Some x /\ denotes h x j
                          /\ truthy x = jtruthy j
    | None => get_field (h ++ h3) v k = Some VUndefined
    end.

(** ToBoolean of a member of the imported object; an absent member reads as
    [undefined]. *)
Definition field_truthy (k : string) (fs : list (string * json)) : bool :=
  match assoc k fs with
  | Some j => jtruthy j
  | None => false
  end.

(** [importData] as the validation allows it to be written: the three
    members go to [saveData] as they were read, without the fallback to an
    empty array. *)
Definition importData_without_fallback {H} (file : option string)
  : @M H bool :=
  match file with
  | None => throw (Error "Error reading file")
  | Some text =>
      try_catch
        (let* importData := JSON_parse text in
         let* products := read_field importData "products" in
         let* customers := read_field importData "customers" in
         let* sellers := read_field importData "sellers" in
         (if negb (truthy products) || negb (truthy customers)
             || negb (truthy sellers)
          then throw (Error "Invalid data structure") else ret tt) ;;
         let* dataset :=
           new_cell (CObject [("products", products); ("customers", customers);
                              ("sellers", sellers)]) in
         saveData dataset ;;
         let* customerTransactions :=
           read_field importData "customerTransactions" in
         (if truthy customerTransactions
          then saveCustomerTransactions customerTransactions ;; ret tt
          else ret tt) ;;
         let* supplierTransactions :=
           read_field importData "supplierTransactions" in
         (if truthy supplierTransactions
          then saveSupplierTransactions supplierTransactions ;; ret tt
          else ret tt) ;;
         ret true)
        (fun error => throw error)
  end.

(** The world after one save of the tree [j]: in the browser its text is
    under [key]; under Electron the host has been called with it, whether
    the call resolved or not. *)
Definition after_save {H} (key : string)
           (call : HostAPI H -> option json -> H -> settled unit * H)
           (j : json) (w : world H) : world H :=
  match electronAPI w with
  | Some api => set_hostState (snd (call api (Some j) (hostState w))) w
  | None => set_localStorage (<[key := stringify j]> (localStorage w)) w
  end.

(** [if (importData.k) await save(importData.k)] *)
Definition after_save_if {H} (key : string)
           (call : HostAPI H -> option json -> H -> settled unit * H)
           (oj : option json) (w : world H) : world H :=
  match oj with
  | Some j => if jtruthy j then after_save key call j w else w
  | None => w
  end.

(** What an accepted import leaves behind: the dataset of the three members
    is saved, then each transaction log that is there and truthy. *)
Definition after_import {H} (fs : list (string * json)) (jp jc js : json)
           (w : world H) : world H :=
  after_save_if "data/supplierTransactions.json"
    (fun api => api_saveTransactions api "supplier")
    (assoc "supplierTransactions" fs)
    (after_save_if "data/customerTransactions.json"
       (fun api => api_saveTransactions api "customer")
       (assoc "customerTransactions" fs)
       (after_save "data/perfectWoodData.json" (@api_saveData H)
          (JObj [("products", jp); ("customers", jc); ("sellers", js)]) w)).

(** What the gateway needs from a host after [clearAllData]: [loadData]
    resolves with an object that has no truthy [data] and
    [customerTransactions]. *)
Definition host_reports_nothing {H} (api : HostAPI H) (s : H) : Prop :=
  exists fs s2,
    api_loadData api s = (Resolved (Some (JObj fs)), s2) /\
    field_truthy "data" fs = false /\
    field_truthy "customerTransactions" fs = false.

(** [if (item) setItem(to, item)] on the store. *)
Definition copy_item (item : option string) (to : string)
           (ls : gmap string string) : gmap string string :=
  match item with
  | Some s => if String.eqb s EmptyString then ls else <[to := s]> ls
  | None => ls
  end.

(** The store after [migrateFromLocalStorage]. *)
Definition migrated (ls : gmap string string) : gmap string string :=
  copy_item (ls !! "supplierTransactions") "data/supplierTransactions.json"
    (copy_item (ls !! "customerTransactions") "data/customerTransactions.json"
       (copy_item (ls !! "perfectWoodData") "data/perfectWoodData.json" ls)).

(** The text under a key is usable for a loader that expects [shape]: there
    is none, or it is empty, or it is not JSON, or it is the JSON text of a
    value of that shape. *)
Definition usable (shape : json -> bool) (item : option string) : Prop :=
  match item with
  | Some s =>
      s = EmptyString \/
      match parse s with
      | Some j => shape j = true
      | None => True
      end
  | None => True
  end.

(** What the host answers to [loadData] is usable for a loader that reads
    [field] and expects [shape]: the promise is rejected, or it resolves with
    a value whose [field] is absent, falsy or of that shape. *)
Definition host_usable (shape : json -> bool) (field : string)
           (reply : settled (option json)) : Prop :=
  match reply with
  | Resolved (Some (JObj fs)) =>
      match assoc field fs with
      | Some j => jtruthy j = false \/ shape j = true
      | None => True
      end
  | _ => True
  end.

(** What the backend of the environment holds is usable for a loader. *)
Definition backend_usable {H} (shape : json -> bool) (field key : string)
           (w : world H) : Prop :=
  match electronAPI w with
  | Some api => host_usable shape field (fst (api_loadData api (hostState w)))
  | None => usable shape (localStorage w !! key)
  end.

(** What the gateway needs from a host to start afresh: once [clearAllData]
    has resolved, the host reports no data. *)
Definition host_clears {H} (w : world H) : Prop :=
  match electronAPI w with
  | Some api =>
      forall s1, api_clearAllData api (hostState w) = (Resolved tt, s1) ->
                 host_reports_nothing api s1
  | None => True
  end.

(** A caller loads, pushes [x] onto [products] of what it was given, and
    loads again. *)
Definition load_push_load {H} (x : val) : @M H val :=
  let* first := loadData in
  let* products := read_field first "products" in
  array_push products x ;;
  loadData.

(** A caller loads, pushes [x] onto [products] of what it was given, saves
    it, clears all data and loads again. *)
Definition load_push_clear_load {H} (x : val) : @M H (bool * val) :=
  let* first := loadData in
  let* products := read_field first "products" in
  array_push products x ;;
  saveData first ;;
  let* cleared := clearAllData in
  let* second := loadData in
  ret (cleared, second).

(** *** Example worlds *)

(** The store when the script has just been loaded: the five empty arrays of
    the [defaultData] literal and the object itself. *)
Definition fresh_heap : list cell :=
  [CArray []; CArray []; CArray []; CArray []; CArray [];
   CObject [("products", VRef 0); ("customers", VRef 1); ("sellers", VRef 2);
            ("customerTransactions", VRef 3); ("supplierTransactions", VRef 4)]].

(** A browser with nothing in [localStorage]. *)
Definition browser_world : world unit := World fresh_heap ∅ 5 None tt.

(** An example of a host: it keeps the members of the object that
    [loadData] resolves with, and refuses a value that is not a JSON tree. *)
Definition memory_host : HostAPI (list (string * json)) := {|
  api_loadData := fun s => (Resolved (Some (JObj s)), s);
  api_saveData := fun d s =>
    match d with
    | Some j => (Resolved tt, obj_set s "data" j)
    | None => (Rejected, s)
    end;
  api_saveTransactions := fun kind d s =>
    match d with
    | Some j => (Resolved tt, obj_set s (kind +:+ "Transactions") j)
    | None => (Rejected, s)
    end;
  api_clearAllData := fun s => (Resolved tt, [])
|}.

(** Electron with that host, nothing saved yet. *)
Definition electron_world : world (list (string * json)) :=
  World fresh_heap ∅ 5 (Some memory_host) [].

Definition stocked_electron_world : world (list (string * json)) :=
  World fresh_heap ∅ 5 (Some memory_host)
        [("data",
          JObj [("products", JArr [JObj [("id", JNum 1 0)]]);
                ("customers", JArr []); ("sellers", JArr [])]);
         ("customerTransactions", JArr [JObj [("id", JNum 7 0)]])].

Definition sample_dataset : json :=
  JObj [("products", JArr [JObj [("id", JNum 1 0); ("name", JStr "oak")]]);
        ("customers", JArr []); ("sellers", JArr [])].

Definition sample_transactions : json :=
  JArr [JObj [("customer", JStr "A"); ("amount", JNum 125 (-1))]].

(** A world in which a caller holds (a value for) the tree [j]. *)
Definition holding {H} (j : json) (w : world H) : val * world H :=
  let '(v, h) := alloc_json j (heap w) in (v, set_heap h w).

Definition browser_with_dataset : val * world unit :=
  holding sample_dataset browser_world.
Definition electron_with_dataset : val * world (list (string * json)) :=
  holding sample_dataset electron_world.
Definition browser_with_transactions : val * world unit :=
  holding sample_transactions browser_world.
Definition electron_with_transactions : val * world (list (string * json)) :=
  holding sample_transactions electron_world.

(** A browser with a dataset and a customer log in [localStorage]. *)
Definition stocked_world : world unit :=
  World fresh_heap
        (<["data/perfectWoodData.json" :=
             stringify (JObj [("products", JArr []); ("customers", JArr []);
                              ("sellers", JArr [])])]>
           (<["data/customerTransactions.json" :=
                stringify (JArr [JObj [("id", JNum 7 0)]])]> ∅))
        5 None tt.

(** Files to import. *)
Definition import_of_three_fields : string :=
  stringify (JObj [("products", JArr [JObj [("id", JNum 1 0)]]);
                   ("customers", JArr []); ("sellers", JArr [])]).

Definition import_without_sellers : string :=
  stringify (JObj [("products", JArr [JObj [("id", JNum 1 0)]]);
                   ("customers", JArr [])]).


(** A browser whose dataset key holds text that is not JSON. *)
Definition corrupt_text : string := "{products:[1,".

Definition corrupt_world : world unit :=
  World fresh_heap {["data/perfectWoodData.json" := corrupt_text]} 5 None tt.

(** A browser that still has the data of the previous version. *)
Definition legacy_text : string :=
  stringify (JObj [("products", JArr [JObj [("id", JNum 3 0)]]);
                   ("customers", JArr []); ("sellers", JArr [])]).

Definition legacy_world : world unit :=
  World fresh_heap
        (<["perfectWoodData" := legacy_text]>
           (<["customerTransactions" := "[]"]> ∅))
        5 None tt.

(** A browser whose keys hold JSON text of another shape. *)
Definition misshapen_world : world unit :=
  World fresh_heap
        (<["data/perfectWoodData.json" := "null"]>
           (<["data/customerTransactions.json" := "5"]> ∅))
        5 None tt.

(** A browser whose keys hold numbers beyond the range of a Number. *)
Definition overflowing_world : world unit :=
  World fresh_heap
        (<["data/perfectWoodData.json" :=
             "[1e400,-0,1e-400,0.1]"]>
           (<["data/customerTransactions.json" := "[-1e999]"]> ∅))
        5 None tt.

(** Electron with a host that reports members of another shape. *)
Definition misreporting_world : world (list (string * json)) :=
  World fresh_heap ∅ 5 (Some memory_host)
        [("data", JNum 5 0); ("customerTransactions", JStr "none")].

(** A browser in which a caller has pushed onto the [products] it was
    given by [loadData]. *)
Definition intruded_heap : list cell :=
  [CArray [VStr "intruder"]; CArray []; CArray []; CArray []; CArray [];
   CObject [("products", VRef 0); ("customers", VRef 1); ("sellers", VRef 2);
            ("customerTransactions", VRef 3); ("supplierTransactions", VRef 4)]].

Definition intruded_world : world unit :=
  World intruded_heap
        (<["data/perfectWoodData.json" := corrupt_text]>
           (<["data/customerTransactions.json" := "5"]> ∅))
        5 None tt.

Definition intruded_tree : json :=
  JObj [("products", JArr [JStr "intruder"]); ("customers", JArr []);
        ("sellers", JArr []); ("customerTransactions", JArr []);
        ("supplierTransactions", JArr [])].

End DataManager.

(** ** The backup file *)

Module Backup.
Import JSON JS DataManager.

(** *** [JSON.stringify(value, null, 2)] *)

Definition newline : ascii := "010".

Definition indentation (n : nat) : list ascii := repeat " " n.

Fixpoint join_with (sep : list ascii) (parts : list (list ascii)) : list ascii :=
  match parts with
  | [] => []
  | p :: ps =>
      match ps with
      | [] => p
      | _ :: _ => p ++ sep ++ join_with sep ps
      end
  end.

(** SerializeJSONArray and SerializeJSONObject with a gap of two spaces:
    [n] is the indentation of the line the value starts on. *)
Fixpoint print_indented (n : nat) (j : json) : list ascii :=
  match j with
  | JArr xs =>
      match xs with
      | [] => ["["; "]"]
      | _ :: _ =>
          "[" :: newline :: indentation (n + 2)
          ++ join_with ("," :: newline :: indentation (n + 2))
                       (map (print_indented (n + 2)) xs)
          ++ newline :: indentation n ++ ["]"]
      end
  | JObj fs =>
      match fs with
      | [] => ["{"; "}"]
      | _ :: _ =>
          "{" :: newline :: indentation (n + 2)
          ++ join_with ("," :: newline :: indentation (n + 2))
                       (map (fun kv => print_string (fst kv)
                                       ++ ":" :: " " :: print_indented (n + 2) (snd kv))
                            fs)
          ++ newline :: indentation n ++ ["}"]
      end
  | _ => print j
  end.

Definition print_indented_member (n : nat) (kv : string * json) : list ascii :=
  print_string (fst kv) ++ ":" :: " " :: print_indented n (snd kv).

Definition stringify_indented (j : json) : string :=
  string_of_list_ascii (print_indented 0 j).

Definition indented_roundtrips (j : json) : Prop :=
  unique_keys j = true -> forall n fuel r,
    jsize j <= fuel -> delimited r = true ->
    parse_value fuel (print_indented n j ++ r) = Some (stored_as j, r).

Local Open Scope string_scope.
Local Open Scope list_scope.

(** *** Object literals *)

(** A property definition in an object literal: a name that is already there
    keeps its place and takes the new value. *)
Fixpoint set_member {A} (fs : list (string * A)) (k : string) (v : A)
  : list (string * A) :=
  match fs with
  | [] => [(k, v)]
  | (k', v') :: fs' =>
      if String.eqb k' k then (k', v) :: fs' else (k', v') :: set_member fs' k v
  end.

(** The code units of a string: a byte below 192 is one of its own, a byte
    below 224 starts one of two bytes, any other one of three. *)
Fixpoint code_units (s : list ascii) : list (list ascii) :=
  match s with
  | [] => []
  | c :: r =>
      if (nat_of_ascii c <? 192)%nat then [c] :: code_units r
      else
        match r with
        | [] => [[c]]
        | c2 :: r2 =>
            if (nat_of_ascii c <? 224)%nat then [c; c2] :: code_units r2
            else
              match r2 with
              | [] => [[c; c2]]
              | c3 :: r3 => [c; c2; c3] :: code_units r3
              end
        end
  end.

(** The code units of a string as its indexed properties. *)
Definition string_fields (s : string) : list (string * val) :=
  imap (fun i u => (index_key i, VStr (string_of_list_ascii u)))
       (code_units (list_ascii_of_string s)).

(** The own enumerable properties that [{ ...v }] copies: none for
    [undefined], [null], a boolean or a number. *)
Definition spread_fields (h : list cell) (v : val) : list (string * val) :=
  match v with
  | VRef l => own_fields h l
  | VStr s => string_fields s
  | _ => []
  end.

(** [s.split('T')[0]] *)
Fixpoint before_T (s : string) : string :=
  match s with
  | EmptyString => EmptyString
  | String c r => if (c =? "T")%char then EmptyString else String c (before_T r)
  end.

Section Exporting.
Context {H : Type}.

(** [{ ...v }], the members only. *)
Definition spread (v : val) : @M H (list (string * val)) :=
  fun w => (Ret (spread_fields (heap w) v), w).

(** [JSON.stringify(v, null, 2)], converted to a string as [new Blob] does. *)
Definition JSON_stringify_indented (v : val) : @M H string :=
  fun w => match serialize (S (length (heap w))) (heap w) v with
           | Some (Some j) => (Ret (stringify_indented j), w)
           | Some None => (Ret "undefined", w)
           | None => (Throw TypeError, w)
           end.

(** [exportData()].  The two readings of the clock, [new Date().toISOString()]
    for [exportDate] and for the name of the file, are the arguments [now] and
    [later]; the file that the click on the anchor hands to the browser is
    returned beside the flag, as its name and its text. *)
Definition exportData (now later : string)
  : @M H (bool * option (string * string)) :=
  try_catch
    (let* data := loadData in
     let* customerTransactions := loadCustomerTransactions in
     let* supplierTransactions := loadSupplierTransactions in
     let* members := spread data in
     let* exportData :=
       new_cell
         (CObject
            (set_member
               (set_member
                  (set_member members "customerTransactions" customerTransactions)
                  "supplierTransactions" supplierTransactions)
               "exportDate" (VStr now))) in
     let* text := JSON_stringify_indented exportData in
     ret (true,
          Some ("perfect-wood-backup-" +:+ before_T later +:+ ".json", text)))
    (fun _ => ret (false, None)).

End Exporting.

(** *** Vocabulary of the properties *)

(** What a loader of the browser returns for the text under its key: what
    the text parses to, and [fallback] when there is no text, or it is empty
    or not JSON. *)
Definition stored_tree (fallback : json) (item : option string) : json :=
  match item with
  | Some s =>
      if String.eqb s EmptyString then fallback
      else match parse s with
           | Some j => j
           | None => fallback
           end
  | None => fallback
  end.

(** The members of the exported object. *)
Definition backup_members (fs : list (string * json)) (ct st : json)
           (now : string) : list (string * json) :=
  set_member
    (set_member (set_member fs "customerTransactions" ct)
                "supplierTransactions" st)
    "exportDate" (JStr now).

(** [if (j) setItem(key, JSON.stringify(j))] on the store, for a member [oj]
    of the imported object. *)
Definition store_if_truthy (key : string) (oj : option json)
           (ls : gmap string string) : gmap string string :=
  match oj with
  | Some j => if jtruthy j then <[key := stringify j]> ls else ls
  | None => ls
  end.

(** Whether the host resolved the promise. *)
Definition is_resolved {A} (r : settled A) : bool :=
  match r with
  | Resolved _ => true
  | Rejected => false
  end.

(** [if (j) await electronAPI.saveTransactions(kind, j)] on the state of the
    host, for a member [oj] of the imported object. *)
Definition host_after_log {H} (api : HostAPI H) (kind : string)
           (oj : option json) (s : H) : H :=
  match oj with
  | Some j => if jtruthy j then snd (api_saveTransactions api kind (Some j) s)
              else s
  | None => s
  end.

(** A key holds text: it is there and not empty. *)
Definition populated (item : option string) : bool :=
  match item with
  | Some s => negb (String.eqb s EmptyString)
  | None => false
  end.

(** The keys that [migrateFromLocalStorage] reads, each with the key it
    writes. *)
Definition migration_pairs : list (string * string) :=
  [("perfectWoodData", "data/perfectWoodData.json");
   ("customerTransactions", "data/customerTransactions.json");
   ("supplierTransactions", "data/supplierTransactions.json")].

(** *** Frames *)

(** What a step may do to the world: the store only grows, the manager and
    the environment stay; [localStorage] stays when [storage] is set and the
    state of the host when [host] is set. *)
Definition frame_of {H} (storage host : bool) (w w' : world H) : Prop :=
  (exists h2, heap w' = heap w ++ h2) /\
  defaultData w' = defaultData w /\
  electronAPI w' = electronAPI w /\
  (storage = true -> localStorage w' = localStorage w) /\
  (host = true -> hostState w' = hostState w).

(** A loader reads: under Electron it asks the host, in the browser it
    changes neither backend. *)
Definition only_reads {H} (w w' : world H) : Prop :=
  match electronAPI w with
  | Some _ => frame_of true false w w'
  | None => frame_of true true w w'
  end.

(** A method keeps to the backend of its environment: [localStorage] is
    left alone under Electron, and the host in the browser. *)
Definition keeps_apart {H} (w w' : world H) : Prop :=
  match electronAPI w with
  | Some _ => frame_of true false w w'
  | None => frame_of false true w w'
  end.

(** Every run of [m] is within [R]. *)
Definition respects {H A} (R : world H -> world H -> Prop) (m : @M H A) : Prop :=
  forall w r w', m w = (r, w') -> R w w'.

(** The host process of the examples refuses every call. *)
Definition refusing_host : HostAPI unit := {|
  api_loadData := fun s => (Rejected, s);
  api_saveData := fun _ s => (Rejected, s);
  api_saveTransactions := fun _ _ s => (Rejected, s);
  api_clearAllData := fun s => (Rejected, s)
|}.

Definition refusing_world : world unit :=
  World fresh_heap ∅ 5 (Some refusing_host) tt.

(** A backup file with a customer log and no supplier log. *)
Definition import_with_customer_log : string :=
  stringify (JObj [("products", JArr [JObj [("id", JNum 1 0)]]);
                   ("customers", JArr []); ("sellers", JArr []);
                   ("customerTransactions", JArr [JObj [("id", JNum 9 0)]])]).

(** A browser in which both versions of the dataset are stored. *)
Definition upgraded_world : world unit :=
  World fresh_heap
        (<["perfectWoodData" := legacy_text]>
           (<["data/perfectWoodData.json" := stringify sample_dataset]> ∅))
        5 None tt.

End Backup.

(** ** Properties of the numbers *)

Module DoubleFacts.
Import Double.

Local Open Scope Z_scope.

Lemma pow2_pos n : 0 <= n -> 0 < 2 ^ n.
Proof. intros Hn. now apply Z.pow_pos_nonneg. Qed.

Lemma log2_mul_pow2 m n : 0 < m -> 0 <= n -> Z.log2 (m * 2 ^ n) = Z.log2 m + n.
Proof. intros Hm Hn. rewrite Z.log2_mul_pow2 by lia. lia. Qed.

(** A quotient that is exact is rounded to itself. *)
Lemma round_exact m e s :
  0 < m -> canonical m e = true -> 1076 <= s ->
  let q := m * 2 ^ (e + s) in
  let e' := Z.max (Z.log2 q - s - 52) (-1074) in
  e' = e /\ q / 2 ^ (e' + s) = m /\ q mod 2 ^ (e' + s) = 0.
Proof.
  intros Hm Hc Hs q e'. unfold canonical in Hc.
  rewrite Z.abs_eq in Hc by lia.
  apply andb_true_iff in Hc as [Hc Hfull].
  apply andb_true_iff in Hc as [Hc Hemax].
  apply andb_true_iff in Hc as [Hc Hemin].
  apply andb_true_iff in Hc as [_ Hlt].
  apply Z.ltb_lt in Hlt. apply Z.leb_le in Hemin, Hemax.
  assert (Hes : 0 <= e + s) by lia.
  assert (He' : e' = e).
  { unfold e', q. rewrite log2_mul_pow2 by lia.
    apply orb_true_iff in Hfull as [Hfull|Hsub].
    - apply Z.leb_le in Hfull.
      assert (Z.log2 m = 52).
      { apply Z.log2_unique; [lia|]. change (2 ^ 52 <= m < 2 ^ 53). lia. }
      lia.
    - apply Z.eqb_eq in Hsub.
      assert (Z.log2 m <= 52).
      { apply Z.lt_succ_r. apply Z.log2_lt_pow2; [lia|]. exact Hlt. }
      lia. }
  split; [exact He'|]. rewrite He'. unfold q.
  pose proof (pow2_pos (e + s) Hes).
  split; [apply Z.div_mul | apply Z.mod_mul]; lia.
Qed.

Lemma round_ratio_exact a b m e :
  0 < a -> 0 < b -> 0 < m -> canonical m e = true ->
  (forall s, 1076 <= s -> a * 2 ^ s = m * 2 ^ (e + s) * b) ->
  round_ratio a b = (m, e).
Proof.
  intros Ha Hb Hm Hc Hq. unfold round_ratio.
  set (s := Z.max 1076 (66 + Z.log2 b - Z.log2 a)).
  assert (Hs : 1076 <= s) by (unfold s; lia).
  rewrite (Hq s Hs), Z.div_mul, Z.mod_mul by lia.
  destruct (round_exact m e s Hm Hc Hs) as (He & Hdiv & Hmod).
  cbv zeta in He, Hdiv, Hmod. rewrite He in Hdiv, Hmod. rewrite He, Hdiv, Hmod.
  assert (Hhalf : 0 < 2 ^ (e + s - 1)).
  { apply pow2_pos. unfold canonical in Hc.
    apply andb_true_iff in Hc as [Hc _]. apply andb_true_iff in Hc as [Hc _].
    apply andb_true_iff in Hc as [_ Hemin]. apply Z.leb_le in Hemin. lia. }
  replace (2 ^ (e + s - 1) <? 0) with false by (symmetry; apply Z.ltb_ge; lia).
  replace (0 =? 2 ^ (e + s - 1)) with false by (symmetry; apply Z.eqb_neq; lia).
  cbn [orb andb].
  replace (m =? 2 ^ 53) with false; [reflexivity|].
  symmetry. apply Z.eqb_neq. unfold canonical in Hc.
  rewrite Z.abs_eq in Hc by lia.
  apply andb_true_iff in Hc as [Hc _]. apply andb_true_iff in Hc as [Hc _].
  apply andb_true_iff in Hc as [Hc _]. apply andb_true_iff in Hc as [_ Hlt].
  apply Z.ltb_lt in Hlt. lia.
Qed.

Lemma strip_zeros_spec fuel : forall d k,
  0 < d ->
  exists j, 0 <= j /\ 0 < fst (strip_zeros fuel d k)
            /\ d = fst (strip_zeros fuel d k) * 10 ^ j
            /\ snd (strip_zeros fuel d k) = k + j.
Proof.
  induction fuel as [|f IH]; intros d k Hd; cbn [strip_zeros].
  - exists 0. cbn [fst snd]. rewrite Z.pow_0_r. lia.
  - destruct (Z.eqb_spec (d mod 10) 0) as [Hmod|Hmod]; cbn [andb].
    + replace (d =? 0) with false by (symmetry; apply Z.eqb_neq; lia).
      cbn [negb].
      assert (Hdiv : d = 10 * (d / 10))
        by (rewrite (Z.div_mod d 10) at 1 by lia; lia).
      destruct (IH (d / 10) (k + 1)) as (j & Hj & Hpos & Heq & Hk); [lia|].
      exists (j + 1). split; [lia|]. split; [exact Hpos|]. split; [|lia].
      rewrite Z.pow_add_r, Z.pow_1_r by lia. lia.
    + exists 0. cbn [fst snd]. rewrite Z.pow_0_r. lia.
Qed.

(** The decimal of a finite value reads back as that value. *)
Theorem of_decimal_to_decimal negative m e :
  0 < m -> canonical m e = true ->
  of_decimal negative (fst (to_decimal m e)) (snd (to_decimal m e))
  = Finite (if negative then - m else m) e.
Proof.
  intros Hm Hc.
  assert (Hb : -1074 <= e <= 971).
  { unfold canonical in Hc.
    apply andb_true_iff in Hc as [Hc _]. apply andb_true_iff in Hc as [Hc Hemax].
    apply andb_true_iff in Hc as [_ Hemin].
    apply Z.leb_le in Hemin, Hemax. lia. }
  assert (Hfin : forall a b, 0 < a -> 0 < b ->
            (forall s, 1076 <= s -> a * 2 ^ s = m * 2 ^ (e + s) * b) ->
            (let '(m', e') := round_ratio a b in
             if m' =? 0 then Zero negative
             else if 971 <? e' then Infinite negative
                  else Finite (if negative then - m' else m') e')
            = Finite (if negative then - m else m) e).
  { intros a b Ha Hb' Hq. rewrite (round_ratio_exact a b m e Ha Hb' Hm Hc Hq).
    replace (m =? 0) with false by (symmetry; apply Z.eqb_neq; lia).
    replace (971 <? e) with false by (symmetry; apply Z.ltb_ge; lia).
    reflexivity. }
  unfold to_decimal, of_decimal.
  set (dk := if 0 <=? e then (m * 2 ^ e, 0) else (m * 5 ^ (- e), e)).
  assert (Hd0 : 0 < fst dk).
  { unfold dk. destruct (0 <=? e) eqn:He; cbn [fst].
    - apply Z.leb_le in He. assert (0 < 2 ^ e) by now apply pow2_pos. nia.
    - apply Z.leb_gt in He.
      assert (0 < 5 ^ (- e)) by (apply Z.pow_pos_nonneg; lia). nia. }
  destruct dk as [d0 k0] eqn:Hdk. cbn [fst] in Hd0.
  destruct (strip_zeros_spec (Z.to_nat (Z.log2 d0)) d0 k0 Hd0)
    as (j & Hj & Hpos & Heq & Hk).
  destruct (strip_zeros _ d0 k0) as [d k]. cbn [fst snd] in *.
  replace (d <=? 0) with false by (symmetry; apply Z.leb_gt; lia).
  assert (H10j : 0 < 10 ^ j) by (apply Z.pow_pos_nonneg; lia).
  unfold dk in Hdk.
  destruct (Z.leb_spec 0 e) as [He|He]; injection Hdk as <- <-.
  - (* m * 2^e = d * 10^j, k = j *)
    subst k. replace (0 <=? 0 + j) with true by (symmetry; apply Z.leb_le; lia).
    apply Hfin; [nia | lia |].
    intros s Hs. rewrite Z.add_0_l, <- Heq, Z.pow_add_r by lia. ring.
  - (* m * 5^(-e) = d * 10^j, k = e + j *)
    assert (Hp5 : 0 < 5 ^ (- e)) by (apply Z.pow_pos_nonneg; lia).
    assert (Hp2 : 0 < 2 ^ (- e)) by (apply Z.pow_pos_nonneg; lia).
    subst k. destruct (Z.leb_spec 0 (e + j)) as [Hk|Hk].
    + assert (H10k : 0 < 10 ^ (e + j)) by (apply Z.pow_pos_nonneg; lia).
      apply Hfin; [nia | lia |].
      intros s Hs.
      assert (H10 : 10 ^ j = 10 ^ (e + j) * (2 ^ (- e) * 5 ^ (- e))).
      { rewrite <- Z.pow_mul_l, <- Z.pow_add_r by lia. f_equal. lia. }
      assert (Hm' : d * 10 ^ (e + j) * 2 ^ (- e) = m).
      { apply (Z.mul_reg_r _ _ (5 ^ (- e))); [lia|]. rewrite Heq, H10. ring. }
      assert (H2s : 2 ^ s = 2 ^ (- e) * 2 ^ (e + s)).
      { rewrite <- Z.pow_add_r by lia. f_equal. lia. }
      rewrite <- Hm', H2s. ring.
    + assert (H10k : 0 < 10 ^ (- (e + j))) by (apply Z.pow_pos_nonneg; lia).
      apply Hfin; [lia | lia |].
      intros s Hs.
      assert (H10 : 10 ^ (- (e + j)) * 10 ^ j = 2 ^ (- e) * 5 ^ (- e)).
      { rewrite <- Z.pow_mul_l, <- Z.pow_add_r by lia. f_equal. lia. }
      assert (H2s : 2 ^ s = 2 ^ (- e) * 2 ^ (e + s)).
      { rewrite <- Z.pow_add_r by lia. f_equal. lia. }
      apply (Z.mul_reg_r _ _ (10 ^ j)); [lia|].
      replace (d * 2 ^ s * 10 ^ j) with (d * 10 ^ j * 2 ^ s) by ring.
      rewrite <- Heq.
      replace (m * 2 ^ (e + s) * 10 ^ (- (e + j)) * 10 ^ j)
        with (m * 2 ^ (e + s) * (10 ^ (- (e + j)) * 10 ^ j)) by ring.
      rewrite H10, H2s. ring.
Qed.

Lemma to_decimal_sign m e :
  0 <= m -> 0 <= fst (to_decimal m e) /\ (0 < m -> 0 < fst (to_decimal m e)).
Proof.
  intros Hm. unfold to_decimal.
  set (dk := if 0 <=? e then (m * 2 ^ e, 0) else (m * 5 ^ (- e), e)).
  assert (Hd : 0 <= fst dk /\ (0 < m -> 0 < fst dk)).
  { unfold dk. destruct (Z.leb_spec 0 e) as [He|He]; cbn [fst].
    - assert (0 < 2 ^ e) by now apply pow2_pos. nia.
    - assert (0 < 5 ^ (- e)) by (apply Z.pow_pos_nonneg; lia). nia. }
  destruct dk as [d0 k0]. cbn [fst] in Hd.
  destruct (Z.eq_dec d0 0) as [->|Hne].
  - change (Z.to_nat (Z.log2 0)) with O. cbn [strip_zeros fst]. lia.
  - destruct (strip_zeros_spec (Z.to_nat (Z.log2 d0)) d0 k0) as (j & _ & Hpos & _);
      [lia|]. lia.
Qed.

(** A value that [JSON.stringify] writes as itself is read back. *)
Theorem reread_exact x : exact x = true -> reread x = Some x.
Proof.
  destruct x as [m e|[]|negative|]; simpl; try discriminate; [|reflexivity].
  intros Hc.
  assert (Hc' : canonical (Z.abs m) e = true).
  { unfold canonical in *. now replace (Z.abs (Z.abs m)) with (Z.abs m) by lia. }
  assert (Hm : 0 < Z.abs m).
  { unfold canonical in Hc. apply andb_true_iff in Hc as [Hc _].
    apply andb_true_iff in Hc as [Hc _]. apply andb_true_iff in Hc as [Hc _].
    apply andb_true_iff in Hc as [Hc _]. now apply Z.ltb_lt in Hc. }
  pose proof (of_decimal_to_decimal (m <? 0) (Z.abs m) e Hm Hc') as Hr.
  destruct (to_decimal (Z.abs m) e) as [d k]. cbn [fst snd] in Hr.
  rewrite Hr. f_equal. f_equal.
  destruct (Z.ltb_spec m 0); lia.
Qed.


(** *** What the rounding returns *)

Lemma quotient_bits a b s :
  0 < a -> 0 < b -> 66 + Z.log2 b - Z.log2 a <= s -> 0 <= s ->
  2 ^ 65 <= a * 2 ^ s / b.
Proof.
  intros Ha Hb Hs Hs0.
  destruct (Z.log2_spec a Ha) as [Hla _].
  destruct (Z.log2_spec b Hb) as [_ Hlb].
  pose proof (Z.log2_nonneg a) as Hna. pose proof (Z.log2_nonneg b) as Hnb.
  apply Z.div_le_lower_bound; [exact Hb|].
  assert (Hp : 2 ^ (66 + Z.log2 b) <= 2 ^ (Z.log2 a + s))
    by (apply Z.pow_le_mono_r; lia).
  rewrite !Z.pow_add_r in Hp by lia.
  change (2 ^ 66) with (2 ^ 65 * 2) in Hp.
  replace (Z.succ (Z.log2 b)) with (Z.log2 b + 1) in Hlb by lia.
  rewrite Z.pow_add_r in Hlb by lia. change (2 ^ 1) with 2 in Hlb.
  assert (0 < 2 ^ s) by now apply pow2_pos.
  assert (0 < 2 ^ Z.log2 b) by now apply pow2_pos.
  nia.
Qed.

Lemma round_ratio_double a b :
  0 < a -> 0 < b ->
  -1074 <= snd (round_ratio a b) /\
  0 <= fst (round_ratio a b) < 2 ^ 53 /\
  (2 ^ 52 <= fst (round_ratio a b) \/ snd (round_ratio a b) = -1074).
Proof.
  intros Ha Hb. unfold round_ratio.
  set (s := Z.max 1076 (66 + Z.log2 b - Z.log2 a)).
  assert (Hs : 1076 <= s) by (unfold s; lia).
  set (q := a * 2 ^ s / b).
  assert (Hq : 2 ^ 65 <= q) by (apply quotient_bits; unfold s; lia).
  assert (Hq0 : 0 < q) by (assert (0 < 2 ^ 65) by reflexivity; lia).
  set (l := Z.log2 q).
  destruct (Z.log2_spec q Hq0) as [Hl1 Hl2]. fold l in Hl1, Hl2.
  assert (Hl : 65 <= l).
  { unfold l. rewrite <- (Z.log2_pow2 65) by lia. now apply Z.log2_le_mono. }
  set (e := Z.max (l - s - 52) (-1074)).
  set (sh := e + s).
  assert (Hsh : 2 <= sh) by (unfold sh, e; lia).
  assert (Hpsh : 0 < 2 ^ sh) by (apply pow2_pos; lia).
  set (m0 := q / 2 ^ sh).
  set (up := _ || _).
  assert (Hm0 : 0 <= m0 < 2 ^ 53 /\ (2 ^ 52 <= m0 \/ (e = -1074 /\ m0 < 2 ^ 52))).
  { destruct (Z.le_gt_cases (-1074) (l - s - 52)) as [Hn|Hsub].
    - assert (Hsh' : sh = l - 52) by (unfold sh, e; lia).
      assert (H52 : 2 ^ 52 <= m0).
      { apply Z.div_le_lower_bound; [exact Hpsh|].
        rewrite <- Z.pow_add_r by lia. now replace (sh + 52) with l by lia. }
      assert (H53 : m0 < 2 ^ 53).
      { apply Z.div_lt_upper_bound; [exact Hpsh|].
        rewrite <- Z.pow_add_r by lia.
        now replace (sh + 53) with (Z.succ l) by lia. }
      assert (0 < 2 ^ 52) by reflexivity. lia.
    - assert (He : e = -1074) by (unfold e; lia).
      assert (H52 : m0 < 2 ^ 52).
      { apply Z.div_lt_upper_bound; [exact Hpsh|].
        rewrite <- Z.pow_add_r by lia.
        eapply Z.lt_le_trans; [exact Hl2|].
        apply Z.pow_le_mono_r; unfold sh; lia. }
      assert (0 <= m0) by (apply Z.div_pos; lia).
      assert (2 ^ 52 < 2 ^ 53) by reflexivity. lia. }
  assert (He : -1074 <= e) by (unfold e; lia).
  assert (H5253 : 2 ^ 52 < 2 ^ 53) by reflexivity.
  assert (H052 : 0 < 2 ^ 52) by reflexivity.
  destruct Hm0 as [Hr Hfull].
  destruct up; cbv zeta.
  - destruct (Z.eqb_spec (m0 + 1) (2 ^ 53)) as [Heq|Hne]; cbn [fst snd]; lia.
  - destruct (Z.eqb_spec m0 (2 ^ 53)) as [Heq|Hne]; cbn [fst snd]; lia.
Qed.

(** What [StringToNumber] returns is a Number. *)
Theorem of_decimal_double negative d k : is_double (of_decimal negative d k) = true.
Proof.
  unfold of_decimal. destruct (Z.leb_spec d 0) as [Hd|Hd]; [reflexivity|].
  assert (Hr : exists a b, 0 < a /\ 0 < b /\
             (if 0 <=? k then round_ratio (d * 10 ^ k) 1
              else round_ratio d (10 ^ (- k))) = round_ratio a b).
  { destruct (Z.leb_spec 0 k) as [Hk|Hk].
    - exists (d * 10 ^ k), 1. split; [|split; [lia | reflexivity]].
      assert (0 < 10 ^ k) by (apply Z.pow_pos_nonneg; lia). nia.
    - exists d, (10 ^ (- k)). split; [lia|]. split; [|reflexivity].
      apply Z.pow_pos_nonneg; lia. }
  destruct Hr as (a & b & Ha & Hb & ->).
  destruct (round_ratio_double a b Ha Hb) as (He & Hm & Hfull).
  destruct (round_ratio a b) as [m e]. cbn [fst snd] in *.
  destruct (Z.eqb_spec m 0) as [Hz|Hnz]; [reflexivity|].
  destruct (Z.ltb_spec 971 e) as [Hbig|Hfit]; [reflexivity|].
  cbn [is_double]. unfold canonical.
  assert (Habs : Z.abs (if negative then - m else m) = m)
    by (destruct negative; lia).
  rewrite Habs.
  replace (0 <? m) with true by (symmetry; apply Z.ltb_lt; lia).
  replace (m <? 2 ^ 53) with true by (symmetry; apply Z.ltb_lt; lia).
  replace (-1074 <=? e) with true by (symmetry; apply Z.leb_le; lia).
  replace (e <=? 971) with true by (symmetry; apply Z.leb_le; lia).
  cbn [andb]. apply orb_true_iff.
  destruct Hfull as [Hf|Hs]; [left; now apply Z.leb_le | right; now apply Z.eqb_eq].
Qed.

Lemma exact_is_double x : exact x = true -> is_double x = true.
Proof. destruct x; simpl; auto. Qed.

(** What is read back is written as itself from then on. *)
Theorem reread_is_exact x y :
  is_double x = true -> reread x = Some y -> exact y = true.
Proof.
  destruct x as [m e|negative|negative|]; intros Hc Hr; try discriminate.
  - rewrite (reread_exact (Finite m e) Hc) in Hr. injection Hr as <-. exact Hc.
  - injection Hr as <-. reflexivity.
Qed.

End DoubleFacts.
(** ** Properties of the codec *)

Module JSONFacts.
Import Double DoubleFacts JSON.

Lemma delimited_digit_free r : delimited r = true -> digit_free r.
Proof. destruct r as [|c r]; simpl; [easy|]. now destruct (digit_of c). Qed.

Lemma read_uint_chars u r :
  digit_free r -> read_uint (uint_chars u ++ r) = (u, r).
Proof.
  intros Hr. induction u; simpl; try (rewrite IHu; reflexivity).
  destruct r as [|c r]; simpl in *; [reflexivity | now rewrite Hr].
Qed.

Lemma to_uint_normal n : N.to_uint n = unorm (N.to_uint n).
Proof.
  rewrite <- (DecimalN.Unsigned.to_of (N.to_uint n)).
  now rewrite DecimalN.Unsigned.of_to.
Qed.

Lemma int_part_ok_to_uint n : int_part_ok (N.to_uint n) = true.
Proof.
  rewrite to_uint_normal. unfold unorm.
  pose proof (nzhead_nonzero (N.to_uint n)) as Hnz.
  destruct (nzhead (N.to_uint n)) as [|d| | | | | | | | | ]; try reflexivity.
  now destruct (Hnz d).
Qed.

Lemma nonempty_to_uint n : nonempty_uint (N.to_uint n) = true.
Proof.
  pose proof (int_part_ok_to_uint n). now destruct (N.to_uint n).
Qed.

(** The first character of a printed natural number is a digit. *)
Lemma print_N_head n r :
  exists c r', print_N n ++ r = c :: r' /\ is_Some (digit_of c).
Proof.
  unfold print_N. pose proof (nonempty_to_uint n) as H.
  destruct (N.to_uint n); try discriminate; simpl; eauto.
Qed.

Lemma digit_not_sign c :
  is_Some (digit_of c) -> (c =? "-")%char = false /\ (c =? "+")%char = false.
Proof.
  intros [d Hd]. unfold digit_of in Hd.
  repeat match type of Hd with
         | (if (c =? ?k)%char then _ else _) = _ =>
             destruct (Ascii.eqb_spec c k); [subst; split; reflexivity|]
         end.
  discriminate.
Qed.

(** Reading back a printed natural number. *)
Lemma read_print_N n r :
  digit_free r -> read_uint (print_N n ++ r) = (N.to_uint n, r).
Proof. apply read_uint_chars. Qed.

Lemma read_frac_delimited r : delimited r = true -> read_frac r = Some (Nil, r).
Proof.
  destruct r as [|c r]; simpl; [reflexivity|].
  destruct (digit_of c); [discriminate|].
  destruct (c =? ".")%char; [discriminate | reflexivity].
Qed.

Lemma read_exp_delimited r : delimited r = true -> read_exp r = Some (0%Z, r).
Proof.
  destruct r as [|c r]; simpl; [reflexivity|].
  destruct (digit_of c); [discriminate|].
  destruct (c =? ".")%char; [discriminate|].
  destruct (c =? "e")%char; [discriminate|].
  destruct (c =? "E")%char; [discriminate | reflexivity].
Qed.

Lemma read_exp_print e r :
  e <> 0%Z -> delimited r = true ->
  read_exp ("e" :: print_Z e ++ r) = Some (e, r).
Proof.
  intros He Hr. apply delimited_digit_free in Hr.
  destruct e as [|p|p]; [congruence| |]; cbn [read_exp print_Z app].
  - destruct (print_N_head (N.pos p) r) as (c & r' & Heq & Hc).
    change (("e" =? "e")%char || ("e" =? "E")%char) with true. cbv iota.
    rewrite Heq. destruct (digit_not_sign c Hc) as [-> ->].
    rewrite <- Heq, read_print_N, nonempty_to_uint by assumption.
    now rewrite DecimalN.Unsigned.of_to.
  - change (("e" =? "e")%char || ("e" =? "E")%char) with true. cbv iota.
    change (("-" =? "-")%char) with true. cbv iota.
    rewrite read_print_N, nonempty_to_uint by assumption.
    now rewrite DecimalN.Unsigned.of_to.
Qed.

Lemma parse_print_decimal m e r :
  delimited r = true ->
  parse_number (print_decimal m e ++ r) = Some (JNum m e, r).
Proof.
  intros Hr. unfold print_decimal. rewrite <- app_assoc.
  set (tail := (if (e =? 0)%Z then [] else "e" :: print_Z e) ++ r).
  assert (Htail : digit_free tail /\ read_frac tail = Some (Nil, tail)
                  /\ read_exp tail = Some (e, r)).
  { unfold tail. destruct (Z.eqb_spec e 0) as [->|He]; simpl.
    - auto using delimited_digit_free, read_frac_delimited, read_exp_delimited.
    - split; [reflexivity|]. split; [reflexivity|].
      now apply read_exp_print. }
  destruct Htail as (Hdf & Hfrac & Hexp).
  assert (Hpos : forall n, parse_number (print_N n ++ tail)
                           = Some (JNumber (of_decimal false (Z.of_N n) e), r)).
  { intros n. unfold parse_number.
    destruct (print_N_head n tail) as (c & r' & Heq & Hc).
    rewrite Heq. destruct (digit_not_sign c Hc) as [-> _]. rewrite <- Heq.
    rewrite read_print_N, int_part_ok_to_uint, Hfrac, Hexp by assumption.
    rewrite DecimalN.Unsigned.of_to. cbn [Decimal.nb_digits Z.of_nat].
    now rewrite Z.sub_0_r. }
  destruct m as [|p|p]; cbn [print_Z].
  - apply (Hpos 0%N).
  - apply (Hpos (N.pos p)).
  - unfold parse_number. cbn [app]. change (("-" =? "-")%char) with true. cbv iota.
    rewrite read_print_N, int_part_ok_to_uint, Hfrac, Hexp by assumption.
    rewrite DecimalN.Unsigned.of_to. cbn [Decimal.nb_digits Z.of_nat].
    now rewrite Z.sub_0_r.
Qed.

(** A Number that is written as a number is read back as [stored_as] says. *)
Lemma parse_print_num x r :
  delimited r = true ->
  match x with Finite _ _ | Zero _ => True | _ => False end ->
  parse_number (print_num x ++ r) = Some (stored_as (JNumber x), r).
Proof.
  intros Hr Hx. destruct x as [m e|negative|negative|]; try contradiction.
  - cbn [print_num stored_as reread].
    destruct (to_decimal_sign (Z.abs m) e) as [Hd0 Hd1]; [lia|].
    destruct (to_decimal (Z.abs m) e) as [d k]. cbn [fst] in Hd0, Hd1.
    rewrite parse_print_decimal by exact Hr.
    unfold JNum, number. destruct (Z.ltb_spec m 0) as [Hm|Hm].
    + assert (Hd : (0 < d)%Z) by (apply Hd1; lia).
      replace (- d <? 0)%Z with true by (symmetry; apply Z.ltb_lt; lia).
      now replace (Z.abs (- d)) with d by lia.
    + replace (d <? 0)%Z with false by (symmetry; apply Z.ltb_ge; lia).
      now replace (Z.abs d) with d by lia.
  - exact (parse_print_decimal 0 0 r Hr).
Qed.

Lemma parse_escape_char c r :
  parse_chars (escape_char c ++ r) = cons_char c (parse_chars r).
Proof.
  destruct c as [[] [] [] [] [] [] [] []]; reflexivity.
Qed.

Lemma parse_print_chars cs r :
  parse_chars (flat_map escape_char cs ++ "034" :: r) = Some (cs, r).
Proof.
  induction cs as [|c cs IH]; simpl; [reflexivity|].
  now rewrite <- app_assoc, parse_escape_char, IH.
Qed.

Lemma num_start_cases c :
  num_start c ->
  In c ["-"; "0"; "1"; "2"; "3"; "4"; "5"; "6"; "7"; "8"; "9"].
Proof.
  intros [->|[d Hd]]; [now left|]. right. unfold digit_of in Hd.
  repeat match type of Hd with
         | (if (c =? ?k)%char then _ else _) = _ =>
             destruct (Ascii.eqb_spec c k); [subst; simpl; tauto|]
         end.
  discriminate.
Qed.

Lemma parse_value_number f c r :
  num_start c -> parse_value (S f) (c :: r) = parse_number (c :: r).
Proof.
  intros H. apply num_start_cases in H. simpl in H.
  repeat (destruct H as [<-|H]; [reflexivity|]). contradiction.
Qed.

Lemma print_decimal_head m e r :
  exists c r', print_decimal m e ++ r = c :: r' /\ num_start c.
Proof.
  unfold print_decimal. rewrite <- app_assoc.
  set (tail := _ ++ r). destruct m as [|p|p]; cbn [print_Z].
  - destruct (print_N_head 0 tail) as (c & r' & -> & Hc).
    exists c, r'. split; [reflexivity | now right].
  - destruct (print_N_head (N.pos p) tail) as (c & r' & -> & Hc).
    exists c, r'. split; [reflexivity | now right].
  - eexists _, _. split; [reflexivity | now left].
Qed.

Lemma num_start_opens c : num_start c -> opens c.
Proof.
  intros H. apply num_start_cases in H. simpl in H.
  repeat (destruct H as [<-|H]; [repeat split|]). contradiction.
Qed.

Lemma print_num_head x r :
  match x with Finite _ _ | Zero _ => True | _ => False end ->
  exists c r', print_num x ++ r = c :: r' /\ num_start c.
Proof.
  destruct x as [m e|negative|negative|]; try contradiction; intros _.
  - cbn [print_num]. destruct (to_decimal (Z.abs m) e) as [d k].
    apply print_decimal_head.
  - eexists _, _. split; [reflexivity|]. right. now eexists.
Qed.

Lemma print_head j r : exists c r', print j ++ r = c :: r' /\ opens c.
Proof.
  destruct j as [|[]|x|s|xs|fs]; cbn [print];
    try (eexists _, _; split; [reflexivity | repeat split]).
  destruct x as [m e|negative|negative|];
    try (eexists _, _; split; [reflexivity | repeat split]).
  destruct (print_num_head (Finite m e) r I) as (c & r' & -> & Hc).
  exists c, r'. split; [reflexivity | now apply num_start_opens].
Qed.

Lemma build_object_acc ms : forall acc,
  NoDup (map fst (acc ++ ms)) ->
  fold_left (fun a kv => obj_set a (fst kv) (snd kv)) ms acc = acc ++ ms.
Proof.
  induction ms as [|[k v] ms IH]; intros acc Hnd; simpl.
  - now rewrite app_nil_r.
  - assert (Hset : obj_set acc k v = acc ++ [(k, v)]).
    { clear IH. induction acc as [|[k' v'] acc IHacc]; simpl; [reflexivity|].
      simpl in Hnd. apply NoDup_cons in Hnd as [Hk' Hnd].
      destruct (String.eqb_spec k' k) as [->|Hne].
      - exfalso. apply Hk'. rewrite map_app. simpl.
        apply elem_of_app. right. now left.
      - now rewrite IHacc. }
    rewrite Hset, IH; rewrite <- app_assoc; [reflexivity | exact Hnd].
Qed.

Lemma build_object_nodup ms : NoDup (map fst ms) -> build_object ms = ms.
Proof. intros H. apply (build_object_acc ms []). exact H. Qed.

Lemma skip_ws_opens c r : is_ws c = false -> skip_ws (c :: r) = c :: r.
Proof. intros H. simpl. now rewrite H. Qed.

Lemma parse_value_S f s :
  parse_value (S f) s =
  match skip_ws s with
  | [] => None
  | c :: r =>
      if (c =? "n")%char then
        match strip ["u"; "l"; "l"] r with
        | Some r' => Some (JNull, r') | None => None end
      else if (c =? "t")%char then
        match strip ["r"; "u"; "e"] r with
        | Some r' => Some (JBool true, r') | None => None end
      else if (c =? "f")%char then
        match strip ["a"; "l"; "s"; "e"] r with
        | Some r' => Some (JBool false, r') | None => None end
      else if (c =? "034")%char then
        match parse_chars r with
        | Some (cs, r') => Some (JStr (string_of_list_ascii cs), r')
        | None => None
        end
      else if (c =? "[")%char then
        match skip_ws r with
        | [] => None
        | c' :: r' =>
            if (c' =? "]")%char then Some (JArr [], r')
            else match parse_elements f r with
                 | Some (xs, r'') => Some (JArr xs, r'')
                 | None => None
                 end
        end
      else if (c =? "{")%char then
        match skip_ws r with
        | [] => None
        | c' :: r' =>
            if (c' =? "}")%char then Some (JObj [], r')
            else match parse_members f r with
                 | Some (ms, r'') => Some (JObj (build_object ms), r'')
                 | None => None
                 end
        end
      else parse_number (c :: r)
  end.
Proof. reflexivity. Qed.

Lemma parse_elements_S f s :
  parse_elements (S f) s =
  match parse_value f s with
  | None => None
  | Some (x, r) =>
      match skip_ws r with
      | [] => None
      | c :: r' =>
          if (c =? ",")%char then
            match parse_elements f r' with
            | Some (xs, r'') => Some (x :: xs, r'')
            | None => None
            end
          else if (c =? "]")%char then Some ([x], r')
          else None
      end
  end.
Proof. reflexivity. Qed.

Lemma parse_members_S f s :
  parse_members (S f) s =
  match skip_ws s with
  | [] => None
  | q :: r =>
      if (q =? "034")%char then
        match parse_chars r with
        | None => None
        | Some (k, r1) =>
            match skip_ws r1 with
            | [] => None
            | c :: r2 =>
                if (c =? ":")%char then
                  match parse_value f r2 with
                  | None => None
                  | Some (v, r3) =>
                      match skip_ws r3 with
                      | [] => None
                      | c' :: r4 =>
                          if (c' =? ",")%char then
                            match parse_members f r4 with
                            | Some (ms, r5) =>
                                Some ((string_of_list_ascii k, v) :: ms, r5)
                            | None => None
                            end
                          else if (c' =? "}")%char
                               then Some ([(string_of_list_ascii k, v)], r4)
                          else None
                      end
                  end
                else None
            end
        end
      else None
  end.
Proof. reflexivity. Qed.

Lemma parse_print_elements xs :
  Forall roundtrips xs -> forallb unique_keys xs = true -> xs <> [] ->
  forall fuel r,
    list_sum (map (fun x => S (jsize x)) xs) <= fuel ->
    parse_elements fuel (join_comma (map print xs) ++ "]" :: r)
    = Some (map stored_as xs, r).
Proof.
  induction 1 as [|x xs Hx Hxs IH]; intros Hwf Hne fuel r Hfuel; [congruence|].
  simpl in Hwf. apply andb_true_iff in Hwf as [Hwx Hwxs].
  simpl in Hfuel. destruct fuel as [|f]; [lia|].
  rewrite parse_elements_S.
  destruct xs as [|y ys]; cbn [map join_comma].
  - rewrite (Hx Hwx f ("]" :: r)) by (simpl in *; (lia || reflexivity)).
    reflexivity.
  - rewrite <- app_assoc. cbn [app].
    rewrite (Hx Hwx f) by (simpl in *; (lia || reflexivity)).
    rewrite skip_ws_opens by reflexivity.
    change (("," =? ",")%char) with true. cbv iota.
    change (map print (y :: ys)) with (map print (y :: ys)).
    rewrite (IH Hwxs) by (simpl in *; (lia || congruence)).
    reflexivity.
Qed.

Lemma parse_print_members fs :
  Forall (fun kv => roundtrips (snd kv)) fs ->
  forallb (fun kv => unique_keys (snd kv)) fs = true -> fs <> [] ->
  forall fuel r,
    list_sum (map (fun kv => S (jsize (snd kv))) fs) <= fuel ->
    parse_members fuel (join_comma (map print_member fs) ++ "}" :: r)
    = Some (map (fun kv => (fst kv, stored_as (snd kv))) fs, r).
Proof.
  induction 1 as [|[k v] fs Hx Hxs IH]; intros Hwf Hne fuel r Hfuel; [congruence|].
  simpl in Hwf. apply andb_true_iff in Hwf as [Hwx Hwxs].
  simpl in Hfuel, Hx. destruct fuel as [|f]; [lia|].
  rewrite parse_members_S.
  assert (Hmem : forall rest, delimited rest = true ->
            print_member (k, v) ++ rest
            = "034" :: (flat_map escape_char (list_ascii_of_string k)
                       ++ "034" :: ":" :: print v ++ rest)).
  { intros rest _. unfold print_member, print_string, print_chars. simpl.
    now rewrite <- !app_assoc. }
  destruct fs as [|y ys]; cbn [map join_comma].
  - rewrite Hmem by reflexivity.
    rewrite skip_ws_opens by reflexivity.
    change (("034"  =? "034")%char) with true. cbv iota.
    rewrite parse_print_chars, skip_ws_opens by reflexivity.
    change ((":" =? ":")%char) with true. cbv iota.
    rewrite (Hx Hwx f ("}" :: r)) by (simpl in *; (lia || reflexivity)).
    rewrite string_of_list_ascii_of_string. reflexivity.
  - rewrite <- app_assoc. cbn [app]. rewrite Hmem by reflexivity.
    rewrite skip_ws_opens by reflexivity.
    change (("034"  =? "034")%char) with true. cbv iota.
    rewrite parse_print_chars, skip_ws_opens by reflexivity.
    change ((":" =? ":")%char) with true. cbv iota.
    rewrite (Hx Hwx f) by (simpl in *; (lia || reflexivity)).
    rewrite skip_ws_opens by reflexivity.
    change (("," =? ",")%char) with true. cbv iota.
    rewrite (IH Hwxs) by (simpl in *; (lia || congruence)).
    rewrite string_of_list_ascii_of_string. reflexivity.
Qed.

Lemma print_obj_members fs :
  print (JObj fs) = "{" :: join_comma (map print_member fs) ++ ["}"].
Proof. reflexivity. Qed.

Theorem parse_print_value j : roundtrips j.
Proof.
  induction j as [|b|x|s|xs IH|fs IH] using json_rect';
    intros Hwf fuel r Hfuel Hr; (destruct fuel as [|f]; [simpl in Hfuel; lia|]).
  - reflexivity.
  - destruct b; reflexivity.
  - assert (Hnum : match x with Finite _ _ | Zero _ => True | _ => False end ->
                   parse_value (S f) (print (JNumber x) ++ r)
                   = Some (stored_as (JNumber x), r)).
    { intros Hx. cbn [print].
      destruct (print_num_head x r Hx) as (c & r' & Heq & Hc).
      rewrite Heq, parse_value_number, <- Heq by assumption.
      now apply parse_print_num. }
    destruct x as [m e|negative|negative|];
      [now apply Hnum | now apply Hnum | reflexivity | reflexivity].
  - cbn [print]. unfold print_string, print_chars. rewrite parse_value_S.
    cbn [app]. rewrite skip_ws_opens by reflexivity.
    change (("034"  =? "034")%char) with true. cbv iota.
    rewrite <- app_assoc. cbn [app].
    now rewrite parse_print_chars, string_of_list_ascii_of_string.
  - cbn [print]. rewrite parse_value_S. cbn [app].
    rewrite skip_ws_opens by reflexivity.
    change (("[" =? "n")%char) with false. cbv iota.
    change (("[" =? "t")%char) with false.
    change (("[" =? "f")%char) with false.
    change (("[" =? "034")%char) with false.
    change (("[" =? "[")%char) with true. cbv iota.
    rewrite <- app_assoc. cbn [app].
    destruct xs as [|x xs]; [reflexivity|].
    assert (Hhd : exists c r', join_comma (map print (x :: xs)) ++ "]" :: r
                               = c :: r' /\ opens c).
    { cbn [map join_comma]. destruct (map print xs).
      - apply print_head.
      - rewrite <- app_assoc. apply print_head. }
    destruct Hhd as (c & r' & Heq & Hws & Hc & _).
    rewrite Heq at 1. rewrite skip_ws_opens, Hc by assumption.
    rewrite (parse_print_elements (x :: xs)); try assumption; try congruence.
    + reflexivity.
    + simpl in Hfuel. simpl. lia.
  - rewrite print_obj_members. rewrite parse_value_S. cbn [app].
    rewrite skip_ws_opens by reflexivity.
    change (("{" =? "n")%char) with false. cbv iota.
    change (("{" =? "t")%char) with false.
    change (("{" =? "f")%char) with false.
    change (("{" =? "034")%char) with false.
    change (("{" =? "[")%char) with false.
    change (("{" =? "{")%char) with true. cbv iota.
    rewrite <- app_assoc. cbn [app].
    simpl in Hwf. apply andb_true_iff in Hwf as [Hnd Hwf].
    apply bool_decide_eq_true in Hnd.
    destruct fs as [|kv fs]; [reflexivity|].
    assert (Hhd : exists r', join_comma (map print_member (kv :: fs)) ++ "}" :: r
                             = "034" :: r').
    { cbn [map join_comma].
      destruct (map print_member fs); unfold print_member, print_string, print_chars;
        cbn [app]; eauto. }
    destruct Hhd as (r' & Heq).
    rewrite Heq at 1. rewrite skip_ws_opens by reflexivity.
    change (("034"  =? "}")%char) with false. cbv iota.
    rewrite (parse_print_members (kv :: fs)); try assumption; try congruence.
    + rewrite build_object_nodup; [reflexivity|].
      now rewrite map_map, (map_ext _ fst) by reflexivity.
    + simpl in Hfuel. simpl. lia.
Qed.

Lemma join_comma_size xs :
  Forall (fun x => jsize x <= length (print x)) xs ->
  list_sum (map (fun x => S (jsize x)) xs)
  <= S (length (join_comma (map print xs))).
Proof.
  induction 1 as [|x xs Hx _ IH]; [simpl; lia|].
  destruct xs as [|y ys]; cbn [map join_comma list_sum fold_right] in *.
  - lia.
  - rewrite length_app. cbn [length]. lia.
Qed.

Lemma join_comma_members_size fs :
  Forall (fun kv => jsize (snd kv) <= length (print (snd kv))) fs ->
  list_sum (map (fun kv => S (jsize (snd kv))) fs)
  <= S (length (join_comma (map print_member fs))).
Proof.
  assert (Hm : forall kv, length (print (snd kv)) <= length (print_member kv)).
  { intros kv. unfold print_member. rewrite length_app. cbn [length]. lia. }
  induction 1 as [|x xs Hx _ IH]; [simpl; lia|].
  specialize (Hm x).
  destruct xs as [|y ys]; cbn [map join_comma list_sum fold_right] in *.
  - lia.
  - rewrite length_app. cbn [length]. lia.
Qed.

Lemma jsize_print j : jsize j <= length (print j).
Proof.
  induction j as [|b|x|s|xs IH|fs IH] using json_rect'.
  - simpl. lia.
  - destruct b; simpl; lia.
  - cbn [jsize]. destruct (print_head (JNumber x) []) as (c & r & Heq & _).
    rewrite app_nil_r in Heq. rewrite Heq. simpl. lia.
  - simpl. lia.
  - cbn [print jsize length]. rewrite length_app. cbn [length].
    pose proof (join_comma_size xs IH). lia.
  - rewrite print_obj_members. cbn [jsize length]. rewrite length_app.
    cbn [length]. pose proof (join_comma_members_size fs IH). lia.
Qed.

(** *** Trees that are written as they are *)

Lemma wf_unique_keys j : wf j = true -> unique_keys j = true.
Proof.
  induction j as [|b|x|s|xs IH|fs IH] using json_rect'; cbn [wf unique_keys];
    try (intros; reflexivity).
  - intros Hall. rewrite forallb_forall in *. rewrite Forall_forall in IH.
    intros x Hx. apply IH; [now apply list_elem_of_In | now apply Hall].
  - intros Hwf. apply andb_true_iff in Hwf as [Hnd Hall]. rewrite Hnd.
    cbn [andb]. rewrite forallb_forall in *. rewrite Forall_forall in IH.
    intros kv Hkv. apply IH; [now apply list_elem_of_In | now apply Hall].
Qed.

Lemma stored_as_wf j : wf j = true -> stored_as j = j.
Proof.
  induction j as [|b|x|s|xs IH|fs IH] using json_rect'; cbn [wf stored_as];
    try (intros; reflexivity).
  - intros Hx. now rewrite (reread_exact x Hx).
  - intros Hall. f_equal. rewrite forallb_forall in Hall.
    rewrite Forall_forall in IH. rewrite <- (map_id xs) at 2.
    apply map_ext_in. intros x Hx.
    apply IH; [now apply list_elem_of_In | now apply Hall].
  - intros Hwf. apply andb_true_iff in Hwf as [_ Hall]. f_equal.
    rewrite forallb_forall in Hall. rewrite Forall_forall in IH.
    rewrite <- (map_id fs) at 2. apply map_ext_in. intros [k v] Hkv.
    cbn [fst snd]. f_equal.
    apply (IH (k, v)); [now apply list_elem_of_In | exact (Hall _ Hkv)].
Qed.

Lemma stored_as_keys fs :
  map fst (map (fun kv : string * json => (fst kv, stored_as (snd kv))) fs)
  = map fst fs.
Proof. now rewrite map_map, (map_ext _ fst) by reflexivity. Qed.

(** What is read back is JSON data. *)
Lemma stored_as_is_wf j :
  unique_keys j = true -> numbers_are_doubles j = true -> wf (stored_as j) = true.
Proof.
  induction j as [|b|x|s|xs IH|fs IH] using json_rect';
    cbn [unique_keys numbers_are_doubles stored_as wf];
    try (intros; reflexivity).
  - intros _ Hx. destruct (reread x) as [y|] eqn:Hy; [|reflexivity].
    exact (reread_is_exact x y Hx Hy).
  - intros Hu Hd. rewrite forallb_forall in *. rewrite Forall_forall in IH.
    intros y Hy. apply in_map_iff in Hy as (x & <- & Hx).
    apply IH; [now apply list_elem_of_In | now apply Hu | now apply Hd].
  - intros Hu Hd. apply andb_true_iff in Hu as [Hnd Hu].
    rewrite stored_as_keys, Hnd. cbn [andb].
    rewrite forallb_forall in *. rewrite Forall_forall in IH.
    intros y Hy. apply in_map_iff in Hy as (kv & <- & Hkv). cbn [snd].
    apply IH; [now apply list_elem_of_In | now apply Hu | now apply Hd].
Qed.

(** [JSON.parse (JSON.stringify j)] is [stored_as j]. *)
Theorem parse_stringify_stored j :
  unique_keys j = true -> parse (stringify j) = Some (stored_as j).
Proof.
  intros Hu. unfold parse, stringify.
  rewrite list_ascii_of_string_of_list_ascii.
  rewrite <- (app_nil_r (print j)) at 2.
  rewrite parse_print_value; [reflexivity | assumption | | reflexivity].
  pose proof (jsize_print j). lia.
Qed.

(** [JSON.parse (JSON.stringify j)] is [j], for JSON data. *)
Theorem parse_stringify j : wf j = true -> parse (stringify j) = Some j.
Proof.
  intros Hwf. rewrite parse_stringify_stored by now apply wf_unique_keys.
  now rewrite stored_as_wf.
Qed.

(** [JSON.stringify] never yields the empty string. *)
Lemma stringify_nonempty j : stringify j <> EmptyString.
Proof.
  unfold stringify. destruct (print_head j []) as (c & r & Heq & _).
  rewrite app_nil_r in Heq. now rewrite Heq.
Qed.

(** *** What the parser returns *)

Lemma obj_set_keys fs k v :
  map fst (obj_set fs k v)
  = if bool_decide (k ∈ map fst fs) then map fst fs else map fst fs ++ [k].
Proof.
  induction fs as [|[k' v'] fs IH]; simpl; [reflexivity|].
  destruct (String.eqb_spec k' k) as [->|Hne]; simpl.
  - rewrite bool_decide_eq_true_2 by (now left). reflexivity.
  - rewrite IH. destruct (bool_decide (k ∈ map fst fs)) eqn:Hin.
    + apply bool_decide_eq_true in Hin.
      rewrite bool_decide_eq_true_2 by (now right). reflexivity.
    + apply bool_decide_eq_false in Hin.
      rewrite bool_decide_eq_false_2; [reflexivity|].
      intros [Heq|Hin']%elem_of_cons; [congruence | contradiction].
Qed.

Lemma obj_set_all (P : json -> bool) fs k v :
  NoDup (map fst fs) -> forallb (fun kv => P (snd kv)) fs = true ->
  P v = true ->
  NoDup (map fst (obj_set fs k v))
  /\ forallb (fun kv => P (snd kv)) (obj_set fs k v) = true.
Proof.
  intros Hnd Hall Hv. split.
  - rewrite obj_set_keys. destruct (bool_decide (k ∈ map fst fs)) eqn:Hin;
      [exact Hnd|].
    apply bool_decide_eq_false in Hin.
    apply NoDup_app. split; [exact Hnd|]. split.
    + intros x Hx Hx'. apply list_elem_of_singleton in Hx'. now subst.
    + apply NoDup_singleton.
  - clear Hnd. induction fs as [|[k' v'] fs IH]; simpl in *.
    + now rewrite Hv.
    + apply andb_true_iff in Hall as [Hv' Hall].
      destruct (String.eqb k' k); simpl; rewrite ?Hv, ?Hv', ?Hall; auto.
Qed.

Lemma build_object_all (P : json -> bool) ms :
  forallb (fun kv => P (snd kv)) ms = true ->
  NoDup (map fst (build_object ms))
  /\ forallb (fun kv => P (snd kv)) (build_object ms) = true.
Proof.
  intros Hms. unfold build_object.
  assert (Hgen : forall acc,
             NoDup (map fst acc) ->
             forallb (fun kv => P (snd kv)) acc = true ->
             NoDup (map fst (fold_left (fun a kv => obj_set a (fst kv) (snd kv))
                                       ms acc))
             /\ forallb (fun kv => P (snd kv))
                        (fold_left (fun a kv => obj_set a (fst kv) (snd kv))
                                   ms acc) = true).
  { induction ms as [|[k v] ms IH]; intros acc Hnd Hacc; simpl.
    - now split.
    - simpl in Hms. apply andb_true_iff in Hms as [Hv Hms].
      destruct (obj_set_all P acc k v Hnd Hacc Hv) as [Hnd' Hacc'].
      now apply IH. }
  apply Hgen; [constructor | reflexivity].
Qed.

Lemma build_object_unique_keys ms :
  forallb (fun kv => unique_keys (snd kv)) ms = true ->
  unique_keys (JObj (build_object ms)) = true.
Proof.
  intros Hms. destruct (build_object_all unique_keys ms Hms) as [Hnd Hall].
  cbn [unique_keys]. rewrite Hall, andb_true_r. now apply bool_decide_eq_true.
Qed.

Lemma build_object_doubles ms :
  forallb (fun kv => numbers_are_doubles (snd kv)) ms = true ->
  numbers_are_doubles (JObj (build_object ms)) = true.
Proof.
  intros Hms. now destruct (build_object_all numbers_are_doubles ms Hms).
Qed.

Lemma parse_number_double s j r :
  parse_number s = Some (j, r) ->
  unique_keys j = true /\ numbers_are_doubles j = true.
Proof.
  unfold parse_number.
  destruct (match s with
            | [] => (false, s)
            | c :: r0 => if (c =? "-")%char then (true, r0) else (false, s)
            end) as [neg s1].
  destruct (read_uint s1) as [ui s2].
  destruct (int_part_ok ui); [|discriminate].
  destruct (read_frac s2) as [[uf s3]|]; [|discriminate].
  destruct (read_exp s3) as [[ex s4]|]; [|discriminate].
  intros Hj. injection Hj as <- _. split; [reflexivity|].
  apply of_decimal_double.
Qed.

Ltac break_parse H :=
  repeat match type of H with
         | (if ?b then _ else _) = Some _ => destruct b
         | match ?x with _ => _ end = Some _ => destruct x eqn:?
         | None = Some _ => discriminate H
         | (let '(_, _) := ?x in _) = Some _ => destruct x eqn:?
         end.

Lemma parse_unique_keys_fuel f :
  (forall s j r, parse_value f s = Some (j, r) -> unique_keys j = true) /\
  (forall s xs r, parse_elements f s = Some (xs, r) ->
                  forallb unique_keys xs = true) /\
  (forall s ms r, parse_members f s = Some (ms, r) ->
                  forallb (fun kv => unique_keys (snd kv)) ms = true).
Proof.
  induction f as [|f (IHv & IHe & IHm)]; [repeat split; discriminate|].
  split; [|split].
  - intros s j r Hp. rewrite parse_value_S in Hp. break_parse Hp;
      try (injection Hp as <- _; reflexivity).
    + injection Hp as <- _. simpl. eauto.
    + injection Hp as <- _. apply build_object_unique_keys. eauto.
    + eapply parse_number_double, Hp.
  - intros s xs r Hp. rewrite parse_elements_S in Hp. break_parse Hp;
      injection Hp as <- _; simpl; rewrite ?andb_true_r;
      repeat (apply andb_true_iff; split); eauto.
  - intros s ms r Hp. rewrite parse_members_S in Hp. break_parse Hp;
      injection Hp as <- _; simpl; rewrite ?andb_true_r;
      repeat (apply andb_true_iff; split); eauto.
Qed.

Lemma parse_doubles_fuel f :
  (forall s j r, parse_value f s = Some (j, r) -> numbers_are_doubles j = true) /\
  (forall s xs r, parse_elements f s = Some (xs, r) ->
                  forallb numbers_are_doubles xs = true) /\
  (forall s ms r, parse_members f s = Some (ms, r) ->
                  forallb (fun kv => numbers_are_doubles (snd kv)) ms = true).
Proof.
  induction f as [|f (IHv & IHe & IHm)]; [repeat split; discriminate|].
  split; [|split].
  - intros s j r Hp. rewrite parse_value_S in Hp. break_parse Hp;
      try (injection Hp as <- _; reflexivity).
    + injection Hp as <- _. simpl. eauto.
    + injection Hp as <- _. apply build_object_doubles. eauto.
    + eapply parse_number_double, Hp.
  - intros s xs r Hp. rewrite parse_elements_S in Hp. break_parse Hp;
      injection Hp as <- _; simpl; rewrite ?andb_true_r;
      repeat (apply andb_true_iff; split); eauto.
  - intros s ms r Hp. rewrite parse_members_S in Hp. break_parse Hp;
      injection Hp as <- _; simpl; rewrite ?andb_true_r;
      repeat (apply andb_true_iff; split); eauto.
Qed.

(** What [JSON.parse] returns has no key twice in an object, and its
    numbers are Numbers. *)
Lemma parse_unique_keys text j : parse text = Some j -> unique_keys j = true.
Proof.
  unfold parse.
  destruct (parse_value _ _) as [[j' r]|] eqn:Hp; [|discriminate].
  destruct (skip_ws r); [|discriminate]. intros Hj. injection Hj as <-.
  eapply (proj1 (parse_unique_keys_fuel _)), Hp.
Qed.

Lemma parse_doubles text j : parse text = Some j -> numbers_are_doubles j = true.
Proof.
  unfold parse.
  destruct (parse_value _ _) as [[j' r]|] eqn:Hp; [|discriminate].
  destruct (skip_ws r); [|discriminate]. intros Hj. injection Hj as <-.
  eapply (proj1 (parse_doubles_fuel _)), Hp.
Qed.

Lemma unique_keys_member fs k j :
  unique_keys (JObj fs) = true -> In (k, j) fs -> unique_keys j = true.
Proof.
  simpl. intros Hwf Hin. apply andb_true_iff in Hwf as [_ Hall].
  rewrite forallb_forall in Hall. exact (Hall (k, j) Hin).
Qed.

Lemma doubles_member fs k j :
  numbers_are_doubles (JObj fs) = true -> In (k, j) fs ->
  numbers_are_doubles j = true.
Proof.
  simpl. intros Hall Hin. rewrite forallb_forall in Hall. exact (Hall (k, j) Hin).
Qed.

(** *** The fuel of the parser *)

Lemma skip_ws_length s : length (skip_ws s) <= length s.
Proof.
  induction s as [|c s IH]; simpl; [lia|]. destruct (is_ws c); simpl; lia.
Qed.

Lemma strip_length kw : forall s r, strip kw s = Some r -> length r <= length s.
Proof.
  induction kw as [|k kw IH]; intros s r; simpl.
  - intros Hs. injection Hs as <-. lia.
  - destruct s as [|c s]; [discriminate|].
    destruct (c =? k)%char; [|discriminate].
    intros Hs. apply IH in Hs. simpl. lia.
Qed.

Lemma cons_chars_length c o cs r :
  cons_chars c o = Some (cs, r) ->
  exists cs', o = Some (cs', r).
Proof.
  destruct o as [[cs' r']|]; simpl; [|discriminate].
  intros Ho. injection Ho as _ <-. eauto.
Qed.

Lemma cons_char_length c o cs r :
  cons_char c o = Some (cs, r) ->
  exists cs', o = Some (cs', r).
Proof. apply cons_chars_length. Qed.

Lemma parse_chars_length s : forall cs r,
  parse_chars s = Some (cs, r) -> length r < length s.
Proof.
  induction s as [s IH] using (induction_ltof1 _ (@length ascii)).
  unfold ltof in IH. intros cs r Hp.
  destruct s as [|c s]; [discriminate|]. simpl in Hp.
  destruct (c =? "034")%char.
  { injection Hp as _ <-. simpl. lia. }
  destruct (c =? "\")%char.
  - destruct s as [|x s]; [discriminate|].
    repeat match type of Hp with
           | (if ?b then _ else _) = Some _ => destruct b
           end;
      try (apply cons_char_length in Hp as [cs' Hp]; apply IH in Hp;
           simpl in *; lia);
      try discriminate.
    destruct s as [|h1 [|h2 [|h3 [|h4 s]]]]; try discriminate.
    destruct (hex4 h1 h2 h3 h4); [|discriminate].
    apply cons_chars_length in Hp as [cs' Hp]. apply IH in Hp; simpl in *; lia.
  - destruct (nat_of_ascii c <? 32)%nat; [discriminate|].
    apply cons_char_length in Hp as [cs' Hp]. apply IH in Hp; simpl in *; lia.
Qed.

Lemma read_uint_length s : forall u r,
  read_uint s = (u, r) ->
  length r <= length s /\ (nonempty_uint u = true -> length r < length s).
Proof.
  induction s as [|c s IH]; intros u r; simpl.
  - intros Hr. injection Hr as <- <-. split; [simpl; lia | discriminate].
  - destruct (digit_of c) as [d|].
    + destruct (read_uint s) as [u' r'] eqn:Hs. intros Hr.
      injection Hr as <- <-. destruct (IH _ _ eq_refl) as [Hle _].
      simpl. split; intros; lia.
    + intros Hr. injection Hr as <- <-. split; [simpl; lia | discriminate].
Qed.

Lemma int_part_nonempty u : int_part_ok u = true -> nonempty_uint u = true.
Proof. now destruct u. Qed.

Lemma read_frac_length s u r :
  read_frac s = Some (u, r) -> length r <= length s.
Proof.
  unfold read_frac. destruct s as [|c s].
  - intros Hr. injection Hr as _ <-. lia.
  - destruct (c =? ".")%char.
    + destruct (read_uint s) as [u' r'] eqn:Hs.
      destruct (nonempty_uint u'); [|discriminate].
      intros Hr. injection Hr as _ <-.
      apply read_uint_length in Hs as [Hle _]. simpl. lia.
    + intros Hr. injection Hr as _ <-. lia.
Qed.

Lemma read_exp_length s e r :
  read_exp s = Some (e, r) -> length r <= length s.
Proof.
  unfold read_exp. destruct s as [|c s].
  - intros Hr. injection Hr as _ <-. lia.
  - destruct ((c =? "e")%char || (c =? "E")%char).
    + destruct (match s with
                | [] => (false, s)
                | c' :: r' =>
                    if (c' =? "-")%char then (true, r')
                    else if (c' =? "+")%char then (false, r') else (false, s)
                end) as [neg r1] eqn:Hsign.
      assert (Hr1 : length r1 <= length s).
      { destruct s as [|c' s']; [injection Hsign as _ <-; lia|].
        destruct (c' =? "-")%char; [injection Hsign as _ <-; simpl; lia|].
        destruct (c' =? "+")%char; injection Hsign as _ <-; simpl; lia. }
      destruct (read_uint r1) as [u r2] eqn:Hu.
      destruct (nonempty_uint u); [|discriminate].
      intros Hr. injection Hr as _ <-.
      apply read_uint_length in Hu as [Hle _]. simpl. lia.
    + intros Hr. injection Hr as _ <-. lia.
Qed.

Lemma parse_number_length s j r :
  parse_number s = Some (j, r) -> length r < length s.
Proof.
  unfold parse_number.
  destruct (match s with
            | [] => (false, s)
            | c :: r0 => if (c =? "-")%char then (true, r0) else (false, s)
            end) as [neg s1] eqn:Hsign.
  assert (Hs1 : length s1 <= length s).
  { destruct s as [|c s']; [injection Hsign as _ <-; lia|].
    destruct (c =? "-")%char; injection Hsign as _ <-; simpl; lia. }
  destruct (read_uint s1) as [ui s2] eqn:Hu.
  destruct (int_part_ok ui) eqn:Hok; [|discriminate].
  destruct (read_frac s2) as [[uf s3]|] eqn:Hf; [|discriminate].
  destruct (read_exp s3) as [[ex s4]|] eqn:He; [|discriminate].
  intros Hj. injection Hj as _ <-.
  apply read_uint_length in Hu as [_ Hlt].
  specialize (Hlt (int_part_nonempty _ Hok)).
  apply read_frac_length in Hf. apply read_exp_length in He. lia.
Qed.


Ltac lengths :=
  repeat match goal with
         | H : strip _ _ = Some _ |- _ => apply strip_length in H
         | H : parse_chars _ = Some _ |- _ => apply parse_chars_length in H
         | H : parse_number _ = Some _ |- _ => apply parse_number_length in H
         | H : skip_ws ?s = _ |- _ =>
             let H' := fresh in
             pose proof (skip_ws_length s) as H'; rewrite H in H'; clear H
         end.

(** Every parser consumes input. *)
Lemma parse_length f :
  (forall s j r, parse_value f s = Some (j, r) -> length r < length s) /\
  (forall s xs r, parse_elements f s = Some (xs, r) -> length r < length s) /\
  (forall s ms r, parse_members f s = Some (ms, r) -> length r < length s).
Proof.
  induction f as [|f (IHv & IHe & IHm)]; [repeat split; discriminate|].
  split; [|split].
  - intros s j r Hp. rewrite parse_value_S in Hp. break_parse Hp;
      try (injection Hp as _ <-);
      repeat match goal with
             | H : parse_elements f _ = Some _ |- _ => apply IHe in H
             | H : parse_members f _ = Some _ |- _ => apply IHm in H
             end;
      lengths; simpl in *; lia.
  - intros s xs r Hp. rewrite parse_elements_S in Hp. break_parse Hp;
      injection Hp as _ <-;
      repeat match goal with
             | H : parse_value f _ = Some _ |- _ => apply IHv in H
             | H : parse_elements f _ = Some _ |- _ => apply IHe in H
             end;
      lengths; simpl in *; lia.
  - intros s ms r Hp. rewrite parse_members_S in Hp. break_parse Hp;
      injection Hp as _ <-;
      repeat match goal with
             | H : parse_value f _ = Some _ |- _ => apply IHv in H
             | H : parse_members f _ = Some _ |- _ => apply IHm in H
             end;
      lengths; simpl in *; lia.
Qed.


(** More fuel than twice the length of the text changes nothing. *)
Lemma parse_fuel f :
  (forall s, 2 * length s + 1 <= f -> parse_value (S f) s = parse_value f s) /\
  (forall s, 2 * length s + 2 <= f ->
             parse_elements (S f) s = parse_elements f s) /\
  (forall s, 2 * length s + 2 <= f ->
             parse_members (S f) s = parse_members f s).
Proof.
  induction f as [|f (IHv & IHe & IHm)]; [repeat split; intros; lia|].
  split; [|split].
  - intros s Hf. rewrite (parse_value_S (S f)), (parse_value_S f).
    destruct (skip_ws s) as [|c r] eqn:Hws; [reflexivity|].
    pose proof (skip_ws_length s) as Hlen. rewrite Hws in Hlen. simpl in Hlen.
    rewrite (IHe r), (IHm r) by lia. reflexivity.
  - intros s Hf. rewrite (parse_elements_S (S f)), (parse_elements_S f).
    rewrite (IHv s) by lia.
    destruct (parse_value f s) as [[x r]|] eqn:Hv; [|reflexivity].
    apply (proj1 (parse_length f)) in Hv.
    destruct (skip_ws r) as [|c r'] eqn:Hws; [reflexivity|].
    pose proof (skip_ws_length r) as Hlen. rewrite Hws in Hlen. simpl in Hlen.
    rewrite (IHe r') by lia. reflexivity.
  - intros s Hf. rewrite (parse_members_S (S f)), (parse_members_S f).
    destruct (skip_ws s) as [|q r] eqn:Hws; [reflexivity|].
    pose proof (skip_ws_length s) as Hlen. rewrite Hws in Hlen. simpl in Hlen.
    destruct (q =? "034")%char; [|reflexivity].
    destruct (parse_chars r) as [[k r1]|] eqn:Hk; [|reflexivity].
    apply parse_chars_length in Hk.
    destruct (skip_ws r1) as [|c r2] eqn:Hws1; [reflexivity|].
    pose proof (skip_ws_length r1) as Hlen1. rewrite Hws1 in Hlen1.
    simpl in Hlen1.
    destruct (c =? ":")%char; [|reflexivity].
    rewrite (IHv r2) by lia.
    destruct (parse_value f r2) as [[v r3]|] eqn:Hv; [|reflexivity].
    apply (proj1 (parse_length f)) in Hv.
    destruct (skip_ws r3) as [|c' r4] eqn:Hws3; [reflexivity|].
    pose proof (skip_ws_length r3) as Hlen3. rewrite Hws3 in Hlen3.
    simpl in Hlen3.
    rewrite (IHm r4) by lia. reflexivity.
Qed.

(** The fuel of [parse] is enough: with any larger fuel the parser returns
    the same. *)
Theorem parse_value_fuel_enough s f :
  2 * length s + 2 <= f ->
  parse_value f s = parse_value (2 * length s + 2) s.
Proof.
  induction 1 as [|f Hle IH]; [reflexivity|].
  rewrite <- IH. apply (proj1 (parse_fuel f)). lia.
Qed.

End JSONFacts.

(** ** Properties of the object store *)

Module JSFacts.
Import JSON JSONFacts JS.

(** *** The store only grows, fuel only helps *)

Lemma mapM_weaken {A B} (f g : A -> option B) l k :
  (forall x y, f x = Some y -> g x = Some y) ->
  mapM f l = Some k -> mapM g l = Some k.
Proof.
  intros Hfg. rewrite !mapM_Some. intros HF.
  eapply Forall2_impl; [exact HF | exact Hfg].
Qed.

Lemma reify_weaken f : forall h h2 v j f',
  reify f h v = Some j -> f <= f' -> reify f' (h ++ h2) v = Some j.
Proof.
  induction f as [|f IH]; intros h h2 v j f' Hr Hle; [discriminate|].
  destruct f' as [|f']; [lia|]. assert (f <= f') by lia.
  destruct v as [| | | | |l]; simpl in *; try assumption.
  destruct (h !! l) as [c|] eqn:Hl; [|discriminate].
  rewrite (lookup_app_l_Some _ _ _ _ Hl).
  destruct c as [xs|fs].
  - destruct (mapM (reify f h) xs) as [js|] eqn:Hm; [|discriminate].
    erewrite mapM_weaken; [exact Hr | | exact Hm]. eauto.
  - destruct (mapM _ fs) as [ms|] eqn:Hm in Hr; [|discriminate].
    erewrite mapM_weaken; [exact Hr | | exact Hm].
    intros kv y Hy. simpl in *.
    destruct (reify f h (snd kv)) eqn:Hkv; [|discriminate].
    now rewrite (IH _ h2 _ _ f' Hkv).
Qed.

Lemma denotes_extend h h2 v j : denotes h v j -> denotes (h ++ h2) v j.
Proof.
  unfold denotes. intros Hr. eapply reify_weaken; [exact Hr|].
  rewrite length_app. lia.
Qed.

(** A value that stands for a tree is written as that tree. *)
Lemma reify_serialize f : forall h v j,
  reify f h v = Some j -> serialize f h v = Some (Some j).
Proof.
  induction f as [|f IH]; intros h v j Hr; [discriminate|].
  destruct v as [| | | | |l]; simpl in *; try congruence.
  destruct (h !! l) as [[xs|fs]|]; [| |discriminate].
  - destruct (mapM (reify f h) xs) as [js|] eqn:Hm; [|discriminate].
    simpl in Hr. injection Hr as <-.
    erewrite mapM_weaken; [reflexivity | | exact Hm].
    intros x y Hx. now rewrite (IH _ _ _ Hx).
  - destruct (mapM _ fs) as [ms|] eqn:Hm in Hr; [|discriminate].
    simpl in Hr. injection Hr as <-.
    assert (Hs : mapM (fun kv => match serialize f h (snd kv) with
                                 | Some (Some j) => Some (Some (fst kv, j))
                                 | Some None => Some None
                                 | None => None
                                 end) fs = Some (Some <$> ms)).
    { apply mapM_Some. apply mapM_Some in Hm.
      induction Hm as [|kv m fs ms Hkv _ IHm]; constructor; [|exact IHm].
      simpl in Hkv. destruct (reify f h (snd kv)) eqn:Hr; [|discriminate].
      rewrite (IH _ _ _ Hr). simpl in Hkv. congruence. }
    rewrite Hs. do 3 f_equal.
    clear. induction ms as [|m ms IHms]; [reflexivity|].
    cbn. f_equal. exact IHms.
Qed.

Lemma alloc_json_ok j : alloc_ok j.
Proof.
  induction j as [|b|x|s|xs IH|fs IH] using json_rect'; intros h v h' Ha;
    try (simpl in Ha; injection Ha as <- <-; exists []; rewrite app_nil_r;
         split; [reflexivity|]; split; [simpl; lia|];
         intros [|f] Hf; [simpl in Hf; lia | reflexivity]).
  - simpl in Ha.
    set (go := fix go (xs : list json) (h : list cell) := _) in Ha.
    destruct (go xs h) as [vs h1] eqn:Hgo.
    unfold alloc in Ha. injection Ha as <- <-.
    assert (Hall : exists h2, h1 = h ++ h2 /\
               foldr (fun x d => Nat.max (jdepth x) d) 0 xs <= S (length h2) /\
               forall f, foldr (fun x d => Nat.max (jdepth x) d) 0 xs <= f ->
                         forall h3, mapM (reify f (h1 ++ h3)) vs = Some xs).
    { clear -IH Hgo. revert h vs h1 Hgo.
      induction IH as [|x xs Hx _ IHxs]; intros h vs h1 Hgo; simpl in Hgo.
      - injection Hgo as <- <-. exists []. rewrite app_nil_r.
        split; [reflexivity|]. split; [simpl; lia|]. reflexivity.
      - destruct (alloc_json x h) as [v ha] eqn:Hx1.
        destruct (go xs ha) as [vs' hb] eqn:Hxs1.
        injection Hgo as <- <-.
        destruct (Hx _ _ _ Hx1) as (h2 & -> & Hd & Hr).
        destruct (IHxs _ _ _ Hxs1) as (h3 & -> & Hd' & Hr').
        exists (h2 ++ h3). rewrite app_assoc. split; [reflexivity|].
        rewrite length_app. split; [simpl; lia|].
        intros f Hf h4. simpl in Hf. apply mapM_Some. constructor.
        + rewrite <- app_assoc.
          apply (reify_weaken f _ _ _ _ f); [apply Hr; lia | lia].
        + apply mapM_Some. apply Hr'. lia. }
    destruct Hall as (h2 & -> & Hd & Hr).
    exists (h2 ++ [CArray vs]). rewrite app_assoc. split; [reflexivity|].
    rewrite length_app. split; [simpl; lia|].
    intros [|f] Hf; [simpl in Hf; lia|]. simpl in Hf. cbn [reify].
    rewrite lookup_app_r, Nat.sub_diag by lia. cbn [lookup list_lookup].
    rewrite Hr by lia. reflexivity.
  - simpl in Ha.
    set (go := fix go (fs : list (string * json)) (h : list cell) := _) in Ha.
    destruct (go fs h) as [vs h1] eqn:Hgo.
    unfold alloc in Ha. injection Ha as <- <-.
    assert (Hall : exists h2, h1 = h ++ h2 /\
               foldr (fun kv d => Nat.max (jdepth (snd kv)) d) 0 fs <= S (length h2) /\
               forall f, foldr (fun kv d => Nat.max (jdepth (snd kv)) d) 0 fs <= f ->
                 forall h3,
                   mapM (fun kv => pair (fst kv) <$> reify f (h1 ++ h3) (snd kv)) vs
                   = Some fs).
    { clear -IH Hgo. revert h vs h1 Hgo.
      induction IH as [|[k x] xs Hx _ IHxs]; intros h vs h1 Hgo; simpl in Hgo.
      - injection Hgo as <- <-. exists []. rewrite app_nil_r.
        split; [reflexivity|]. split; [simpl; lia|]. reflexivity.
      - destruct (alloc_json x h) as [v ha] eqn:Hx1.
        destruct (go xs ha) as [vs' hb] eqn:Hxs1.
        injection Hgo as <- <-. simpl in Hx.
        destruct (Hx _ _ _ Hx1) as (h2 & -> & Hd & Hr).
        destruct (IHxs _ _ _ Hxs1) as (h3 & -> & Hd' & Hr').
        exists (h2 ++ h3). rewrite app_assoc. split; [reflexivity|].
        rewrite length_app. split; [simpl; lia|].
        intros f Hf h4. simpl in Hf. apply mapM_Some. constructor.
        + simpl. rewrite <- app_assoc.
          rewrite (reify_weaken f _ (h3 ++ h4) _ x f); [reflexivity | apply Hr; lia | lia].
        + apply mapM_Some. apply Hr'. lia. }
    destruct Hall as (h2 & -> & Hd & Hr).
    exists (h2 ++ [CObject vs]). rewrite app_assoc. split; [reflexivity|].
    rewrite length_app. split; [simpl; lia|].
    intros [|f] Hf; [simpl in Hf; lia|]. simpl in Hf. cbn [reify].
    rewrite lookup_app_r, Nat.sub_diag by lia. cbn [lookup list_lookup].
    rewrite Hr by lia. reflexivity.
Qed.

Lemma alloc_json_denotes j h v h' :
  alloc_json j h = (v, h') -> denotes h' v j /\ exists h2, h' = h ++ h2.
Proof.
  intros Ha. destruct (alloc_json_ok j _ _ _ Ha) as (h2 & -> & Hd & Hr).
  split; [|eauto]. apply Hr. rewrite length_app. lia.
Qed.

Lemma alloc_json_truthy j h v h' :
  alloc_json j h = (v, h') -> truthy v = jtruthy j.
Proof.
  destruct j as [|b|x|s|xs|fs]; simpl; intros Ha;
    try (injection Ha as <- _; reflexivity).
  - destruct ((fix go (xs : list json) (h : list cell) := _) xs h) in Ha.
    injection Ha as <- _. reflexivity.
  - destruct ((fix go (fs : list (string * json)) (h : list cell) := _) fs h) in Ha.
    injection Ha as <- _. reflexivity.
Qed.

Lemma member_of_extend h h2 kv kj :
  member_of h kv kj -> member_of (h ++ h2) kv kj.
Proof.
  intros (Hk & Hd & Ht). repeat split; auto using denotes_extend.
Qed.

Lemma alloc_json_obj fs h v h' :
  alloc_json (JObj fs) h = (v, h') ->
  exists vs h0,
    v = VRef (length (h ++ h0)) /\ h' = (h ++ h0) ++ [CObject vs] /\
    Forall2 (member_of h') vs fs.
Proof.
  simpl.
  set (go := fix go (fs : list (string * json)) (h : list cell) := _).
  destruct (go fs h) as [vs h1] eqn:Hgo. unfold alloc. intros Ha.
  injection Ha as <- <-.
  assert (Hall : exists h0, h1 = h ++ h0 /\ Forall2 (member_of h1) vs fs).
  { clear -Hgo. revert h vs h1 Hgo.
    induction fs as [|[k x] fs IH]; intros h vs h1 Hgo; simpl in Hgo.
    - injection Hgo as <- <-. exists []. now rewrite app_nil_r.
    - destruct (alloc_json x h) as [v ha] eqn:Hx.
      destruct (go fs ha) as [vs' hb] eqn:Hfs. injection Hgo as <- <-.
      destruct (alloc_json_denotes _ _ _ _ Hx) as (Hd & h2 & ->).
      destruct (IH _ _ _ Hfs) as (h3 & -> & Hms).
      exists (h2 ++ h3). rewrite app_assoc. split; [reflexivity|].
      constructor; [|exact Hms].
      apply member_of_extend. repeat split; [exact Hd|].
      eapply alloc_json_truthy, Hx. }
  destruct Hall as (h0 & -> & Hms). exists vs, h0.
  repeat split. eapply Forall2_impl; [exact Hms|].
  intros kv kj. apply member_of_extend.
Qed.

Lemma assoc_members {A B} (R : A -> B -> Prop)
      (vs : list (string * A)) (fs : list (string * B)) k :
  Forall2 (fun kv kj => fst kv = fst kj /\ R (snd kv) (snd kj)) vs fs ->
  match assoc k fs with
  | Some j => exists x, assoc k vs = Some x /\ R x j
  | None => assoc k vs = None
  end.
Proof.
  induction 1 as [|[k1 x] [k2 j] vs fs [Hk HR] _ IH]; simpl; [reflexivity|].
  simpl in Hk, HR. subst k2. destruct (String.eqb k1 k); eauto.
Qed.

(** Reading a member of a parsed object. *)
Lemma get_field_alloc_obj fs h v h' k :
  alloc_json (JObj fs) h = (v, h') ->
  match assoc k fs with
  | Some j => exists x, get_field h' v k = Some x /\ denotes h' x j
                        /\ truthy x = jtruthy j
  | None => get_field h' v k = Some VUndefined
  end.
Proof.
  intros Ha. destruct (alloc_json_obj _ _ _ _ Ha) as (vs & h0 & -> & -> & Hms).
  pose proof (assoc_members
                (fun x j => denotes ((h ++ h0) ++ [CObject vs]) x j
                            /\ truthy x = jtruthy j) vs fs k Hms) as Hk.
  unfold get_field. rewrite lookup_app_r, Nat.sub_diag by lia.
  cbn [lookup list_lookup].
  destruct (assoc k fs) as [j|].
  - destruct Hk as (x & -> & Hd & Ht). exists x. auto.
  - now rewrite Hk.
Qed.

(** A new object whose members stand for trees stands for their object. *)
Lemma denotes_new_object h (fs : list (string * val)) (js : list (string * json)) :
  Forall2 (fun kv kj => fst kv = fst kj /\ denotes h (snd kv) (snd kj)) fs js ->
  denotes (h ++ [CObject fs]) (VRef (length h)) (JObj js).
Proof.
  intros Hms. unfold denotes. cbn [reify].
  rewrite lookup_app_r, Nat.sub_diag by lia. cbn [lookup list_lookup].
  assert (Hm : mapM (fun kv => pair (fst kv)
                        <$> reify (length (h ++ [CObject fs]))
                                  (h ++ [CObject fs]) (snd kv)) fs = Some js).
  { apply mapM_Some. eapply Forall2_impl; [exact Hms|].
    intros [k x] [k' j] [Hk Hd]. simpl in *. subst k'.
    rewrite (reify_weaken _ _ _ _ _ _ Hd); [reflexivity|].
    rewrite length_app. simpl. lia. }
  rewrite Hm. reflexivity.
Qed.

Lemma denotes_new_array h :
  denotes (h ++ [CArray []]) (VRef (length h)) (JArr []).
Proof.
  unfold denotes. cbn [reify].
  rewrite lookup_app_r, Nat.sub_diag by lia. reflexivity.
Qed.

Lemma assoc_In {A} k (fs : list (string * A)) x :
  assoc k fs = Some x -> In (k, x) fs.
Proof.
  induction fs as [|[k' x'] fs IH]; simpl; [discriminate|].
  destruct (String.eqb_spec k' k) as [->|Hne].
  - intros Hx. injection Hx as <-. now left.
  - intros Hx. right. now apply IH.
Qed.

(** *** The fuel of [denotes] *)

Lemma reify_more_fuel f f' h v j :
  reify f h v = Some j -> f <= f' -> reify f' h v = Some j.
Proof.
  intros Hr Hle. rewrite <- (app_nil_r h). now apply (reify_weaken f).
Qed.

Lemma reify_deterministic f1 f2 h v j1 j2 :
  reify f1 h v = Some j1 -> reify f2 h v = Some j2 -> j1 = j2.
Proof.
  intros H1 H2.
  apply (reify_more_fuel _ (Nat.max f1 f2)) in H1; [|lia].
  apply (reify_more_fuel _ (Nat.max f1 f2)) in H2; [|lia].
  congruence.
Qed.

(** Fuel equal to the depth of the tree is enough. *)
Lemma reify_depth f : forall h v j,
  reify f h v = Some j -> forall f', jdepth j <= f' -> reify f' h v = Some j.
Proof.
  induction f as [|f IH]; intros h v j Hr f' Hf; [discriminate|].
  destruct v as [| | | | |l]; simpl in Hr; try discriminate;
    try (injection Hr as <-; destruct f'; [simpl in Hf; lia | reflexivity]).
  destruct (h !! l) as [[xs|fs]|] eqn:Hl; [| |discriminate].
  - destruct (mapM (reify f h) xs) as [js|] eqn:Hm; [|discriminate].
    simpl in Hr. injection Hr as <-. simpl in Hf.
    destruct f' as [|f']; [lia|]. simpl. rewrite Hl.
    assert (Hm' : mapM (reify f' h) xs = Some js).
    { apply mapM_Some. apply mapM_Some in Hm.
      assert (Hd : foldr (fun x d => Nat.max (jdepth x) d) 0 js <= f') by lia.
      clear Hf Hl. induction Hm as [|x jx xs js Hx _ IHm]; constructor.
      - apply (IH _ _ _ Hx). simpl in Hd. lia.
      - apply IHm. simpl in Hd. lia. }
    now rewrite Hm'.
  - destruct (mapM _ fs) as [ms|] eqn:Hm in Hr; [|discriminate].
    simpl in Hr. injection Hr as <-. simpl in Hf.
    destruct f' as [|f']; [lia|]. simpl. rewrite Hl.
    assert (Hm' : mapM (fun kv => pair (fst kv) <$> reify f' h (snd kv)) fs
                  = Some ms).
    { apply mapM_Some. apply mapM_Some in Hm.
      assert (Hd : foldr (fun kv d => Nat.max (jdepth (snd kv)) d) 0 ms <= f')
        by lia.
      clear Hf Hl. induction Hm as [|x jx xs js Hx _ IHm]; constructor.
      - simpl in Hx. destruct (reify f h (snd x)) as [jv|] eqn:Hv; [|discriminate].
        simpl in Hx. injection Hx as <-. simpl in Hd.
        rewrite (IH _ _ _ Hv); [reflexivity | simpl; lia].
      - apply IHm. simpl in Hd. lia. }
    now rewrite Hm'.
Qed.

Lemma chain_nil h d : chain h d [].
Proof. intros i l Hl. discriminate. Qed.

Lemma chain_cons h d l ls f j :
  l < length h -> reify f h (VRef l) = Some j -> jdepth j = S d ->
  chain h d ls -> chain h (S d) (l :: ls).
Proof.
  intros Hl Hr Hd Hc [|i] l' Hi; simpl in Hi.
  - injection Hi as <-. split; [exact Hl|]. exists f, j. split; [exact Hr | lia].
  - destruct (Hc i l' Hi) as (Hl' & f' & j' & Hr' & Hd').
    split; [exact Hl'|]. exists f', j'. split; [exact Hr' | lia].
Qed.

Lemma max_member {A} (g : A -> nat) (xs : list A) :
  0 < foldr (fun x d => Nat.max (g x) d) 0 xs ->
  exists x, In x xs /\ g x = foldr (fun x d => Nat.max (g x) d) 0 xs.
Proof.
  induction xs as [|x xs IH]; simpl; [lia|]. intros Hpos.
  destruct (Nat.max_spec (g x) (foldr (fun x d => Nat.max (g x) d) 0 xs))
    as [[Hlt ->]|[Hle ->]].
  - destruct IH as (y & Hy & Hg); [lia|]. exists y. auto.
  - exists x. auto.
Qed.

Lemma reify_chain f : forall h v j,
  reify f h v = Some j ->
  exists ls, S (length ls) = jdepth j /\ chain h (jdepth j) ls.
Proof.
  induction f as [|f IH]; intros h v j Hr; [discriminate|].
  destruct v as [| | | | |l]; simpl in Hr; try discriminate;
    try (injection Hr as <-; exists []; split; [reflexivity | apply chain_nil]).
  pose proof Hr as Hr0.
  destruct (h !! l) as [[xs|fs]|] eqn:Hl; [| |discriminate].
  - destruct (mapM (reify f h) xs) as [js|] eqn:Hm; [|discriminate].
    simpl in Hr. injection Hr as <-. simpl.
    destruct (foldr (fun x d => Nat.max (jdepth x) d) 0 js) as [|m] eqn:Hmax.
    { exists []. split; [reflexivity | apply chain_nil]. }
    destruct (max_member jdepth js) as (jx & Hin & Hjx); [lia|].
    rewrite Hmax in Hjx.
    apply mapM_Some in Hm.
    apply list_elem_of_In, list_elem_of_lookup in Hin as [i Hi].
    destruct (Forall2_lookup_r _ _ _ _ _ Hm Hi) as (x & Hx & Hrx).
    destruct (IH _ _ _ Hrx) as (ls & Hlen & Hc).
    exists (l :: ls). split; [simpl; lia|].
    apply (chain_cons h (S m) l ls (S f) (JArr js)).
    + now apply lookup_lt_Some in Hl.
    + simpl. rewrite Hl. apply mapM_Some in Hm. now rewrite Hm.
    + simpl. now rewrite Hmax.
    + now rewrite <- Hjx.
  - destruct (mapM _ fs) as [ms|] eqn:Hm in Hr; [|discriminate].
    simpl in Hr. injection Hr as <-. simpl.
    destruct (foldr (fun kv d => Nat.max (jdepth (snd kv)) d) 0 ms)
      as [|m] eqn:Hmax.
    { exists []. split; [reflexivity | apply chain_nil]. }
    destruct (max_member (fun kv => jdepth (snd kv)) ms) as (jx & Hin & Hjx);
      [lia|].
    rewrite Hmax in Hjx.
    apply mapM_Some in Hm.
    apply list_elem_of_In, list_elem_of_lookup in Hin as [i Hi].
    destruct (Forall2_lookup_r _ _ _ _ _ Hm Hi) as (x & Hx & Hrx).
    simpl in Hrx. destruct (reify f h (snd x)) as [jv|] eqn:Hv; [|discriminate].
    simpl in Hrx. injection Hrx as <-. simpl in Hjx.
    destruct (IH _ _ _ Hv) as (ls & Hlen & Hc).
    exists (l :: ls). split; [simpl; lia|].
    apply (chain_cons h (S m) l ls (S f) (JObj ms)).
    + now apply lookup_lt_Some in Hl.
    + simpl. rewrite Hl. apply mapM_Some in Hm. now rewrite Hm.
    + simpl. now rewrite Hmax.
    + now rewrite <- Hjx.
Qed.

Lemma chain_NoDup h d ls : chain h d ls -> NoDup ls.
Proof.
  intros Hc. apply NoDup_alt. intros a b l Ha Hb.
  destruct (Hc a l Ha) as (_ & fa & ja & Hra & Hda).
  destruct (Hc b l Hb) as (_ & fb & jb & Hrb & Hdb).
  assert (ja = jb) by (eapply reify_deterministic; eassumption).
  subst. lia.
Qed.

Lemma chain_length h d ls : chain h d ls -> length ls <= length h.
Proof.
  intros Hc. transitivity (length (seq 0 (length h)));
    [|rewrite length_seq; lia].
  apply submseteq_length, NoDup_submseteq; [eapply chain_NoDup, Hc|].
  intros l Hl. apply list_elem_of_lookup in Hl as [i Hi].
  destruct (Hc i l Hi) as [Hlt _]. apply elem_of_seq. lia.
Qed.

(** The fuel of [denotes] is enough: a value that stands for a tree with
    some fuel stands for it with the fuel of [denotes]. *)
Theorem reify_fuel_enough f h v j : reify f h v = Some j -> denotes h v j.
Proof.
  intros Hr. destruct (reify_chain _ _ _ _ Hr) as (ls & Hlen & Hc).
  apply chain_length in Hc. apply (reify_depth f); [exact Hr|]. lia.
Qed.

End JSFacts.

(** ** Properties of the data manager *)

Module DataManagerSpec.
Import JSON JSONFacts JS JSFacts DataManager.

Local Open Scope string_scope.
Local Open Scope list_scope.

(** *** Steps *)

Lemma JSON_stringify_denotes {H} (w : world H) v j :
  denotes (heap w) v j -> JSON_stringify v w = (Ret (stringify j), w).
Proof.
  intros Hd. unfold JSON_stringify. now rewrite (reify_serialize _ _ _ _ Hd).
Qed.

Lemma JSON_parse_Some {H} (w : world H) text j :
  parse text = Some j ->
  exists v h2,
    JSON_parse text w = (Ret v, set_heap (heap w ++ h2) w) /\
    denotes (heap w ++ h2) v j /\ truthy v = jtruthy j.
Proof.
  intros Hp. unfold JSON_parse. rewrite Hp.
  destruct (alloc_json j (heap w)) as [v h'] eqn:Ha.
  destruct (alloc_json_denotes _ _ _ _ Ha) as (Hd & h2 & ->).
  exists v, h2. repeat split; [exact Hd|]. eapply alloc_json_truthy, Ha.
Qed.

Lemma receive_Some {H} (w : world H) j :
  exists v h2,
    receive (Some j) w = (Ret v, set_heap (heap w ++ h2) w) /\
    alloc_json j (heap w) = (v, heap w ++ h2).
Proof.
  unfold receive. destruct (alloc_json j (heap w)) as [v h'] eqn:Ha.
  destruct (alloc_json_denotes _ _ _ _ Ha) as (_ & h2 & ->). eauto.
Qed.

Lemma if_item_text {H A} (s : string) (yes : string -> M A) (no : M A)
      (w : world H) :
  s <> EmptyString -> if_item (Some s) yes no w = yes s w.
Proof.
  intros Hs. unfold if_item.
  destruct (String.eqb_spec s EmptyString); [contradiction | reflexivity].
Qed.

(** Reading, under Electron, the member [field] that the host reports. *)
Lemma read_host_field {H} (w : world H) fs field j :
  assoc field fs = Some j ->
  exists x h2,
    bind (receive (Some (JObj fs))) (fun result => read_field result field) w
    = (Ret x, set_heap (heap w ++ h2) w) /\
    denotes (heap w ++ h2) x j /\ truthy x = jtruthy j.
Proof.
  intros Hf. destruct (receive_Some w (JObj fs)) as (v & h2 & Hr & Ha).
  pose proof (get_field_alloc_obj _ _ _ _ field Ha) as Hg. rewrite Hf in Hg.
  destruct Hg as (x & Hg & Hd & Ht). exists x, h2.
  unfold bind. rewrite Hr. unfold read_field. cbn [heap set_heap].
  rewrite Hg. auto.
Qed.

(** *** The methods in each environment *)

Section Environment.
Context {H : Type}.
Implicit Type w : world H.

Lemma loadData_browser w :
  electronAPI w = None ->
  loadData w
  = try_catch (if_item (localStorage w !! "data/perfectWoodData.json")
                       JSON_parse spread_defaultData)
              (fun _ => spread_defaultData) w.
Proof.
  intros He. unfold loadData, try_catch, bind, get_electronAPI, getItem.
  now rewrite He.
Qed.

Lemma loadCustomerTransactions_browser w :
  electronAPI w = None ->
  loadCustomerTransactions w
  = try_catch (if_item (localStorage w !! "data/customerTransactions.json")
                       JSON_parse (new_cell (CArray [])))
              (fun _ => new_cell (CArray [])) w.
Proof.
  intros He.
  unfold loadCustomerTransactions, try_catch, bind, get_electronAPI, getItem.
  now rewrite He.
Qed.

Lemma loadSupplierTransactions_browser w :
  electronAPI w = None ->
  loadSupplierTransactions w
  = try_catch (if_item (localStorage w !! "data/supplierTransactions.json")
                       JSON_parse (new_cell (CArray [])))
              (fun _ => new_cell (CArray [])) w.
Proof.
  intros He.
  unfold loadSupplierTransactions, try_catch, bind, get_electronAPI, getItem.
  now rewrite He.
Qed.

(** Saving a JSON value in the browser writes its text under the key. *)
Lemma save_browser w key v j :
  denotes (heap w) v j ->
  try_catch (let* text := JSON_stringify v in setItem key text ;; ret true)
            (fun _ => ret false) w
  = (Ret true, set_localStorage (<[key := stringify j]> (localStorage w)) w).
Proof.
  intros Hd. unfold try_catch, bind. now rewrite (JSON_stringify_denotes _ _ _ Hd).
Qed.

Lemma saveData_browser w v j :
  electronAPI w = None -> denotes (heap w) v j ->
  saveData v w
  = (Ret true,
     set_localStorage (<["data/perfectWoodData.json" := stringify j]>
                         (localStorage w)) w).
Proof.
  intros He Hd. rewrite <- (save_browser w _ v j Hd).
  unfold saveData, try_catch, bind, get_electronAPI. now rewrite He.
Qed.

Lemma saveCustomerTransactions_browser w v j :
  electronAPI w = None -> denotes (heap w) v j ->
  saveCustomerTransactions v w
  = (Ret true,
     set_localStorage (<["data/customerTransactions.json" := stringify j]>
                         (localStorage w)) w).
Proof.
  intros He Hd. rewrite <- (save_browser w _ v j Hd).
  unfold saveCustomerTransactions, try_catch, bind, get_electronAPI.
  now rewrite He.
Qed.

Lemma saveSupplierTransactions_browser w v j :
  electronAPI w = None -> denotes (heap w) v j ->
  saveSupplierTransactions v w
  = (Ret true,
     set_localStorage (<["data/supplierTransactions.json" := stringify j]>
                         (localStorage w)) w).
Proof.
  intros He Hd. rewrite <- (save_browser w _ v j Hd).
  unfold saveSupplierTransactions, try_catch, bind, get_electronAPI.
  now rewrite He.
Qed.

(** Saving through the host, when the host takes the value. *)
Lemma save_electron w (save : option json -> H -> settled unit * H) v j s1 :
  denotes (heap w) v j ->
  save (Some j) (hostState w) = (Resolved tt, s1) ->
  try_catch (let* d := send v in await (save d) ;; ret true)
            (fun _ => ret false) w
  = (Ret true, set_hostState s1 w).
Proof.
  intros Hd Hs. unfold try_catch, bind, send, await.
  unfold denotes in Hd. now rewrite Hd, Hs.
Qed.

(** Loading a member through the host, when the host reports it. *)
Lemma load_electron w (api : HostAPI H) fs s2 field j
      (fallback : val -> M val) (handler : exn -> M val) :
  api_loadData api (hostState w) = (Resolved (Some (JObj fs)), s2) ->
  assoc field fs = Some j -> jtruthy j = true ->
  (forall x, truthy x = true -> fallback x = ret x) ->
  exists x h2,
    try_catch (let* r := await (api_loadData api) in
               let* result := receive r in
               let* data := read_field result field in
               fallback data)
              handler w
    = (Ret x, set_heap (heap w ++ h2) (set_hostState s2 w)) /\
    denotes (heap w ++ h2) x j.
Proof.
  intros Hl Hf Ht Hfb.
  destruct (read_host_field (set_hostState s2 w) fs field j Hf)
    as (x & h2 & Hr & Hd & Htx).
  exists x, h2. split; [|exact Hd].
  unfold try_catch, bind, await in *. rewrite Hl.
  destruct (receive (Some (JObj fs)) (set_hostState s2 w)) as [[r|e] w1];
    [|discriminate].
  rewrite Hr. rewrite Hfb by congruence. reflexivity.
Qed.

End Environment.

(** *** Round trips *)

Section RoundTrip.
Context {H : Type}.
Implicit Type w : world H.

(** The text of a tree written under [key] in the browser is read back as
    [stored_as] says. *)
Lemma browser_roundtrip_stored w key j (no : M val) (handler : exn -> M val) :
  unique_keys j = true ->
  let w1 := set_localStorage (<[key := stringify j]> (localStorage w)) w in
  exists v h2,
    try_catch (if_item (localStorage w1 !! key) JSON_parse no) handler w1
    = (Ret v, set_heap (heap w ++ h2) w1) /\
    denotes (heap w ++ h2) v (stored_as j).
Proof.
  intros Hu w1.
  destruct (JSON_parse_Some w1 _ _ (parse_stringify_stored j Hu))
    as (v & h2 & Hp & Hd & _).
  exists v, h2. split; [|exact Hd].
  unfold try_catch. subst w1. cbn [localStorage set_localStorage].
  rewrite lookup_insert_eq, if_item_text by apply stringify_nonempty.
  now rewrite Hp.
Qed.

(** JSON data written under [key] in the browser is read back as it is. *)
Lemma browser_roundtrip w key j (no : M val) (handler : exn -> M val) :
  wf j = true ->
  let w1 := set_localStorage (<[key := stringify j]> (localStorage w)) w in
  exists v h2,
    try_catch (if_item (localStorage w1 !! key) JSON_parse no) handler w1
    = (Ret v, set_heap (heap w ++ h2) w1) /\
    denotes (heap w ++ h2) v j.
Proof.
  intros Hwf w1.
  destruct (browser_roundtrip_stored w key j no handler (wf_unique_keys j Hwf))
    as (v & h2 & Hl & Hd).
  rewrite stored_as_wf in Hd by exact Hwf. eauto.
Qed.

End RoundTrip.

(** C1. For any valid Dataset [D] (a value that stands for the JSON tree [j]
    of a dataset), [saveData(D)] returns [true] and the [loadData()] that
    follows returns a value deep-equal to [D]: it stands for the same tree.
    In the browser this holds outright; under Electron it holds when the host
    keeps what it is given. *)
Theorem saveData_loadData_roundtrip {H} (w : world H) (D : val) (j : json) :
  valid_dataset j = true ->
  denotes (heap w) D j ->
  backend_keeps w (@api_saveData H) "data" j ->
  exists w1 v w2,
    saveData D w = (Ret true, w1) /\
    loadData w1 = (Ret v, w2) /\
    denotes (heap w2) v j /\ denotes (heap w2) D j.
Proof.
  intros Hv Hd Hb. unfold valid_dataset in Hv.
  apply andb_true_iff in Hv as [Hwf Hshape].
  unfold backend_keeps in Hb. destruct (electronAPI w) as [api|] eqn:He.
  - destruct Hb as (s1 & s2 & fs & Hsave & Hload & Hf).
    exists (set_hostState s1 w).
    assert (Ht : jtruthy j = true) by (now destruct j).
    destruct (load_electron (set_hostState s1 w) api fs s2 "data" j
                (fun data => if truthy data then ret data else this_defaultData)
                (fun _ => spread_defaultData) Hload Hf Ht)
      as (x & h2 & Hl & Hx).
    { intros x ->. reflexivity. }
    eexists x, _. split; [|split; [|split]].
    + rewrite <- (save_electron w (api_saveData api) D j s1 Hd Hsave).
      unfold saveData, try_catch, bind, get_electronAPI. now rewrite He.
    + etransitivity; [|exact Hl].
      unfold loadData, try_catch, bind, get_electronAPI.
      cbn [electronAPI set_hostState]. now rewrite He.
    + exact Hx.
    + now apply denotes_extend.
  - destruct (browser_roundtrip w "data/perfectWoodData.json" j
                spread_defaultData (fun _ => spread_defaultData) Hwf)
      as (v & h2 & Hl & Hx).
    eexists _, v, _. split; [|split; [|split]].
    + exact (saveData_browser w D j He Hd).
    + rewrite loadData_browser by exact He. exact Hl.
    + exact Hx.
    + now apply denotes_extend.
Qed.

Lemma saveData_loadData_roundtrip_witness :
  (exists w1 v w2,
      saveData (fst browser_with_dataset)
               (snd browser_with_dataset) = (Ret true, w1) /\
      loadData w1 = (Ret v, w2) /\
      denotes (heap w2) v sample_dataset /\
      denotes (heap w2) (fst browser_with_dataset)
              sample_dataset) /\
  (exists w1 v w2,
      saveData (fst electron_with_dataset)
               (snd electron_with_dataset) = (Ret true, w1) /\
      loadData w1 = (Ret v, w2) /\
      denotes (heap w2) v sample_dataset /\
      denotes (heap w2) (fst electron_with_dataset)
              sample_dataset).
Proof.
  split.
  - apply (saveData_loadData_roundtrip
             (snd browser_with_dataset)
             (fst browser_with_dataset) sample_dataset).
    + vm_compute. reflexivity.
    + vm_compute. reflexivity.
    + exact I.
  - apply (saveData_loadData_roundtrip
             (snd electron_with_dataset)
             (fst electron_with_dataset) sample_dataset).
    + vm_compute. reflexivity.
    + vm_compute. reflexivity.
    + exists [("data", sample_dataset)], [("data", sample_dataset)],
        [("data", sample_dataset)].
      repeat split.
Defined.

Lemma or_empty_array_truthy {H} (x : val) :
  truthy x = true -> @or_empty_array H x = ret x.
Proof. intros Hx. unfold or_empty_array. now rewrite Hx. Qed.

(** C7. For any transaction sequence [T] (a value that stands for the JSON
    array [j]), [saveCustomerTransactions(T)] then
    [loadCustomerTransactions()] yields a value deep-equal to [T], and
    likewise for the supplier log.  In the browser this holds outright; under
    Electron it holds when the host keeps what it is given. *)
Theorem saveTransactions_loadTransactions_roundtrip
        {H} (w : world H) (T : val) (j : json) :
  valid_transactions j = true ->
  denotes (heap w) T j ->
  backend_keeps w (fun api => api_saveTransactions api "customer")
                "customerTransactions" j ->
  backend_keeps w (fun api => api_saveTransactions api "supplier")
                "supplierTransactions" j ->
  (exists w1 v w2,
      saveCustomerTransactions T w = (Ret true, w1) /\
      loadCustomerTransactions w1 = (Ret v, w2) /\
      denotes (heap w2) v j /\ denotes (heap w2) T j) /\
  (exists w1 v w2,
      saveSupplierTransactions T w = (Ret true, w1) /\
      loadSupplierTransactions w1 = (Ret v, w2) /\
      denotes (heap w2) v j /\ denotes (heap w2) T j).
Proof.
  intros Hv Hd Hc Hs. unfold valid_transactions in Hv.
  apply andb_true_iff in Hv as [Hwf Hshape].
  assert (Ht : jtruthy j = true) by (now destruct j).
  unfold backend_keeps in Hc, Hs.
  destruct (electronAPI w) as [api|] eqn:He; split.
  - destruct Hc as (s1 & s2 & fs & Hsave & Hload & Hf).
    destruct (load_electron (set_hostState s1 w) api fs s2
                "customerTransactions" j or_empty_array
                (fun _ => new_cell (CArray [])) Hload Hf Ht
                or_empty_array_truthy) as (x & h2 & Hl & Hx).
    exists (set_hostState s1 w). eexists x, _. split; [|split; [|split]].
    + rewrite <- (save_electron w (api_saveTransactions api "customer")
                                T j s1 Hd Hsave).
      unfold saveCustomerTransactions, try_catch, bind, get_electronAPI.
      now rewrite He.
    + etransitivity; [|exact Hl].
      unfold loadCustomerTransactions, try_catch, bind, get_electronAPI.
      cbn [electronAPI set_hostState]. now rewrite He.
    + exact Hx.
    + now apply denotes_extend.
  - destruct Hs as (s1 & s2 & fs & Hsave & Hload & Hf).
    destruct (load_electron (set_hostState s1 w) api fs s2
                "supplierTransactions" j or_empty_array
                (fun _ => new_cell (CArray [])) Hload Hf Ht
                or_empty_array_truthy) as (x & h2 & Hl & Hx).
    exists (set_hostState s1 w). eexists x, _. split; [|split; [|split]].
    + rewrite <- (save_electron w (api_saveTransactions api "supplier")
                                T j s1 Hd Hsave).
      unfold saveSupplierTransactions, try_catch, bind, get_electronAPI.
      now rewrite He.
    + etransitivity; [|exact Hl].
      unfold loadSupplierTransactions, try_catch, bind, get_electronAPI.
      cbn [electronAPI set_hostState]. now rewrite He.
    + exact Hx.
    + now apply denotes_extend.
  - destruct (browser_roundtrip w "data/customerTransactions.json" j
                (new_cell (CArray [])) (fun _ => new_cell (CArray [])) Hwf)
      as (v & h2 & Hl & Hx).
    eexists _, v, _. split; [|split; [|split]].
    + exact (saveCustomerTransactions_browser w T j He Hd).
    + rewrite loadCustomerTransactions_browser by exact He. exact Hl.
    + exact Hx.
    + now apply denotes_extend.
  - destruct (browser_roundtrip w "data/supplierTransactions.json" j
                (new_cell (CArray [])) (fun _ => new_cell (CArray [])) Hwf)
      as (v & h2 & Hl & Hx).
    eexists _, v, _. split; [|split; [|split]].
    + exact (saveSupplierTransactions_browser w T j He Hd).
    + rewrite loadSupplierTransactions_browser by exact He. exact Hl.
    + exact Hx.
    + now apply denotes_extend.
Qed.

Lemma saveTransactions_loadTransactions_roundtrip_witness :
  ((exists w1 v w2,
       saveCustomerTransactions (fst browser_with_transactions)
                                (snd browser_with_transactions) = (Ret true, w1) /\
       loadCustomerTransactions w1 = (Ret v, w2) /\
       denotes (heap w2) v sample_transactions /\
       denotes (heap w2) (fst browser_with_transactions) sample_transactions) /\
   (exists w1 v w2,
       saveSupplierTransactions (fst browser_with_transactions)
                                (snd browser_with_transactions) = (Ret true, w1) /\
       loadSupplierTransactions w1 = (Ret v, w2) /\
       denotes (heap w2) v sample_transactions /\
       denotes (heap w2) (fst browser_with_transactions) sample_transactions)) /\
  ((exists w1 v w2,
       saveCustomerTransactions (fst electron_with_transactions)
                                (snd electron_with_transactions) = (Ret true, w1) /\
       loadCustomerTransactions w1 = (Ret v, w2) /\
       denotes (heap w2) v sample_transactions /\
       denotes (heap w2) (fst electron_with_transactions) sample_transactions) /\
   (exists w1 v w2,
       saveSupplierTransactions (fst electron_with_transactions)
                                (snd electron_with_transactions) = (Ret true, w1) /\
       loadSupplierTransactions w1 = (Ret v, w2) /\
       denotes (heap w2) v sample_transactions /\
       denotes (heap w2) (fst electron_with_transactions) sample_transactions)).
Proof.
  split.
  - apply (saveTransactions_loadTransactions_roundtrip
             (snd browser_with_transactions) (fst browser_with_transactions)
             sample_transactions).
    + vm_compute. reflexivity.
    + vm_compute. reflexivity.
    + exact I.
    + exact I.
  - apply (saveTransactions_loadTransactions_roundtrip
             (snd electron_with_transactions) (fst electron_with_transactions)
             sample_transactions).
    + vm_compute. reflexivity.
    + vm_compute. reflexivity.
    + exists [("customerTransactions", sample_transactions)],
        [("customerTransactions", sample_transactions)],
        [("customerTransactions", sample_transactions)].
      repeat split.
    + exists [("supplierTransactions", sample_transactions)],
        [("supplierTransactions", sample_transactions)],
        [("supplierTransactions", sample_transactions)].
      repeat split.
Defined.

(** *** Import *)

Lemma get_field_extend h h2 l k :
  is_Some (h !! l) -> get_field (h ++ h2) (VRef l) k = get_field h (VRef l) k.
Proof.
  intros [c Hc]. unfold get_field. now rewrite (lookup_app_l_Some _ _ _ _ Hc), Hc.
Qed.

Lemma JSON_parse_object {H} (w : world H) text fs :
  parse text = Some (JObj fs) ->
  exists v h2,
    JSON_parse text w = (Ret v, set_heap (heap w ++ h2) w) /\
    reads_as (heap w ++ h2) v fs.
Proof.
  intros Hp. unfold JSON_parse. rewrite Hp.
  destruct (alloc_json (JObj fs) (heap w)) as [v h'] eqn:Ha.
  destruct (alloc_json_denotes _ _ _ _ Ha) as (_ & h2 & ->).
  exists v, h2. split; [reflexivity|]. intros k h3.
  pose proof (get_field_alloc_obj _ _ _ _ k Ha) as Hg.
  destruct (alloc_json_obj _ _ _ _ Ha) as (vs & h0 & -> & Heq & _).
  rewrite get_field_extend; [exact Hg|].
  rewrite Heq, lookup_app_r, Nat.sub_diag by lia. eauto.
Qed.

Lemma read_field_reads {H} (w : world H) h h3 v fs k :
  reads_as h v fs -> heap w = h ++ h3 ->
  exists x, read_field v k w = (Ret x, w) /\
            match assoc k fs with
            | Some j => denotes h x j /\ truthy x = jtruthy j
            | None => x = VUndefined
            end.
Proof.
  intros Hr Hh. specialize (Hr k h3). unfold read_field. rewrite Hh.
  destruct (assoc k fs) as [j|].
  - destruct Hr as (x & -> & Hx). eauto.
  - rewrite Hr. eauto.
Qed.

Lemma read_field_truthy {H} (w : world H) h h3 v fs k :
  reads_as h v fs -> heap w = h ++ h3 ->
  exists x, read_field v k w = (Ret x, w) /\ truthy x = field_truthy k fs.
Proof.
  intros Hr Hh. destruct (read_field_reads w h h3 v fs k Hr Hh) as (x & Hx & Hk).
  exists x. split; [exact Hx|]. unfold field_truthy.
  destruct (assoc k fs); [tauto | now subst].
Qed.

(** Validation: an import whose object lacks a truthy [products],
    [customers] or [sellers] is rejected before anything is saved. *)
Lemma importData_rejects {H} (w : world H) text fs :
  parse text = Some (JObj fs) ->
  field_truthy "products" fs && field_truthy "customers" fs
    && field_truthy "sellers" fs = false ->
  exists h2,
    importData (Some text) w
    = (Throw (Error "Invalid data structure"), set_heap (heap w ++ h2) w).
Proof.
  intros Hp Hf.
  destruct (JSON_parse_object w text fs Hp) as (v & h2 & Hv & Hr).
  exists h2. set (w1 := set_heap (heap w ++ h2) w) in *.
  assert (Hh : heap w1 = (heap w ++ h2) ++ [])
    by exact (eq_sym (app_nil_r (heap w ++ h2))).
  destruct (read_field_truthy w1 _ _ v fs "products" Hr Hh) as (p & Hrp & Htp).
  destruct (read_field_truthy w1 _ _ v fs "customers" Hr Hh) as (c & Hrc & Htc).
  destruct (read_field_truthy w1 _ _ v fs "sellers" Hr Hh) as (s & Hrs & Hts).
  unfold importData, try_catch, bind. rewrite Hv, Hrp, Hrc, Hrs.
  rewrite Htp, Htc, Hts.
  rewrite <- !negb_andb, Hf. reflexivity.
Qed.

(** C2. An import whose object lacks one of [products], [customers],
    [sellers] is rejected with the error "Invalid data structure" and writes
    nothing: [localStorage] and the state of the host are as before. *)
Theorem importData_missing_field_rejected
        {H} (w : world H) (text : string) (fs : list (string * json)) :
  parse text = Some (JObj fs) ->
  assoc "products" fs = None \/ assoc "customers" fs = None
  \/ assoc "sellers" fs = None ->
  exists w',
    importData (Some text) w = (Throw (Error "Invalid data structure"), w') /\
    localStorage w' = localStorage w /\ hostState w' = hostState w.
Proof.
  intros Hp Habs.
  destruct (importData_rejects w text fs Hp) as (h2 & Hi).
  - unfold field_truthy.
    destruct Habs as [-> | [-> | ->]]; rewrite ?andb_false_r; reflexivity.
  - eexists. split; [exact Hi|]. split; reflexivity.
Qed.

Lemma importData_missing_field_rejected_witness :
  exists w',
    importData (Some import_without_sellers) stocked_world
    = (Throw (Error "Invalid data structure"), w') /\
    localStorage w' = localStorage stocked_world /\
    hostState w' = hostState stocked_world.
Proof.
  apply (importData_missing_field_rejected stocked_world
           import_without_sellers
           [("products", JArr [JObj [("id", JNum 1 0)]]); ("customers", JArr [])]).
  - vm_compute. reflexivity.
  - right. right. reflexivity.
Defined.

Lemma importData_fallback_unused {H} (file : option string) (w : world H) :
  importData file w = importData_without_fallback file w.
Proof.
  destruct file as [text|]; [|reflexivity].
  unfold importData, importData_without_fallback, try_catch, bind.
  destruct (JSON_parse text w) as [[v|e] w1]; [|reflexivity].
  destruct (read_field v "products" w1) as [[p|e] w2]; [|reflexivity].
  destruct (read_field v "customers" w2) as [[c|e] w3]; [|reflexivity].
  destruct (read_field v "sellers" w3) as [[s|e] w4]; [|reflexivity].
  unfold or_empty_array.
  destruct (truthy p), (truthy c), (truthy s); reflexivity.
Qed.



Lemma set_localStorage_same {H} (w : world H) :
  set_localStorage (localStorage w) w = w.
Proof. now destruct w. Qed.

Lemma set_localStorage_twice {H} (w : world H) s s' :
  set_localStorage s' (set_localStorage s w) = set_localStorage s' w.
Proof. reflexivity. Qed.

(** Each save method, in either environment. *)
Lemma save_any {H} (w : world H) key
      (call : HostAPI H -> option json -> H -> settled unit * H) v j :
  denotes (heap w) v j ->
  exists b,
    try_catch
      (let* api := get_electronAPI in
       match api with
       | Some api => let* d := send v in await (call api d) ;; ret true
       | None => let* text := JSON_stringify v in setItem key text ;; ret true
       end)
      (fun _ => ret false) w
    = (Ret b, after_save key call j w).
Proof.
  intros Hd. unfold try_catch, bind, get_electronAPI, after_save.
  destruct (electronAPI w) as [api|].
  - unfold send, await. unfold denotes in Hd. rewrite Hd.
    destruct (call api (Some j) (hostState w)) as [[[]|] s1]; eexists;
      reflexivity.
  - rewrite (JSON_stringify_denotes _ _ _ Hd). eexists. reflexivity.
Qed.

Lemma heap_after_save {H} (w : world H) key call j :
  heap (after_save key call j w) = heap w.
Proof. unfold after_save. now destruct (electronAPI w). Qed.

Lemma heap_after_save_if {H} (w : world H) key call oj :
  heap (after_save_if key call oj w) = heap w.
Proof.
  unfold after_save_if. destruct oj as [j|]; [|reflexivity].
  destruct (jtruthy j); [apply heap_after_save | reflexivity].
Qed.

(** [if (importData.k) await save(importData.k)] *)
Lemma import_log_step {H A} (w : world H) h h3 v fs k key call
      (save : val -> M bool) (rest : M A) :
  reads_as h v fs -> heap w = h ++ h3 ->
  (forall x j, denotes (heap w) x j ->
     exists b, save x w = (Ret b, after_save key call j w)) ->
  (let* x := read_field v k in
   (if truthy x then save x ;; ret tt else ret tt) ;; rest) w
  = rest (after_save_if key call (assoc k fs) w).
Proof.
  intros Hr Hh Hsave.
  destruct (read_field_reads w h h3 v fs k Hr Hh) as (x & Hx & Hk).
  unfold bind. rewrite Hx. unfold after_save_if.
  destruct (assoc k fs) as [j|].
  - destruct Hk as [Hd Ht]. rewrite Ht. destruct (jtruthy j); [|reflexivity].
    destruct (Hsave x j) as (b & ->); [|reflexivity].
    rewrite Hh. now apply denotes_extend.
  - subst x. reflexivity.
Qed.

(** An import that passes the validation, in either environment. *)
Lemma importData_accepts {H} (w : world H) text fs jp jc js :
  parse text = Some (JObj fs) ->
  assoc "products" fs = Some jp -> assoc "customers" fs = Some jc ->
  assoc "sellers" fs = Some js ->
  jtruthy jp = true -> jtruthy jc = true -> jtruthy js = true ->
  exists h2,
    importData (Some text) w
    = (Ret true, after_import fs jp jc js (set_heap (heap w ++ h2) w)).
Proof.
  intros Hp Hfp Hfc Hfs Htp Htc Hts.
  rewrite importData_fallback_unused.
  destruct (JSON_parse_object w text fs Hp) as (v & h2 & Hv & Hr).
  set (w1 := set_heap (heap w ++ h2) w) in *.
  assert (Hh : heap w1 = (heap w ++ h2) ++ [])
    by exact (eq_sym (app_nil_r (heap w ++ h2))).
  destruct (read_field_reads w1 _ _ v fs "products" Hr Hh) as (p & Hrp & Hkp).
  destruct (read_field_reads w1 _ _ v fs "customers" Hr Hh) as (c & Hrc & Hkc).
  destruct (read_field_reads w1 _ _ v fs "sellers" Hr Hh) as (s & Hrs & Hks).
  rewrite Hfp in Hkp. rewrite Hfc in Hkc. rewrite Hfs in Hks.
  destruct Hkp as [Hdp Hp']. destruct Hkc as [Hdc Hc']. destruct Hks as [Hds Hs'].
  set (cell := CObject [("products", p); ("customers", c); ("sellers", s)]).
  set (w2 := set_heap (heap w1 ++ [cell]) w1).
  set (ds := JObj [("products", jp); ("customers", jc); ("sellers", js)]).
  assert (Hds' : denotes (heap w2) (VRef (length (heap w1))) ds).
  { apply denotes_new_object. repeat constructor; assumption. }
  set (w3 := after_save "data/perfectWoodData.json" (@api_saveData H) ds w2).
  destruct (save_any w2 "data/perfectWoodData.json" (@api_saveData H) _ ds Hds')
    as (b & Hsave).
  change (saveData (VRef (length (heap w1))) w2 = (Ret b, w3)) in Hsave.
  assert (Hh3 : heap w3 = (heap w ++ h2) ++ [cell])
    by (unfold w3; now rewrite heap_after_save).
  pose proof (fun A rest =>
                @import_log_step H A w3 _ _ v fs "customerTransactions"
                  "data/customerTransactions.json"
                  (fun api => api_saveTransactions api "customer")
                  saveCustomerTransactions rest Hr Hh3) as Hct.
  set (w4 := after_save_if "data/customerTransactions.json"
               (fun api => api_saveTransactions api "customer")
               (assoc "customerTransactions" fs) w3) in *.
  assert (Hh4 : heap w4 = (heap w ++ h2) ++ [cell])
    by (unfold w4; now rewrite heap_after_save_if).
  pose proof (fun A rest =>
                @import_log_step H A w4 _ _ v fs "supplierTransactions"
                  "data/supplierTransactions.json"
                  (fun api => api_saveTransactions api "supplier")
                  saveSupplierTransactions rest Hr Hh4) as Hst.
  exists (h2 ++ [cell]).
  unfold importData_without_fallback, try_catch.
  unfold bind at 1. rewrite Hv.
  unfold bind at 1. rewrite Hrp.
  unfold bind at 1. rewrite Hrc.
  unfold bind at 1. rewrite Hrs.
  rewrite Hp', Hc', Hs', Htp, Htc, Hts.
  unfold bind at 1. cbn [negb orb ret].
  unfold bind at 1. unfold new_cell at 1, alloc. fold cell. fold w2.
  unfold bind at 1. rewrite Hsave.
  rewrite Hct by (intros x j Hx; exact (save_any w3 _ _ x j Hx)).
  rewrite Hst by (intros x j Hx; exact (save_any w4 _ _ x j Hx)).
  unfold ret. f_equal. unfold w4, w3, w2, w1, after_import. fold ds.
  unfold set_heap at 2. cbn [heap localStorage defaultData electronAPI hostState].
  unfold set_heap. cbn [heap localStorage defaultData electronAPI hostState].
  now rewrite <- app_assoc.
Qed.

(** C6. An import whose object has sequences [products], [customers],
    [sellers] and neither [customerTransactions] nor [supplierTransactions]
    resolves [true] and saves one dataset, with exactly those three members.
    In the browser the dataset key holds its text and every other key of
    [localStorage], the two transaction logs among them, is as before;
    [loadData] then returns what that text reads back as, which is the
    dataset itself when it is JSON data, and has [null] where the file had a
    number beyond the range of a Number.  Under Electron [localStorage] is
    as before and the one call the host receives is [saveData] with that
    dataset. *)
Theorem importData_keeps_transaction_logs
        {H} (w : world H) (text : string) (fs : list (string * json))
        (ps cs ss : list json) :
  parse text = Some (JObj fs) ->
  assoc "products" fs = Some (JArr ps) ->
  assoc "customers" fs = Some (JArr cs) ->
  assoc "sellers" fs = Some (JArr ss) ->
  assoc "customerTransactions" fs = None ->
  assoc "supplierTransactions" fs = None ->
  exists w',
    importData (Some text) w = (Ret true, w') /\
    localStorage w' !! "data/customerTransactions.json"
    = localStorage w !! "data/customerTransactions.json" /\
    localStorage w' !! "data/supplierTransactions.json"
    = localStorage w !! "data/supplierTransactions.json" /\
    match electronAPI w with
    | None =>
        localStorage w'
        = <["data/perfectWoodData.json" :=
              stringify (JObj [("products", JArr ps); ("customers", JArr cs);
                               ("sellers", JArr ss)])]> (localStorage w) /\
        hostState w' = hostState w /\
        exists v w2,
          loadData w' = (Ret v, w2) /\
          denotes (heap w2) v
                  (stored_as (JObj [("products", JArr ps); ("customers", JArr cs);
                                    ("sellers", JArr ss)])) /\
          (wf (JObj [("products", JArr ps); ("customers", JArr cs);
                     ("sellers", JArr ss)]) = true ->
           denotes (heap w2) v
                   (JObj [("products", JArr ps); ("customers", JArr cs);
                          ("sellers", JArr ss)]))
    | Some api =>
        localStorage w' = localStorage w /\
        hostState w'
        = snd (api_saveData api
                 (Some (JObj [("products", JArr ps); ("customers", JArr cs);
                              ("sellers", JArr ss)]))
                 (hostState w))
    end.
Proof.
  intros Hp Hfp Hfc Hfs Hct Hst.
  destruct (importData_accepts w text fs _ _ _ Hp Hfp Hfc Hfs)
    as (h2 & Hi); try reflexivity.
  assert (Hwf : unique_keys (JObj [("products", JArr ps); ("customers", JArr cs);
                                   ("sellers", JArr ss)]) = true).
  { pose proof (parse_unique_keys _ _ Hp) as Hfs'.
    pose proof (unique_keys_member fs _ _ Hfs' (assoc_In _ _ _ Hfp)) as Hwp.
    pose proof (unique_keys_member fs _ _ Hfs' (assoc_In _ _ _ Hfc)) as Hwc.
    pose proof (unique_keys_member fs _ _ Hfs' (assoc_In _ _ _ Hfs)) as Hws.
    cbn [unique_keys forallb map fst snd] in *. rewrite Hwp, Hwc, Hws.
    reflexivity. }
  eexists. split; [exact Hi|].
  unfold after_import. rewrite Hct, Hst. cbn [after_save_if].
  unfold after_save. cbn [electronAPI set_heap].
  destruct (electronAPI w) as [api|] eqn:He.
  - repeat split.
  - cbn [localStorage set_localStorage set_heap hostState].
    split; [now apply lookup_insert_ne|].
    split; [now apply lookup_insert_ne|].
    split; [reflexivity|]. split; [reflexivity|].
    destruct (browser_roundtrip_stored (set_heap (heap w ++ h2) w)
                "data/perfectWoodData.json" _
                spread_defaultData (fun _ => spread_defaultData) Hwf)
      as (v & h3 & Hl & Hx).
    eexists v, _. split; [|split].
    + rewrite loadData_browser by exact He. exact Hl.
    + exact Hx.
    + intros Hw. rewrite (stored_as_wf _ Hw) in Hx. exact Hx.
Qed.

Lemma importData_keeps_transaction_logs_witness :
  (exists w',
      importData (Some import_of_three_fields) stocked_world = (Ret true, w') /\
      localStorage w' !! "data/customerTransactions.json"
      = localStorage stocked_world !! "data/customerTransactions.json" /\
      localStorage w' !! "data/supplierTransactions.json"
      = localStorage stocked_world !! "data/supplierTransactions.json" /\
      localStorage w'
      = <["data/perfectWoodData.json" := import_of_three_fields]>
          (localStorage stocked_world) /\
      hostState w' = hostState stocked_world /\
      exists v w2,
        loadData w' = (Ret v, w2) /\
        denotes (heap w2) v
                (stored_as
                   (JObj [("products", JArr [JObj [("id", JNum 1 0)]]);
                          ("customers", JArr []); ("sellers", JArr [])])) /\
        (wf (JObj [("products", JArr [JObj [("id", JNum 1 0)]]);
                   ("customers", JArr []); ("sellers", JArr [])]) = true ->
         denotes (heap w2) v
                 (JObj [("products", JArr [JObj [("id", JNum 1 0)]]);
                        ("customers", JArr []); ("sellers", JArr [])]))) /\
  (exists w',
      importData (Some import_of_three_fields) stocked_electron_world
      = (Ret true, w') /\
      localStorage w' !! "data/customerTransactions.json"
      = localStorage stocked_electron_world !! "data/customerTransactions.json" /\
      localStorage w' !! "data/supplierTransactions.json"
      = localStorage stocked_electron_world !! "data/supplierTransactions.json" /\
      localStorage w' = localStorage stocked_electron_world /\
      hostState w'
      = snd (api_saveData memory_host
               (Some (JObj [("products", JArr [JObj [("id", JNum 1 0)]]);
                            ("customers", JArr []); ("sellers", JArr [])]))
               (hostState stocked_electron_world))).
Proof.
  split.
  - apply (importData_keeps_transaction_logs stocked_world
             import_of_three_fields
             [("products", JArr [JObj [("id", JNum 1 0)]]);
              ("customers", JArr []); ("sellers", JArr [])]).
    + vm_compute. reflexivity.
    + reflexivity.
    + reflexivity.
    + reflexivity.
    + reflexivity.
    + reflexivity.
  - apply (importData_keeps_transaction_logs stocked_electron_world
             import_of_three_fields
             [("products", JArr [JObj [("id", JNum 1 0)]]);
              ("customers", JArr []); ("sellers", JArr [])]).
    + vm_compute. reflexivity.
    + reflexivity.
    + reflexivity.
    + reflexivity.
    + reflexivity.
    + reflexivity.
Defined.

(** *** Defaults *)

(** A shallow copy of an object stands for the same tree. *)
Lemma denotes_copy h l fs j :
  h !! l = Some (CObject fs) -> denotes h (VRef l) j ->
  denotes (h ++ [CObject fs]) (VRef (length h)) j.
Proof.
  unfold denotes. cbn [reify]. intros Hl. rewrite Hl.
  rewrite lookup_app_r, Nat.sub_diag by lia. cbn [lookup list_lookup].
  destruct (mapM _ fs) as [ms|] eqn:Hm; [|discriminate]. intros Hj.
  erewrite mapM_weaken; [exact Hj | | exact Hm].
  intros [k x] y. simpl.
  destruct (reify (length h) h x) as [jx|] eqn:Hx; [|discriminate].
  intros Hy. rewrite (reify_weaken _ _ _ _ _ _ Hx); [exact Hy|].
  rewrite length_app. simpl. lia.
Qed.

Section Defaults.
Context {H : Type}.
Implicit Type w : world H.

Lemma spread_defaultData_intact w :
  default_intact w ->
  exists c,
    spread_defaultData w
    = (Ret (VRef (length (heap w))), set_heap (heap w ++ [c]) w) /\
    denotes (heap w ++ [c]) (VRef (length (heap w))) default_tree.
Proof.
  intros Hd. unfold spread_defaultData, alloc, own_fields.
  pose proof Hd as Hd'. unfold default_intact, denotes in Hd'. cbn [reify] in Hd'.
  destruct (heap w !! defaultData w) as [[xs|fs]|] eqn:Hl.
  - destruct (mapM _ xs); discriminate.
  - eexists. split; [reflexivity|]. now apply (denotes_copy _ (defaultData w)).
  - discriminate.
Qed.

Lemma new_array w :
  new_cell (CArray []) w
  = (Ret (VRef (length (heap w))), set_heap (heap w ++ [CArray []]) w).
Proof. reflexivity. Qed.

(** [loadData] in the browser when the key holds nothing usable. *)
Lemma loadData_default w :
  electronAPI w = None ->
  match localStorage w !! "data/perfectWoodData.json" with
  | Some s => s = EmptyString \/ parse s = None
  | None => True
  end ->
  loadData w = spread_defaultData w.
Proof.
  intros He Hs. rewrite loadData_browser by exact He. unfold try_catch.
  destruct (localStorage w !! "data/perfectWoodData.json") as [s|];
    [|reflexivity].
  unfold if_item. destruct (String.eqb_spec s EmptyString) as [->|Hne].
  - reflexivity.
  - destruct Hs as [?|Hp]; [contradiction|].
    unfold JSON_parse. now rewrite Hp.
Qed.

Lemma load_log_default w key :
  match localStorage w !! key with
  | Some s => s = EmptyString \/ parse s = None
  | None => True
  end ->
  try_catch (if_item (localStorage w !! key) JSON_parse (new_cell (CArray [])))
            (fun _ => new_cell (CArray [])) w
  = (Ret (VRef (length (heap w))), set_heap (heap w ++ [CArray []]) w).
Proof.
  intros Hs. unfold try_catch.
  destruct (localStorage w !! key) as [s|]; [|reflexivity].
  unfold if_item. destruct (String.eqb_spec s EmptyString) as [->|Hne].
  - reflexivity.
  - destruct Hs as [?|Hp]; [contradiction|].
    unfold JSON_parse. now rewrite Hp.
Qed.

End Defaults.

(** C5 (code defect). With text that is not JSON under the dataset key,
    [loadData] does not throw and returns a new object with the members of
    the [defaultData] object.  That is the Default Dataset only until a
    caller changes an array of an earlier result: after a push onto the
    [products] of the value that a first [loadData] returned, the next
    [loadData], the key holding the same text, returns a dataset with the
    pushed element, which is not the Default Dataset. *)
Theorem loadData_corrupt_returns_shared_default :
  parse corrupt_text = None /\
  (exists v w', loadData corrupt_world = (Ret v, w')
                /\ denotes (heap w') v default_tree) /\
  (exists v w', load_push_load (VStr "intruder") corrupt_world = (Ret v, w')
                /\ localStorage w' = localStorage corrupt_world
                /\ denotes (heap w') v intruded_tree
                /\ ~ denotes (heap w') v default_tree).
Proof.
  split; [vm_compute; reflexivity|]. split.
  - eexists _, _. split; vm_compute; reflexivity.
  - eexists _, _. split; [vm_compute; reflexivity|].
    split; [reflexivity|]. split; [vm_compute; reflexivity|].
    intros Hd. vm_compute in Hd. discriminate.
Qed.

Lemma read_host_field_truthy {H} (w : world H) fs field :
  exists x h2,
    bind (receive (Some (JObj fs))) (fun result => read_field result field) w
    = (Ret x, set_heap (heap w ++ h2) w) /\
    truthy x = field_truthy field fs.
Proof.
  destruct (receive_Some w (JObj fs)) as (v & h2 & Hr & Ha).
  pose proof (get_field_alloc_obj _ _ _ _ field Ha) as Hg.
  unfold bind. rewrite Hr. unfold read_field, field_truthy.
  cbn [heap set_heap].
  destruct (assoc field fs) as [j|].
  - destruct Hg as (x & -> & _ & Ht). eauto.
  - rewrite Hg. eauto.
Qed.

Lemma clearAllData_browser {H} (w : world H) :
  electronAPI w = None ->
  clearAllData w
  = (Ret true,
     set_localStorage
       (delete "data/supplierTransactions.json"
          (delete "data/customerTransactions.json"
             (delete "data/perfectWoodData.json" (localStorage w)))) w).
Proof.
  intros He. unfold clearAllData, try_catch, bind, get_electronAPI.
  now rewrite He.
Qed.

Lemma clearAllData_world {H} (w w1 : world H) b :
  clearAllData w = (Ret b, w1) ->
  heap w1 = heap w /\ defaultData w1 = defaultData w
  /\ electronAPI w1 = electronAPI w.
Proof.
  unfold clearAllData, try_catch, bind, get_electronAPI, await.
  destruct (electronAPI w) as [api|] eqn:He.
  - destruct (api_clearAllData api (hostState w)) as [[[]|] s];
      intros Hc; injection Hc as _ <-; now rewrite ?He.
  - intros Hc. injection Hc as _ <-. now rewrite ?He.
Qed.

(** C8 (code defect). [clearAllData] empties the backend and returns
    [true], but the [loadData] that follows returns the Default Dataset only
    if no caller has changed an array of an earlier result.  A caller that
    loads from an empty backend, pushes onto the [products] it was given,
    saves, clears all data and loads again is handed a dataset with the
    pushed element, in the browser and under Electron. *)
Theorem clearAllData_then_load_shared_default :
  (exists v w',
      load_push_clear_load (VStr "intruder") browser_world = (Ret (true, v), w')
      /\ localStorage w' = ∅
      /\ denotes (heap w') v intruded_tree
      /\ ~ denotes (heap w') v default_tree) /\
  (exists v w',
      load_push_clear_load (VStr "intruder") electron_world = (Ret (true, v), w')
      /\ hostState w' = []
      /\ denotes (heap w') v intruded_tree
      /\ ~ denotes (heap w') v default_tree).
Proof.
  split.
  - eexists _, _. split; [vm_compute; reflexivity|].
    split; [reflexivity|]. split; [vm_compute; reflexivity|].
    intros Hd. vm_compute in Hd. discriminate.
  - eexists _, _. split; [vm_compute; reflexivity|].
    split; [reflexivity|]. split; [vm_compute; reflexivity|].
    intros Hd. vm_compute in Hd. discriminate.
Qed.

Lemma if_item_setItem {H A} (item : option string) to (rest : M A) (w : world H) :
  (if_item item (setItem to) (ret tt) ;; rest) w
  = rest (set_localStorage (copy_item item to (localStorage w)) w).
Proof.
  unfold bind, if_item, copy_item. destruct item as [s|].
  - destruct (String.eqb s EmptyString); [|reflexivity].
    unfold ret. now rewrite set_localStorage_same.
  - unfold ret. now rewrite set_localStorage_same.
Qed.

Lemma migrateFromLocalStorage_store {H} (w : world H) :
  migrateFromLocalStorage w
  = (Ret tt, set_localStorage (migrated (localStorage w)) w).
Proof.
  unfold migrateFromLocalStorage.
  unfold bind at 1, getItem at 1. unfold bind at 1, getItem at 1.
  unfold bind at 1, getItem at 1.
  rewrite !if_item_setItem.
  unfold if_item, copy_item, migrated, copy_item.
  cbn [localStorage set_localStorage].
  destruct (localStorage w !! "supplierTransactions") as [s|]; [|].
  - destruct (String.eqb s EmptyString); unfold ret, setItem;
      now rewrite ?set_localStorage_same.
  - unfold ret. cbn. reflexivity.
Qed.

Lemma initialize_browser {H} (w : world H) :
  electronAPI w = None ->
  initialize w = (Ret tt, set_localStorage (migrated (localStorage w)) w).
Proof.
  intros He. unfold initialize, try_catch, bind, get_electronAPI.
  now rewrite He, migrateFromLocalStorage_store.
Qed.

Lemma copy_item_lookup item to ls k :
  k <> to -> copy_item item to ls !! k = ls !! k.
Proof.
  intros Hk. unfold copy_item. destruct item as [s|]; [|reflexivity].
  destruct (String.eqb s EmptyString); [reflexivity|].
  now apply lookup_insert_ne.
Qed.

Lemma copy_item_same item to ls :
  (forall s, item = Some s -> s <> EmptyString -> ls !! to = Some s) ->
  copy_item item to ls = ls.
Proof.
  intros Hs. unfold copy_item. destruct item as [s|]; [|reflexivity].
  destruct (String.eqb_spec s EmptyString); [reflexivity|].
  apply insert_id. now apply Hs.
Qed.

Lemma copy_item_copied s to ls :
  s <> EmptyString -> copy_item (Some s) to ls !! to = Some s.
Proof.
  intros Hs. unfold copy_item.
  destruct (String.eqb_spec s EmptyString); [contradiction|].
  apply lookup_insert_eq.
Qed.

(** The legacy keys are not written. *)
Lemma migrated_legacy ls from :
  from = "perfectWoodData" \/ from = "customerTransactions"
  \/ from = "supplierTransactions" ->
  migrated ls !! from = ls !! from.
Proof.
  intros Hf. unfold migrated.
  rewrite !copy_item_lookup; [reflexivity | | |];
    destruct Hf as [->|[->| ->]]; discriminate.
Qed.

(** Migrating a migrated store changes nothing. *)
Lemma migrated_idempotent ls : migrated (migrated ls) = migrated ls.
Proof.
  unfold migrated at 1. rewrite !migrated_legacy by tauto.
  rewrite (copy_item_same _ "data/perfectWoodData.json").
  2:{ intros s Hs Hne. unfold migrated.
      rewrite !copy_item_lookup by discriminate.
      rewrite Hs. now apply copy_item_copied. }
  rewrite (copy_item_same _ "data/customerTransactions.json").
  2:{ intros s Hs Hne. unfold migrated.
      rewrite copy_item_lookup by discriminate.
      rewrite Hs. now apply copy_item_copied. }
  apply copy_item_same.
  intros s Hs Hne. unfold migrated. rewrite Hs. now apply copy_item_copied.
Qed.

(** C9. In the browser, with the legacy key [perfectWoodData] populated
    (whether or not the new key is absent), [initialize()] raises no error and
    copies the legacy value to the new key; the legacy keys are left as they
    were, and the [loadData()] that follows returns the legacy value.  A
    second [initialize()] raises no error and changes nothing. *)
Theorem initialize_migrates_legacy_data {H} (w : world H) (s : string) :
  electronAPI w = None ->
  localStorage w !! "perfectWoodData" = Some s ->
  s <> EmptyString ->
  exists w1,
    initialize w = (Ret tt, w1) /\
    localStorage w1 !! "data/perfectWoodData.json" = Some s /\
    localStorage w1 !! "perfectWoodData" = localStorage w !! "perfectWoodData" /\
    localStorage w1 !! "customerTransactions"
    = localStorage w !! "customerTransactions" /\
    localStorage w1 !! "supplierTransactions"
    = localStorage w !! "supplierTransactions" /\
    (forall j, parse s = Some j ->
       exists v w2, loadData w1 = (Ret v, w2) /\ denotes (heap w2) v j
                    /\ localStorage w2 = localStorage w1) /\
    initialize w1 = (Ret tt, w1).
Proof.
  intros He Hs Hne.
  exists (set_localStorage (migrated (localStorage w)) w).
  assert (Hdata : migrated (localStorage w) !! "data/perfectWoodData.json"
                  = Some s).
  { unfold migrated. rewrite !copy_item_lookup by discriminate.
    rewrite Hs. unfold copy_item.
    destruct (String.eqb_spec s EmptyString); [contradiction|].
    apply lookup_insert_eq. }
  split; [now apply initialize_browser|].
  cbn [localStorage set_localStorage].
  split; [exact Hdata|].
  split; [apply migrated_legacy; tauto|].
  split; [apply migrated_legacy; tauto|].
  split; [apply migrated_legacy; tauto|].
  split.
  - intros j Hp.
    destruct (JSON_parse_Some (set_localStorage (migrated (localStorage w)) w)
                              s j Hp) as (v & h2 & Hparse & Hd & _).
    eexists v, _. split.
    + rewrite loadData_browser by exact He. unfold try_catch.
      cbn [localStorage set_localStorage]. rewrite Hdata.
      rewrite if_item_text by exact Hne. now rewrite Hparse.
    + split; [exact Hd | reflexivity].
  - rewrite initialize_browser by exact He.
    cbn [localStorage set_localStorage].
    now rewrite migrated_idempotent, set_localStorage_twice.
Qed.

Lemma initialize_migrates_legacy_data_witness :
  exists w1,
    initialize legacy_world = (Ret tt, w1) /\
    localStorage w1 !! "data/perfectWoodData.json"
    = Some legacy_text /\
    localStorage w1 !! "perfectWoodData"
    = localStorage legacy_world !! "perfectWoodData" /\
    localStorage w1 !! "customerTransactions"
    = localStorage legacy_world !! "customerTransactions" /\
    localStorage w1 !! "supplierTransactions"
    = localStorage legacy_world !! "supplierTransactions" /\
    (forall j,
       parse legacy_text = Some j ->
       exists v w2, loadData w1 = (Ret v, w2) /\ denotes (heap w2) v j
                    /\ localStorage w2 = localStorage w1) /\
    initialize w1 = (Ret tt, w1).
Proof.
  apply (initialize_migrates_legacy_data legacy_world
           legacy_text).
  - reflexivity.
  - reflexivity.
  - discriminate.
Defined.

(** *** Loading never fails outward *)

Lemma is_array_extend h h2 v :
  is_array h v = true -> is_array (h ++ h2) v = true.
Proof.
  destruct v as [| |b|x|s|l]; simpl; try discriminate.
  destruct (h !! l) as [[xs|fs]|] eqn:Hl; try discriminate. intros _.
  now rewrite (lookup_app_l_Some _ _ _ _ Hl).
Qed.

Lemma array_field_extend h h2 v k :
  array_field h v k = true -> array_field (h ++ h2) v k = true.
Proof.
  unfold array_field, get_field.
  destruct v as [| |b|x|s|l]; try discriminate.
  destruct (h !! l) as [[xs|fs]|] eqn:Hl; try discriminate.
  rewrite (lookup_app_l_Some _ _ _ _ Hl). apply is_array_extend.
Qed.

Lemma is_record_extend h h2 v :
  is_record h v = true -> is_record (h ++ h2) v = true.
Proof.
  unfold is_record. intros Hr.
  apply andb_true_iff in Hr as [Hr Hs]. apply andb_true_iff in Hr as [Hp Hc].
  now rewrite !array_field_extend.
Qed.

Lemma is_array_new h xs : is_array (h ++ [CArray xs]) (VRef (length h)) = true.
Proof.
  unfold is_array. now rewrite lookup_app_r, Nat.sub_diag by lia.
Qed.

(** A value that stands for a sequence is an array. *)
Lemma denotes_is_array h v j :
  denotes h v j -> sequence_shape j = true -> is_array h v = true.
Proof.
  unfold denotes. cbn [reify].
  destruct v as [| |b|x|s|l]; try (intros Hj; injection Hj as <-); try discriminate.
  unfold is_array. destruct (h !! l) as [[xs|fs]|]; try discriminate.
  - reflexivity.
  - destruct (mapM _ fs); [|discriminate]. intros Hj. injection Hj as <-.
    discriminate.
Qed.

(** A value that stands for a dataset is a record of three arrays. *)
Lemma denotes_is_record h v j :
  denotes h v j -> dataset_shape j = true -> is_record h v = true.
Proof.
  unfold denotes. cbn [reify].
  destruct v as [| |b|x|s|l]; try (intros Hj; injection Hj as <-); try discriminate.
  destruct (h !! l) as [[xs|fs]|] eqn:Hl; try discriminate.
  - destruct (mapM _ xs); [|discriminate]. intros Hj. injection Hj as <-.
    discriminate.
  - destruct (mapM _ fs) as [js|] eqn:Hm; [|discriminate].
    intros Hj. injection Hj as <-. apply mapM_Some in Hm.
    assert (Hms : Forall2 (fun kv kj =>
                             fst kv = fst kj /\
                             reify (length h) h (snd kv) = Some (snd kj)) fs js).
    { eapply Forall2_impl; [exact Hm|]. intros [k x] [k' jx]. simpl.
      destruct (reify (length h) h x); [|discriminate].
      intros Hk. now injection Hk as <- <-. }
    assert (Hk : forall k, has_array k js = true -> array_field h (VRef l) k = true).
    { intros k. unfold has_array, array_field, get_field. rewrite Hl.
      pose proof (assoc_members (fun x j => reify (length h) h x = Some j)
                    fs js k Hms) as Ha.
      destruct (assoc k js) as [[| | | |ys|]|]; try discriminate.
      destruct Ha as (x & -> & Hx). intros _. cbn [default].
      apply (denotes_is_array h x (JArr ys)); [|reflexivity].
      unfold denotes. apply (reify_more_fuel _ _ _ _ _ Hx). lia. }
    cbn [dataset_shape]. intros Hs.
    apply andb_true_iff in Hs as [Hs Hs3]. apply andb_true_iff in Hs as [Hs1 Hs2].
    unfold is_record. now rewrite !Hk.
Qed.

(** [{ ...this.defaultData }] never throws, and is a record of three arrays
    when the [defaultData] object is. *)
Lemma spread_defaultData_shaped {H} (w : world H) :
  exists c,
    spread_defaultData w
    = (Ret (VRef (length (heap w))), set_heap (heap w ++ [c]) w) /\
    (default_shaped w -> is_record (heap w ++ [c]) (VRef (length (heap w))) = true).
Proof.
  eexists. split; [reflexivity|].
  unfold default_shaped, is_record. intros Hr.
  apply andb_true_iff in Hr as [Hr Hs]. apply andb_true_iff in Hr as [Hp Hc].
  assert (Hk : forall k, array_field (heap w) (VRef (defaultData w)) k = true ->
                         array_field
                           (heap w ++ [CObject (own_fields (heap w) (defaultData w))])
                           (VRef (length (heap w))) k = true).
  { intros k. unfold array_field, get_field, own_fields.
    destruct (heap w !! defaultData w) as [[xs|fs]|]; try discriminate.
    rewrite lookup_app_r, Nat.sub_diag by lia. cbn [lookup list_lookup].
    apply is_array_extend. }
  now rewrite !Hk.
Qed.

Lemma default_shaped_extend {H} (w : world H) h2 s :
  default_shaped w -> default_shaped (set_heap (heap w ++ h2) (set_hostState s w)).
Proof. unfold default_shaped. cbn. apply is_record_extend. Qed.

(** A loader of the browser. *)
Lemma load_browser_shaped {H} (w : world H) item (no : M val)
      (shape : json -> bool) (P : list cell -> val -> bool) (Q : Prop) :
  (forall h v j, denotes h v j -> shape j = true -> P h v = true) ->
  (exists v w', no w = (Ret v, w') /\ (Q -> P (heap w') v = true)) ->
  exists v w',
    try_catch (if_item item JSON_parse no) (fun _ => no) w = (Ret v, w') /\
    (Q -> usable shape item -> P (heap w') v = true).
Proof.
  intros Hshape (v0 & w0 & Hno & Hv0).
  assert (Hdef : exists v w', no w = (Ret v, w') /\
                              (Q -> usable shape item -> P (heap w') v = true))
    by (exists v0, w0; auto).
  destruct item as [s|];
    [|cbv beta iota delta [try_catch if_item]; rewrite Hno; exists v0, w0; auto].
  destruct (String.eqb_spec s EmptyString) as [->|Hne].
  { unfold try_catch.
    change (if_item (Some EmptyString) JSON_parse no w) with (no w).
    rewrite Hno. exists v0, w0. auto. }
  unfold try_catch. rewrite if_item_text by exact Hne.
  destruct (parse s) as [j|] eqn:Hp.
  - destruct (JSON_parse_Some w s j Hp) as (v & h2 & Hparse & Hd & _).
    rewrite Hparse. eexists _, _. split; [reflexivity|].
    intros _ [?|Hu]; [contradiction|]. rewrite Hp in Hu.
    exact (Hshape _ _ _ Hd Hu).
  - unfold JSON_parse. rewrite Hp, Hno. exists v0, w0. auto.
Qed.

(** Reading a member of what the host resolved with: the read throws for
    [undefined] and [null], and finds nothing in a value that is no
    object. *)
Lemma read_reply_field {H} (w : world H) r field :
  exists h2,
    (bind (receive r) (fun result => read_field result field) w
     = (Throw TypeError, set_heap (heap w ++ h2) w)) \/
    (exists x,
        bind (receive r) (fun result => read_field result field) w
        = (Ret x, set_heap (heap w ++ h2) w) /\
        match r with
        | Some (JObj fs) =>
            match assoc field fs with
            | Some j => denotes (heap w ++ h2) x j /\ truthy x = jtruthy j
            | None => x = VUndefined
            end
        | _ => x = VUndefined
        end).
Proof.
  assert (Hsame : set_heap (heap w ++ []) w = w)
    by (rewrite app_nil_r; now destruct w).
  destruct r as [j|].
  - destruct (receive_Some w j) as (v & h2 & Hr & Ha).
    exists h2. unfold bind. rewrite Hr. unfold read_field. cbn [heap set_heap].
    destruct j as [|b|x|s|xs|fs].
    + simpl in Ha. injection Ha as <- _. now left.
    + simpl in Ha. injection Ha as <- _. right. eauto.
    + simpl in Ha. injection Ha as <- _. right. eauto.
    + simpl in Ha. injection Ha as <- _. right. eauto.
    + right. exists VUndefined. split; [|reflexivity].
      simpl in Ha.
      destruct ((fix go (xs : list json) (h : list cell) := _) xs (heap w))
        as [vs h'].
      unfold alloc in Ha. injection Ha as <- Hh. rewrite <- Hh.
      unfold get_field. now rewrite lookup_app_r, Nat.sub_diag by lia.
    + right. pose proof (get_field_alloc_obj _ _ _ _ field Ha) as Hg.
      destruct (assoc field fs) as [j|].
      * destruct Hg as (x & -> & Hd & Ht). eauto.
      * rewrite Hg. eauto.
  - exists []. rewrite Hsame. now left.
Qed.

(** A loader under Electron. *)
Lemma load_electron_shaped {H} (w : world H) (api : HostAPI H) field
      (fallback handler : @M H val)
      (shape : json -> bool) (P : list cell -> val -> bool) (Q : Prop) :
  (forall h v j, denotes h v j -> shape j = true -> P h v = true) ->
  (forall h2 s, exists v w',
      fallback (set_heap (heap w ++ h2) (set_hostState s w)) = (Ret v, w') /\
      (Q -> P (heap w') v = true)) ->
  (forall h2 s, exists v w',
      handler (set_heap (heap w ++ h2) (set_hostState s w)) = (Ret v, w') /\
      (Q -> P (heap w') v = true)) ->
  exists v w',
    try_catch (let* r := await (api_loadData api) in
               let* result := receive r in
               let* data := read_field result field in
               if truthy data then ret data else fallback)
              (fun _ => handler) w = (Ret v, w') /\
    (Q -> host_usable shape field (fst (api_loadData api (hostState w))) ->
     P (heap w') v = true).
Proof.
  intros Hshape Hfb Hh.
  assert (Hsame : forall s, set_hostState s w
                            = set_heap (heap w ++ []) (set_hostState s w))
    by (intros s; rewrite app_nil_r; reflexivity).
  unfold try_catch. unfold bind at 1. unfold await.
  destruct (api_loadData api (hostState w)) as [[r|] s2]; cbn [fst].
  - destruct (read_reply_field (set_hostState s2 w) r field) as (h2 & Hread).
    change (heap (set_hostState s2 w)) with (heap w) in Hread.
    change (set_heap (heap w ++ h2) (set_hostState s2 w))
      with (set_heap (heap w ++ h2) (set_hostState s2 w)) in Hread.
    unfold bind in Hread |- *.
    destruct (receive r (set_hostState s2 w)) as [[result|e] w1].
    + destruct Hread as [Hread | (x & Hread & Hx)].
      * rewrite Hread. destruct (Hh h2 s2) as (v & w' & -> & Hv).
        exists v, w'. auto.
      * rewrite Hread. destruct (truthy x) eqn:Ht.
        -- eexists _, _. split; [reflexivity|]. intros _ Hu.
           cbn [heap set_heap]. destruct r as [[| | | | |fs]|];
             try (subst x; discriminate).
           cbn [host_usable] in Hu. destruct (assoc field fs) as [j|];
             [|subst x; discriminate].
           destruct Hx as [Hd Htj]. destruct Hu as [Hu|Hu]; [congruence|].
           exact (Hshape _ _ _ Hd Hu).
        -- destruct (Hfb h2 s2) as (v & w' & -> & Hv). exists v, w'. auto.
    + destruct Hread as [Hread | (x & Hread & _)].
      * injection Hread as _ ->. destruct (Hh h2 s2) as (v & w' & -> & Hv).
        exists v, w'. auto.
      * discriminate.
  - rewrite (Hsame s2). destruct (Hh [] s2) as (v & w' & -> & Hv).
    exists v, w'. auto.
Qed.

(** C4 (amended). For every state of the backend and every host, each of
    [loadData], [loadCustomerTransactions], [loadSupplierTransactions]
    returns and does not throw.  What a loader returns has the shape of its
    declared type whenever what the backend holds for it is usable: in the
    browser the text under its key is absent, empty, not JSON, or the JSON
    text of a value of that shape; under Electron the host rejects, or
    resolves with a value in which the member the loader reads is absent,
    falsy or of that shape.  For [loadData], which falls back on the
    [defaultData] object, that object must still be a record whose
    [products], [customers] and [sellers] are arrays, whatever they hold.
    The shape of what was parsed or received is not checked. *)
Theorem loads_never_fail_outward {H} (w : world H) :
  (exists v w',
      loadData w = (Ret v, w') /\
      (default_shaped w ->
       backend_usable dataset_shape "data" "data/perfectWoodData.json" w ->
       is_record (heap w') v = true)) /\
  (exists v w',
      loadCustomerTransactions w = (Ret v, w') /\
      (backend_usable sequence_shape "customerTransactions"
                      "data/customerTransactions.json" w ->
       is_array (heap w') v = true)) /\
  (exists v w',
      loadSupplierTransactions w = (Ret v, w') /\
      (backend_usable sequence_shape "supplierTransactions"
                      "data/supplierTransactions.json" w ->
       is_array (heap w') v = true)).
Proof.
  assert (Hnew : forall w0 : world H, exists v w',
             new_cell (CArray []) w0 = (Ret v, w') /\
             (True -> is_array (heap w') v = true)).
  { intros w0. eexists _, _. split; [reflexivity|]. intros _. apply is_array_new. }
  assert (Hspread : forall h2 s, exists v w',
             spread_defaultData (set_heap (heap w ++ h2) (set_hostState s w))
             = (Ret v, w') /\
             (default_shaped w -> is_record (heap w') v = true)).
  { intros h2 s.
    destruct (spread_defaultData_shaped
                (set_heap (heap w ++ h2) (set_hostState s w))) as (c & Hsp & Hc).
    eexists _, _. split; [exact Hsp|]. intros Hd. apply Hc.
    now apply default_shaped_extend. }
  unfold backend_usable. destruct (electronAPI w) as [api|] eqn:He.
  - split; [|split].
    + destruct (load_electron_shaped w api "data" this_defaultData
                  spread_defaultData dataset_shape is_record (default_shaped w)
                  denotes_is_record) as (v & w' & Hl & Hv).
      * intros h2 s. eexists _, _. split; [reflexivity|].
        intros Hd. now apply is_record_extend.
      * exact Hspread.
      * exists v, w'. split; [|exact Hv].
        unfold loadData, try_catch, bind, get_electronAPI. rewrite He.
        exact Hl.
    + destruct (load_electron_shaped w api "customerTransactions"
                  (new_cell (CArray [])) (new_cell (CArray []))
                  sequence_shape is_array True denotes_is_array)
        as (v & w' & Hl & Hv); try (intros h2 s; apply Hnew).
      exists v, w'. split; [|now apply Hv].
      unfold loadCustomerTransactions, try_catch, bind, get_electronAPI.
      rewrite He. exact Hl.
    + destruct (load_electron_shaped w api "supplierTransactions"
                  (new_cell (CArray [])) (new_cell (CArray []))
                  sequence_shape is_array True denotes_is_array)
        as (v & w' & Hl & Hv); try (intros h2 s; apply Hnew).
      exists v, w'. split; [|now apply Hv].
      unfold loadSupplierTransactions, try_catch, bind, get_electronAPI.
      rewrite He. exact Hl.
  - split; [|split].
    + rewrite loadData_browser by exact He.
      apply (load_browser_shaped w _ spread_defaultData dataset_shape is_record
               (default_shaped w) denotes_is_record).
      destruct (spread_defaultData_shaped w) as (c & Hsp & Hc). eauto.
    + rewrite loadCustomerTransactions_browser by exact He.
      destruct (load_browser_shaped w
                  (localStorage w !! "data/customerTransactions.json")
                  (new_cell (CArray [])) sequence_shape is_array True
                  denotes_is_array (Hnew w)) as (v & w' & Hl & Hv).
      exists v, w'. split; [exact Hl | now apply Hv].
    + rewrite loadSupplierTransactions_browser by exact He.
      destruct (load_browser_shaped w
                  (localStorage w !! "data/supplierTransactions.json")
                  (new_cell (CArray [])) sequence_shape is_array True
                  denotes_is_array (Hnew w)) as (v & w' & Hl & Hv).
      exists v, w'. split; [exact Hl | now apply Hv].
Qed.

Lemma loads_never_fail_outward_witness :
  (exists v w', loadData intruded_world = (Ret v, w')
                /\ is_record (heap w') v = true) /\
  (exists v w', loadData stocked_electron_world = (Ret v, w')
                /\ is_record (heap w') v = true) /\
  (exists v w', loadCustomerTransactions stocked_world = (Ret v, w')
                /\ is_array (heap w') v = true) /\
  (exists v w', loadSupplierTransactions stocked_electron_world = (Ret v, w')
                /\ is_array (heap w') v = true).
Proof.
  split; [|split; [|split]].
  - destruct (loads_never_fail_outward intruded_world)
      as ((v & w' & Hl & Hs) & _).
    exists v, w'. split; [exact Hl|]. apply Hs.
    + vm_compute. reflexivity.
    + right. vm_compute. exact I.
  - destruct (loads_never_fail_outward stocked_electron_world)
      as ((v & w' & Hl & Hs) & _).
    exists v, w'. split; [exact Hl|]. apply Hs.
    + vm_compute. reflexivity.
    + right. vm_compute. reflexivity.
  - destruct (loads_never_fail_outward stocked_world)
      as (_ & (v & w' & Hl & Hs) & _).
    exists v, w'. split; [exact Hl|]. apply Hs.
    right. vm_compute. reflexivity.
  - destruct (loads_never_fail_outward stocked_electron_world)
      as (_ & _ & (v & w' & Hl & Hs)).
    exists v, w'. split; [exact Hl|]. apply Hs. exact I.
Defined.

(** C4 as it is written fails.  With the JSON text [null] under the dataset
    key, [loadData] returns [null], which is no record with [products],
    [customers], [sellers]; with the JSON text [5] under the key of the
    customer log, [loadCustomerTransactions] returns the number 5, which is
    no sequence.  Under Electron, with a host that reports the number 5 as
    [data] and a string as [customerTransactions], the loaders return the
    number and the string. *)
Lemma loads_return_declared_shape_counterexample :
  loadData misshapen_world = (Ret VNull, misshapen_world) /\
  loadCustomerTransactions misshapen_world = (Ret (VNum 5 0), misshapen_world) /\
  is_record (heap misshapen_world) VNull = false /\
  is_array (heap misshapen_world) (VNum 5 0) = false /\
  ~ (exists v w' j, loadData misshapen_world = (Ret v, w')
                    /\ denotes (heap w') v j /\ dataset_shape j = true) /\
  ~ (exists v w' j, loadCustomerTransactions misshapen_world = (Ret v, w')
                    /\ denotes (heap w') v j /\ sequence_shape j = true) /\
  (exists w', loadData misreporting_world = (Ret (VNum 5 0), w')) /\
  (exists w', loadCustomerTransactions misreporting_world
              = (Ret (VStr "none"), w')).
Proof.
  assert (Hl : loadData misshapen_world = (Ret VNull, misshapen_world))
    by (vm_compute; reflexivity).
  assert (Hc : loadCustomerTransactions misshapen_world
               = (Ret (VNum 5 0), misshapen_world))
    by (vm_compute; reflexivity).
  split; [exact Hl|]. split; [exact Hc|].
  split; [reflexivity|]. split; [reflexivity|]. split; [|split; [|split]].
  - intros (v & w' & j & Hv & Hd & Hs). rewrite Hl in Hv.
    injection Hv as <- <-. unfold denotes in Hd. simpl in Hd.
    injection Hd as <-. discriminate.
  - intros (v & w' & j & Hv & Hd & Hs). rewrite Hc in Hv.
    injection Hv as <- <-. unfold denotes in Hd. cbn [reify VNum] in Hd.
    injection Hd as <-. discriminate.
  - eexists. vm_compute. reflexivity.
  - eexists. vm_compute. reflexivity.
Qed.

(** C3 (code defect). On an empty backend [loadData] returns a value
    deep-equal to the Default Dataset, but the copy is shallow: after a push
    onto the [products] of the returned value, the [defaultData] object of
    the manager and the result of the next [loadData] both hold the pushed
    element.  Under Electron the value returned is the [defaultData] object
    itself. *)
Theorem loadData_default_is_shared :
  (exists v w', loadData browser_world = (Ret v, w')
                /\ denotes (heap w') v default_tree) /\
  (exists v w', load_push_load (VStr "intruder") browser_world = (Ret v, w')
                /\ denotes (heap w') v intruded_tree
                /\ denotes (heap w') (VRef (defaultData w')) intruded_tree
                /\ ~ denotes (heap w') v default_tree) /\
  (exists w', loadData electron_world
              = (Ret (VRef (defaultData electron_world)), w')).
Proof.
  split; [|split].
  - eexists _, _. split; vm_compute; reflexivity.
  - eexists _, _. split; [vm_compute; reflexivity|].
    split; [vm_compute; reflexivity|]. split; [vm_compute; reflexivity|].
    intros Hd. vm_compute in Hd. discriminate.
  - eexists. vm_compute. reflexivity.
Qed.

End DataManagerSpec.

(** ** Properties of the indented text *)

Module BackupFacts.
Import JSON JSONFacts JS JSFacts DataManager Backup.

Lemma skip_ws_indentation n s : skip_ws (indentation n ++ s) = skip_ws s.
Proof. induction n as [|n IH]; [reflexivity | exact IH]. Qed.

Lemma skip_ws_line n s : skip_ws (newline :: indentation n ++ s) = skip_ws s.
Proof. exact (skip_ws_indentation n s). Qed.

Lemma parse_value_line f n s :
  parse_value f (newline :: indentation n ++ s) = parse_value f s.
Proof.
  destruct f as [|f]; [reflexivity|]. now rewrite !parse_value_S, skip_ws_line.
Qed.

Lemma parse_elements_line f n s :
  parse_elements f (newline :: indentation n ++ s) = parse_elements f s.
Proof.
  destruct f as [|f]; [reflexivity|].
  now rewrite !parse_elements_S, parse_value_line.
Qed.

Lemma parse_members_line f n s :
  parse_members f (newline :: indentation n ++ s) = parse_members f s.
Proof.
  destruct f as [|f]; [reflexivity|]. now rewrite !parse_members_S, skip_ws_line.
Qed.

Lemma parse_value_space f s : parse_value f (" " :: s) = parse_value f s.
Proof. destruct f as [|f]; reflexivity. Qed.

Lemma print_indented_head n j r :
  exists c r', print_indented n j ++ r = c :: r' /\ opens c.
Proof.
  destruct j as [|b|x|s|xs|fs]; try apply (print_head _ r).
  - destruct xs; cbn [print_indented app]; eexists _, _; (split; [reflexivity|]);
      repeat split.
  - destruct fs; cbn [print_indented app]; eexists _, _; (split; [reflexivity|]);
      repeat split.
Qed.

Lemma join_with_more {A} sep (f : A -> list ascii) x y ys :
  join_with sep (map f (x :: y :: ys))
  = f x ++ sep ++ join_with sep (map f (y :: ys)).
Proof. reflexivity. Qed.

Lemma parse_indented_elements xs :
  Forall indented_roundtrips xs -> forallb unique_keys xs = true -> xs <> [] ->
  forall m n fuel r,
    list_sum (map (fun x => S (jsize x)) xs) <= fuel ->
    parse_elements fuel
      (join_with ("," :: newline :: indentation m) (map (print_indented m) xs)
       ++ newline :: indentation n ++ "]" :: r)
    = Some (map stored_as xs, r).
Proof.
  induction 1 as [|x xs Hx Hxs IH]; intros Hwf Hne m n fuel r Hfuel; [congruence|].
  simpl in Hwf. apply andb_true_iff in Hwf as [Hwx Hwxs].
  simpl in Hfuel. destruct fuel as [|f]; [lia|].
  rewrite parse_elements_S.
  destruct xs as [|y ys]; [cbn [map join_with] | rewrite join_with_more].
  - rewrite (Hx Hwx m f) by (simpl in *; (lia || reflexivity)).
    rewrite skip_ws_line, skip_ws_opens by reflexivity. reflexivity.
  - rewrite <- !app_assoc. cbn [app].
    rewrite (Hx Hwx m f) by (simpl in *; (lia || reflexivity)).
    rewrite skip_ws_opens by reflexivity.
    change (("," =? ",")%char) with true. cbv iota.
    rewrite <- ?app_assoc, parse_elements_line.
    rewrite (IH Hwxs) by (simpl in *; (lia || congruence)).
    reflexivity.
Qed.

Lemma parse_indented_members fs :
  Forall (fun kv => indented_roundtrips (snd kv)) fs ->
  forallb (fun kv => unique_keys (snd kv)) fs = true -> fs <> [] ->
  forall m n fuel r,
    list_sum (map (fun kv => S (jsize (snd kv))) fs) <= fuel ->
    parse_members fuel
      (join_with ("," :: newline :: indentation m)
                 (map (print_indented_member m) fs)
       ++ newline :: indentation n ++ "}" :: r)
    = Some (map (fun kv => (fst kv, stored_as (snd kv))) fs, r).
Proof.
  induction 1 as [|[k v] fs Hx Hxs IH]; intros Hwf Hne m n fuel r Hfuel;
    [congruence|].
  simpl in Hwf. apply andb_true_iff in Hwf as [Hwx Hwxs].
  simpl in Hfuel, Hx. destruct fuel as [|f]; [lia|].
  rewrite parse_members_S.
  assert (Hmem : forall rest,
            print_indented_member m (k, v) ++ rest
            = "034" :: (flat_map escape_char (list_ascii_of_string k)
                       ++ "034" :: ":" :: " " :: print_indented m v ++ rest)).
  { intros rest. unfold print_indented_member, print_string, print_chars. simpl.
    now rewrite <- !app_assoc. }
  destruct fs as [|y ys]; [cbn [map join_with] | rewrite join_with_more].
  - rewrite Hmem.
    rewrite skip_ws_opens by reflexivity.
    change (("034"  =? "034")%char) with true. cbv iota.
    rewrite parse_print_chars, skip_ws_opens by reflexivity.
    change ((":" =? ":")%char) with true. cbv iota.
    rewrite parse_value_space.
    rewrite (Hx Hwx m f) by (simpl in *; (lia || reflexivity)).
    rewrite skip_ws_line, skip_ws_opens by reflexivity.
    rewrite string_of_list_ascii_of_string. reflexivity.
  - rewrite <- !app_assoc. rewrite Hmem.
    rewrite skip_ws_opens by reflexivity.
    change (("034"  =? "034")%char) with true. cbv iota.
    rewrite parse_print_chars, skip_ws_opens by reflexivity.
    change ((":" =? ":")%char) with true. cbv iota.
    rewrite parse_value_space. cbn [app].
    rewrite (Hx Hwx m f) by (simpl in *; (lia || reflexivity)).
    rewrite skip_ws_opens by reflexivity.
    change (("," =? ",")%char) with true. cbv iota.
    rewrite <- ?app_assoc, parse_members_line.
    rewrite (IH Hwxs) by (simpl in *; (lia || congruence)).
    rewrite string_of_list_ascii_of_string. reflexivity.
Qed.

Lemma print_indented_members n kv fs :
  print_indented n (JObj (kv :: fs))
  = "{" :: newline :: indentation (n + 2)
    ++ join_with ("," :: newline :: indentation (n + 2))
                 (map (print_indented_member (n + 2)) (kv :: fs))
    ++ newline :: indentation n ++ ["}"].
Proof. reflexivity. Qed.

Theorem parse_print_indented j : indented_roundtrips j.
Proof.
  induction j as [|b|x|s|xs IH|fs IH] using json_rect';
    try (intros Hwf n; apply (parse_print_value _ Hwf));
    intros Hwf n fuel r Hfuel Hr; (destruct fuel as [|f]; [simpl in Hfuel; lia|]).
  - destruct xs as [|x xs]; [reflexivity|].
    cbn [print_indented]. rewrite parse_value_S. cbn [app].
    rewrite skip_ws_opens by reflexivity.
    change (("[" =? "n")%char) with false. cbv iota.
    change (("[" =? "t")%char) with false.
    change (("[" =? "f")%char) with false.
    change (("[" =? "034")%char) with false.
    change (("[" =? "[")%char) with true. cbv iota.
    rewrite <- !app_assoc. cbn [app]. rewrite <- !app_assoc. cbn [app].
    rewrite skip_ws_line, parse_elements_line.
    assert (Hhd : exists c r',
               join_with ("," :: newline :: indentation (n + 2))
                         (map (print_indented (n + 2)) (x :: xs))
               ++ newline :: indentation n ++ "]" :: r
               = c :: r' /\ opens c).
    { cbn [map join_with]. destruct (map (print_indented (n + 2)) xs).
      - apply print_indented_head.
      - rewrite <- app_assoc. apply print_indented_head. }
    destruct Hhd as (c & r' & Heq & Hws & Hc & _).
    rewrite Heq at 1. rewrite skip_ws_opens, Hc by assumption.
    rewrite (parse_indented_elements (x :: xs)); try assumption; try congruence.
    + reflexivity.
    + simpl in Hfuel. simpl. lia.
  - destruct fs as [|kv fs]; [reflexivity|].
    rewrite print_indented_members. rewrite parse_value_S. cbn [app].
    rewrite skip_ws_opens by reflexivity.
    change (("{" =? "n")%char) with false. cbv iota.
    change (("{" =? "t")%char) with false.
    change (("{" =? "f")%char) with false.
    change (("{" =? "034")%char) with false.
    change (("{" =? "[")%char) with false.
    change (("{" =? "{")%char) with true. cbv iota.
    rewrite <- !app_assoc. cbn [app]. rewrite <- !app_assoc. cbn [app].
    rewrite skip_ws_line, parse_members_line.
    simpl in Hwf. apply andb_true_iff in Hwf as [Hnd Hwf].
    apply bool_decide_eq_true in Hnd.
    assert (Hhd : exists r',
               join_with ("," :: newline :: indentation (n + 2))
                         (map (print_indented_member (n + 2)) (kv :: fs))
               ++ newline :: indentation n ++ "}" :: r
               = "034" :: r').
    { cbn [map join_with].
      destruct (map (print_indented_member (n + 2)) fs);
        unfold print_indented_member, print_string, print_chars;
        cbn [app]; eauto. }
    destruct Hhd as (r' & Heq).
    rewrite Heq at 1. rewrite skip_ws_opens by reflexivity.
    change (("034"  =? "}")%char) with false. cbv iota.
    rewrite (parse_indented_members (kv :: fs)); try assumption; try congruence.
    + rewrite build_object_nodup; [reflexivity|]. now rewrite stored_as_keys.
    + simpl in Hfuel. simpl. lia.
Qed.

(** [JSON.parse (JSON.stringify (j, null, 2))] is [stored_as j]. *)
Theorem parse_stringify_indented_stored j :
  unique_keys j = true -> parse (stringify_indented j) = Some (stored_as j).
Proof.
  intros Hwf. unfold parse, stringify_indented.
  rewrite list_ascii_of_string_of_list_ascii.
  set (s := print_indented 0 j).
  assert (Hp : forall f, jsize j <= f ->
                         parse_value f s = Some (stored_as j, [])).
  { intros f Hf. rewrite <- (app_nil_r s). now apply parse_print_indented. }
  destruct (Nat.le_gt_cases (jsize j) (2 * length s + 2)) as [Hle|Hgt].
  - now rewrite Hp.
  - rewrite <- (parse_value_fuel_enough s (jsize j)) by lia.
    now rewrite Hp.
Qed.

(** [JSON.parse (JSON.stringify (j, null, 2))] is [j], for JSON data. *)
Theorem parse_stringify_indented j :
  wf j = true -> parse (stringify_indented j) = Some j.
Proof.
  intros Hwf. rewrite parse_stringify_indented_stored by now apply wf_unique_keys.
  now rewrite stored_as_wf.
Qed.

Lemma stringify_indented_nonempty j : stringify_indented j <> EmptyString.
Proof.
  unfold stringify_indented. destruct (print_indented_head 0 j []) as (c & r & Heq & _).
  rewrite app_nil_r in Heq. now rewrite Heq.
Qed.

End BackupFacts.

(** ** Further properties of the data manager *)

Module DataManagerFrames.
Import JSON JSONFacts JS JSFacts DataManager DataManagerSpec Backup BackupFacts.

Local Open Scope string_scope.
Local Open Scope list_scope.

Section Frames.
Context {H : Type}.
Implicit Type w : world H.

Lemma frame_of_refl a b w : frame_of a b w w.
Proof.
  unfold frame_of. split; [exists []; now rewrite app_nil_r|]. tauto.
Qed.

Lemma frame_of_trans a b w1 w2 w3 :
  frame_of a b w1 w2 -> frame_of a b w2 w3 -> frame_of a b w1 w3.
Proof.
  intros ([h2 Hh] & Hd & He & Hs & Ho) ([h3 Hh'] & Hd' & He' & Hs' & Ho').
  split; [exists (h2 ++ h3); now rewrite Hh', Hh, app_assoc|].
  split; [congruence|]. split; [congruence|].
  split; intros Hx; [rewrite Hs', Hs | rewrite Ho', Ho]; auto.
Qed.

Lemma frame_of_weaken a b a' b' w w' :
  frame_of a b w w' -> (a' = true -> a = true) -> (b' = true -> b = true) ->
  frame_of a' b' w w'.
Proof. unfold frame_of. intuition. Qed.

#[local] Instance frame_of_preorder a b : PreOrder (@frame_of H a b).
Proof.
  split; [intros w; apply frame_of_refl | intros w1 w2 w3; apply frame_of_trans].
Qed.

#[local] Instance only_reads_preorder : PreOrder (@only_reads H).
Proof.
  split.
  - intros w. unfold only_reads. destruct (electronAPI w); apply frame_of_refl.
  - intros w1 w2 w3 H12 H23. unfold only_reads in *.
    destruct (electronAPI w1) eqn:He;
      rewrite (proj1 (proj2 (proj2 H12))), He in H23;
      eapply frame_of_trans; eassumption.
Qed.

#[local] Instance keeps_apart_preorder : PreOrder (@keeps_apart H).
Proof.
  split.
  - intros w. unfold keeps_apart. destruct (electronAPI w); apply frame_of_refl.
  - intros w1 w2 w3 H12 H23. unfold keeps_apart in *.
    destruct (electronAPI w1) eqn:He;
      rewrite (proj1 (proj2 (proj2 H12))), He in H23;
      eapply frame_of_trans; eassumption.
Qed.

Lemma pure_only_reads w w' : frame_of true true w w' -> only_reads w w'.
Proof.
  intros Hf. unfold only_reads.
  destruct (electronAPI w); [|exact Hf].
  eapply frame_of_weaken; [exact Hf | auto | discriminate].
Qed.

Lemma only_reads_keeps_apart w w' : only_reads w w' -> keeps_apart w w'.
Proof.
  unfold only_reads, keeps_apart. destruct (electronAPI w); [easy|].
  intros Hf. eapply frame_of_weaken; [exact Hf | discriminate | auto].
Qed.

(** *** Combinators *)

Section Combinators.
Context (R : relation (world H)) `{!PreOrder R}.

Lemma respects_ret {A} (a : A) : respects R (ret a).
Proof. intros w r w' Hm. injection Hm as _ <-. reflexivity. Qed.

Lemma respects_throw {A} e : respects R (@throw H A e).
Proof. intros w r w' Hm. injection Hm as _ <-. reflexivity. Qed.

Lemma respects_bind {A B} (m : M A) (k : A -> M B) :
  respects R m -> (forall a, respects R (k a)) -> respects R (bind m k).
Proof.
  intros Hm Hk w r w'. unfold bind.
  destruct (m w) as [[a|e] w1] eqn:Hmw; intros Hr.
  - transitivity w1; [exact (Hm _ _ _ Hmw) | exact (Hk _ _ _ _ Hr)].
  - injection Hr as _ <-. exact (Hm _ _ _ Hmw).
Qed.

Lemma respects_try_catch {A} (body : M A) (handler : exn -> M A) :
  respects R body -> (forall e, respects R (handler e)) ->
  respects R (try_catch body handler).
Proof.
  intros Hm Hk w r w'. unfold try_catch.
  destruct (body w) as [[a|e] w1] eqn:Hmw; intros Hr.
  - injection Hr as _ <-. exact (Hm _ _ _ Hmw).
  - transitivity w1; [exact (Hm _ _ _ Hmw) | exact (Hk _ _ _ _ Hr)].
Qed.

Lemma respects_if_item {A} item (yes : string -> M A) (no : M A) :
  (forall s, respects R (yes s)) -> respects R no ->
  respects R (if_item item yes no).
Proof.
  intros Hy Hn. unfold if_item. destruct item as [s|]; [|exact Hn].
  destruct (String.eqb s EmptyString); [exact Hn | apply Hy].
Qed.

Lemma respects_if {A} (b : bool) (m1 m2 : M A) :
  respects R m1 -> respects R m2 -> respects R (if b then m1 else m2).
Proof. now destruct b. Qed.

End Combinators.

Lemma respects_weaken {A} (R R' : relation (world H)) (m : @M H A) :
  (forall w w', R w w' -> R' w w') -> respects R m -> respects R' m.
Proof. intros HR Hm w r w' Hr. apply HR. exact (Hm _ _ _ Hr). Qed.

(** *** The steps *)

Lemma grows_frame w h2 a b : frame_of a b w (set_heap (heap w ++ h2) w).
Proof. split; [now exists h2|]. repeat split. Qed.

Lemma pure_getItem key : respects (frame_of true true) (@getItem H key).
Proof. intros w r w' Hm. injection Hm as _ <-. reflexivity. Qed.

Lemma pure_get_electronAPI : respects (frame_of true true) (@get_electronAPI H).
Proof. intros w r w' Hm. injection Hm as _ <-. reflexivity. Qed.

Lemma pure_read_field v k : respects (frame_of true true) (@read_field H v k).
Proof.
  intros w r w'. unfold read_field.
  destruct (get_field (heap w) v k); intros Hm; injection Hm as _ <-; reflexivity.
Qed.

Lemma pure_send v : respects (frame_of true true) (@send H v).
Proof. intros w r w' Hm. injection Hm as _ <-. reflexivity. Qed.

Lemma pure_this_defaultData : respects (frame_of true true) (@this_defaultData H).
Proof. intros w r w' Hm. injection Hm as _ <-. reflexivity. Qed.

Lemma pure_JSON_stringify v : respects (frame_of true true) (@JSON_stringify H v).
Proof.
  intros w r w'. unfold JSON_stringify.
  destruct (serialize _ _ _) as [[j|]|]; intros Hm; injection Hm as _ <-;
    reflexivity.
Qed.

Lemma pure_JSON_stringify_indented v :
  respects (frame_of true true) (@JSON_stringify_indented H v).
Proof.
  intros w r w'. unfold JSON_stringify_indented.
  destruct (serialize _ _ _) as [[j|]|]; intros Hm; injection Hm as _ <-;
    reflexivity.
Qed.

Lemma pure_spread v : respects (frame_of true true) (@spread H v).
Proof. intros w r w' Hm. injection Hm as _ <-. reflexivity. Qed.

Lemma pure_new_cell c : respects (frame_of true true) (@new_cell H c).
Proof.
  intros w r w' Hm. unfold new_cell, alloc in Hm. injection Hm as _ <-.
  apply grows_frame.
Qed.

Lemma pure_spread_defaultData :
  respects (frame_of true true) (@spread_defaultData H).
Proof.
  intros w r w' Hm. unfold spread_defaultData, alloc in Hm. injection Hm as _ <-.
  apply grows_frame.
Qed.

Lemma pure_JSON_parse text : respects (frame_of true true) (@JSON_parse H text).
Proof.
  intros w r w'. unfold JSON_parse. destruct (parse text) as [j|].
  - destruct (alloc_json j (heap w)) as [v h'] eqn:Ha.
    destruct (alloc_json_denotes _ _ _ _ Ha) as (_ & h2 & ->).
    intros Hm. injection Hm as _ <-. apply grows_frame.
  - intros Hm. injection Hm as _ <-. reflexivity.
Qed.

Lemma pure_receive r : respects (frame_of true true) (@receive H r).
Proof.
  intros w x w'. unfold receive. destruct r as [j|].
  - destruct (alloc_json j (heap w)) as [v h'] eqn:Ha.
    destruct (alloc_json_denotes _ _ _ _ Ha) as (_ & h2 & ->).
    intros Hm. injection Hm as _ <-. apply grows_frame.
  - intros Hm. injection Hm as _ <-. reflexivity.
Qed.

Lemma pure_or_empty_array a : respects (frame_of true true) (@or_empty_array H a).
Proof.
  unfold or_empty_array. apply respects_if; try typeclasses eauto.
  - apply respects_ret; try typeclasses eauto.
  - apply pure_new_cell.
Qed.

Lemma storage_setItem key value : respects (frame_of false true) (@setItem H key value).
Proof.
  intros w r w' Hm. injection Hm as _ <-.
  split; [exists []; now rewrite app_nil_r|]. repeat split. discriminate.
Qed.

Lemma storage_removeItem key : respects (frame_of false true) (@removeItem H key).
Proof.
  intros w r w' Hm. injection Hm as _ <-.
  split; [exists []; now rewrite app_nil_r|]. repeat split. discriminate.
Qed.

Lemma host_await {A} (call : H -> settled A * H) :
  respects (frame_of true false) (await call).
Proof.
  intros w r w'. unfold await.
  destruct (call (hostState w)) as [[a|] s]; intros Hm; injection Hm as _ <-;
    (split; [exists []; now rewrite app_nil_r|]); repeat split; discriminate.
Qed.

Lemma respects_pure {A} a b (m : @M H A) :
  respects (frame_of true true) m -> respects (frame_of a b) m.
Proof.
  apply respects_weaken. intros w w' Hf.
  eapply frame_of_weaken; [exact Hf | auto | auto].
Qed.

(** [if (window.electronAPI) electron else browser] *)
Lemma respects_environment {A} (R : relation (world H)) a1 b1 a2 b2
      (electron : HostAPI H -> M A) (browser : M A) :
  (forall w w', match electronAPI w with
                | Some _ => frame_of a1 b1 w w'
                | None => frame_of a2 b2 w w'
                end -> R w w') ->
  (forall api, respects (frame_of a1 b1) (electron api)) ->
  respects (frame_of a2 b2) browser ->
  respects R (let* api := get_electronAPI in
              match api with
              | Some api => electron api
              | None => browser
              end).
Proof.
  intros HR He Hb w r w'. unfold bind, get_electronAPI. intros Hm.
  apply HR. destruct (electronAPI w) as [api|].
  - exact (He _ _ _ _ Hm).
  - exact (Hb _ _ _ Hm).
Qed.

End Frames.

#[local] Existing Instances frame_of_preorder only_reads_preorder keeps_apart_preorder.

Ltac frames :=
  repeat first
    [ progress intros
    | apply respects_bind; try typeclasses eauto
    | apply respects_try_catch; try typeclasses eauto
    | apply respects_if_item; try typeclasses eauto
    | apply respects_if; try typeclasses eauto
    | apply respects_ret; try typeclasses eauto
    | apply respects_throw; try typeclasses eauto
    | apply host_await
    | apply storage_setItem
    | apply storage_removeItem
    | apply respects_pure;
      first [ apply pure_getItem | apply pure_read_field | apply pure_send
            | apply pure_this_defaultData | apply pure_JSON_stringify
            | apply pure_JSON_stringify_indented | apply pure_spread
            | apply pure_new_cell | apply pure_spread_defaultData
            | apply pure_JSON_parse | apply pure_receive
            | apply pure_or_empty_array ] ].

Section Methods.
Context {H : Type}.

Lemma loader_only_reads (electron : HostAPI H -> M val) (browser : M val)
      (handler : exn -> M val) :
  (forall api, respects (frame_of true false) (electron api)) ->
  respects (frame_of true true) browser ->
  (forall e, respects (frame_of true true) (handler e)) ->
  respects only_reads
    (try_catch (let* api := get_electronAPI in
                match api with
                | Some api => electron api
                | None => browser
                end) handler).
Proof.
  intros He Hb Hh. apply respects_try_catch; try typeclasses eauto.
  - now apply (respects_environment _ true false true true).
  - intros e. eapply respects_weaken; [|apply Hh]. apply pure_only_reads.
Qed.

Lemma loadData_only_reads : respects only_reads (@loadData H).
Proof. apply loader_only_reads; frames. Qed.

Lemma loadCustomerTransactions_only_reads :
  respects only_reads (@loadCustomerTransactions H).
Proof. apply loader_only_reads; frames. Qed.

Lemma loadSupplierTransactions_only_reads :
  respects only_reads (@loadSupplierTransactions H).
Proof. apply loader_only_reads; frames. Qed.

Lemma writer_keeps_apart {A} (electron : HostAPI H -> M A) (browser : M A)
      (handler : exn -> M A) :
  (forall api, respects (frame_of true false) (electron api)) ->
  respects (frame_of false true) browser ->
  (forall e, respects (frame_of true true) (handler e)) ->
  respects keeps_apart
    (try_catch (let* api := get_electronAPI in
                match api with
                | Some api => electron api
                | None => browser
                end) handler).
Proof.
  intros He Hb Hh. apply respects_try_catch; try typeclasses eauto.
  - now apply (respects_environment _ true false false true).
  - intros e. eapply respects_weaken; [|apply Hh].
    intros w w' Hf. now apply only_reads_keeps_apart, pure_only_reads.
Qed.

Lemma saveData_keeps_apart v : respects keeps_apart (@saveData H v).
Proof. apply writer_keeps_apart; frames. Qed.

Lemma saveCustomerTransactions_keeps_apart v :
  respects keeps_apart (@saveCustomerTransactions H v).
Proof. apply writer_keeps_apart; frames. Qed.

Lemma saveSupplierTransactions_keeps_apart v :
  respects keeps_apart (@saveSupplierTransactions H v).
Proof. apply writer_keeps_apart; frames. Qed.

Lemma clearAllData_keeps_apart : respects keeps_apart (@clearAllData H).
Proof. apply writer_keeps_apart; frames. Qed.

Lemma initialize_keeps_apart : respects keeps_apart (@initialize H).
Proof.
  apply writer_keeps_apart; [frames | | frames].
  unfold migrateFromLocalStorage. frames.
Qed.

Lemma pure_keeps_apart {A} (m : @M H A) :
  respects (frame_of true true) m -> respects keeps_apart m.
Proof.
  apply respects_weaken. intros w w' Hf.
  now apply only_reads_keeps_apart, pure_only_reads.
Qed.

Lemma importData_keeps_apart file : respects keeps_apart (@importData H file).
Proof.
  destruct file as [text|]; [|apply respects_throw; try typeclasses eauto].
  unfold importData.
  repeat first
    [ progress intros
    | apply saveData_keeps_apart
    | apply saveCustomerTransactions_keeps_apart
    | apply saveSupplierTransactions_keeps_apart
    | apply respects_bind; try typeclasses eauto
    | apply respects_try_catch; try typeclasses eauto
    | apply respects_if; try typeclasses eauto
    | apply respects_ret; try typeclasses eauto
    | apply respects_throw; try typeclasses eauto
    | apply pure_keeps_apart;
      first [ apply pure_read_field | apply pure_new_cell | apply pure_JSON_parse
            | apply pure_or_empty_array ] ].
Qed.

Lemma exportData_only_reads now later : respects only_reads (@exportData H now later).
Proof.
  unfold exportData.
  repeat first
    [ progress intros
    | apply loadData_only_reads
    | apply loadCustomerTransactions_only_reads
    | apply loadSupplierTransactions_only_reads
    | apply respects_bind; try typeclasses eauto
    | apply respects_try_catch; try typeclasses eauto
    | apply respects_ret; try typeclasses eauto
    | apply (respects_weaken (frame_of true true)); [apply pure_only_reads|];
      first [ apply pure_spread | apply pure_new_cell
            | apply pure_JSON_stringify_indented ] ].
Qed.

End Methods.

End DataManagerFrames.

(** ** Further properties of the methods *)

Module DataManagerMore.
Import JSON JSONFacts JS JSFacts DataManager DataManagerSpec Backup BackupFacts
       DataManagerFrames.

Local Open Scope string_scope.
Local Open Scope list_scope.

(** *** Import *)

Lemma alloc_json_array xs h v h' k :
  alloc_json (JArr xs) h = (v, h') -> get_field h' v k = Some VUndefined.
Proof.
  simpl.
  set (go := fix go (xs : list json) (h : list cell) := _).
  destruct (go xs h) as [vs h1]. unfold alloc. intros Ha.
  injection Ha as <- <-. unfold get_field.
  now rewrite lookup_app_r, Nat.sub_diag by lia.
Qed.

(** The parsed value of a file that holds no object and is not [null]: every
    member reads as [undefined]. *)
Lemma JSON_parse_no_object {H} (w : world H) text j :
  parse text = Some j -> j <> JNull -> (forall fs, j <> JObj fs) ->
  exists v h2,
    JSON_parse text w = (Ret v, set_heap (heap w ++ h2) w) /\
    forall k, get_field (heap w ++ h2) v k = Some VUndefined.
Proof.
  intros Hp Hn Ho. unfold JSON_parse. rewrite Hp.
  destruct (alloc_json j (heap w)) as [v h'] eqn:Ha.
  destruct (alloc_json_denotes _ _ _ _ Ha) as (_ & h2 & ->).
  exists v, h2. split; [reflexivity|]. intros k.
  destruct j as [|b|x|s|xs|fs].
  - congruence.
  - simpl in Ha. now injection Ha as <- _.
  - simpl in Ha. now injection Ha as <- _.
  - simpl in Ha. now injection Ha as <- _.
  - exact (alloc_json_array _ _ _ _ k Ha).
  - now destruct (Ho fs).
Qed.

Lemma field_truthy_Some k fs :
  field_truthy k fs = true -> exists j, assoc k fs = Some j /\ jtruthy j = true.
Proof.
  unfold field_truthy. destruct (assoc k fs) as [j|]; [eauto | discriminate].
Qed.

Lemma importData_not_json {H} (w : world H) text :
  parse text = None -> importData (Some text) w = (Throw SyntaxError, w).
Proof.
  intros Hp. unfold importData, try_catch, bind, JSON_parse. now rewrite Hp.
Qed.

Lemma importData_null {H} (w : world H) text :
  parse text = Some JNull -> importData (Some text) w = (Throw TypeError, w).
Proof.
  intros Hp. unfold importData, try_catch, bind, JSON_parse. rewrite Hp.
  now destruct w.
Qed.

Lemma importData_no_object {H} (w : world H) text j :
  parse text = Some j -> j <> JNull -> (forall fs, j <> JObj fs) ->
  exists h2,
    importData (Some text) w
    = (Throw (Error "Invalid data structure"), set_heap (heap w ++ h2) w).
Proof.
  intros Hp Hn Ho.
  destruct (JSON_parse_no_object w text j Hp Hn Ho) as (v & h2 & Hv & Hg).
  exists h2. unfold importData, try_catch, bind. rewrite Hv.
  unfold read_field. cbn [heap set_heap]. now rewrite !Hg.
Qed.

Lemma importData_truthy_members {H} (w : world H) text fs :
  parse text = Some (JObj fs) ->
  field_truthy "products" fs && field_truthy "customers" fs
    && field_truthy "sellers" fs = true ->
  exists w', importData (Some text) w = (Ret true, w').
Proof.
  intros Hp Hall.
  apply andb_true_iff in Hall as [Hall Hs].
  apply andb_true_iff in Hall as [Hpr Hc].
  apply field_truthy_Some in Hpr as (jp & Hfp & Htp).
  apply field_truthy_Some in Hc as (jc & Hfc & Htc).
  apply field_truthy_Some in Hs as (js & Hfs & Hts).
  destruct (importData_accepts w text fs jp jc js Hp Hfp Hfc Hfs Htp Htc Hts)
    as (h2 & Hi).
  eauto.
Qed.

(** X1. The outcome of [importData] as the text of the file decides it:
    text that is not JSON is rejected with the SyntaxError of [JSON.parse],
    the text [null] with the TypeError of reading a property of [null], every
    other value that is not an object with truthy [products], [customers]
    and [sellers] with "Invalid data structure", and such an object is
    accepted. *)
Theorem importData_outcome {H} (w : world H) (text : string) :
  match parse text with
  | None => importData (Some text) w = (Throw SyntaxError, w)
  | Some JNull => importData (Some text) w = (Throw TypeError, w)
  | Some (JObj fs) =>
      if field_truthy "products" fs && field_truthy "customers" fs
         && field_truthy "sellers" fs
      then exists w', importData (Some text) w = (Ret true, w')
      else exists h2,
          importData (Some text) w
          = (Throw (Error "Invalid data structure"), set_heap (heap w ++ h2) w)
  | Some _ =>
      exists h2,
        importData (Some text) w
        = (Throw (Error "Invalid data structure"), set_heap (heap w ++ h2) w)
  end.
Proof.
  destruct (parse text) as [j|] eqn:Hp; [|now apply importData_not_json].
  destruct j as [|b|x|s|xs|fs];
    try (apply (importData_no_object w text _ Hp); congruence).
  - now apply importData_null.
  - destruct (field_truthy "products" fs && field_truthy "customers" fs
              && field_truthy "sellers" fs) eqn:Hall.
    + exact (importData_truthy_members w text fs Hp Hall).
    + exact (importData_rejects w text fs Hp Hall).
Qed.

(** X2. A rejected import has written nothing: whatever the file and the
    environment, when [importData] rejects, [localStorage] and the state of
    the host are as before, and the error is one of four. *)
Theorem importData_rejected_writes_nothing
        {H} (w : world H) (file : option string) (e : exn) (w' : world H) :
  importData file w = (Throw e, w') ->
  localStorage w' = localStorage w /\ hostState w' = hostState w /\
  (e = Error "Error reading file" \/ e = SyntaxError \/ e = TypeError
   \/ e = Error "Invalid data structure").
Proof.
  assert (Hinvalid :
            forall text,
              (exists h2,
                  importData (Some text) w
                  = (Throw (Error "Invalid data structure"),
                     set_heap (heap w ++ h2) w)) ->
              importData (Some text) w = (Throw e, w') ->
              localStorage w' = localStorage w /\ hostState w' = hostState w /\
              (e = Error "Error reading file" \/ e = SyntaxError \/ e = TypeError
               \/ e = Error "Invalid data structure")).
  { intros text (h2 & ->) Hi. injection Hi as <- <-.
    split; [reflexivity | split; [reflexivity | auto]]. }
  destruct file as [text|].
  2:{ intros Hi. injection Hi as <- <-.
      split; [reflexivity | split; [reflexivity | auto]]. }
  destruct (parse text) as [j|] eqn:Hp.
  - destruct j as [|b|x|s|xs|fs];
      try (apply Hinvalid, (importData_no_object w text _ Hp); congruence).
    + rewrite (importData_null w text Hp). intros Hi. injection Hi as <- <-.
      split; [reflexivity | split; [reflexivity | auto]].
    + destruct (field_truthy "products" fs && field_truthy "customers" fs
                && field_truthy "sellers" fs) eqn:Hall.
      * destruct (importData_truthy_members w text fs Hp Hall) as (w1 & ->).
        discriminate.
      * apply Hinvalid, (importData_rejects w text fs Hp Hall).
  - rewrite (importData_not_json w text Hp). intros Hi. injection Hi as <- <-.
    split; [reflexivity | split; [reflexivity | auto]].
Qed.

Lemma importData_rejected_writes_nothing_witness :
  localStorage (snd (importData (Some import_without_sellers) stocked_world))
  = localStorage stocked_world /\
  hostState (snd (importData (Some import_without_sellers) stocked_world))
  = hostState stocked_world /\
  (Error "Invalid data structure" = Error "Error reading file"
   \/ Error "Invalid data structure" = SyntaxError
   \/ Error "Invalid data structure" = TypeError
   \/ Error "Invalid data structure" = Error "Invalid data structure").
Proof.
  apply (importData_rejected_writes_nothing stocked_world
           (Some import_without_sellers)).
  vm_compute. reflexivity.
Defined.

(** *** What the methods leave alone *)

(** X3. The loaders and [exportData] read only: in every environment and
    whatever they return, [localStorage], the [defaultData] reference and the
    environment are as before and the store has only grown; in the browser
    the state of the host is as before too. *)
Theorem loaders_only_read {H} :
  respects only_reads (@loadData H) /\
  respects only_reads (@loadCustomerTransactions H) /\
  respects only_reads (@loadSupplierTransactions H) /\
  (forall now later, respects only_reads (@exportData H now later)) /\
  (forall (w w' : world H), only_reads w w' ->
     localStorage w' = localStorage w /\
     (electronAPI w = None -> hostState w' = hostState w) /\
     forall v j, denotes (heap w) v j -> denotes (heap w') v j).
Proof.
  split; [apply loadData_only_reads|].
  split; [apply loadCustomerTransactions_only_reads|].
  split; [apply loadSupplierTransactions_only_reads|].
  split; [apply exportData_only_reads|].
  intros w w' Hr. unfold only_reads in Hr.
  assert (Hf : frame_of true false w w').
  { destruct (electronAPI w); [exact Hr|].
    eapply frame_of_weaken; [exact Hr | auto | discriminate]. }
  destruct Hf as ([h2 Hh] & _ & _ & Hs & _).
  split; [now apply Hs|]. split.
  - intros He. rewrite He in Hr. now apply Hr.
  - intros v j Hd. rewrite Hh. now apply denotes_extend.
Qed.

Lemma loaders_only_read_witness :
  localStorage (snd (loadData stocked_world)) = localStorage stocked_world /\
  (electronAPI stocked_world = None ->
   hostState (snd (loadData stocked_world)) = hostState stocked_world) /\
  forall v j, denotes (heap stocked_world) v j ->
              denotes (heap (snd (loadData stocked_world))) v j.
Proof.
  destruct (@loaders_only_read unit) as (Hl & _ & _ & _ & Hr).
  apply Hr. apply (Hl stocked_world (fst (loadData stocked_world))).
  vm_compute. reflexivity.
Defined.

(** X4. Every method keeps to the backend of its environment: under
    Electron none of them touches [localStorage], and in the browser none of
    them touches the host; none replaces [defaultData] or changes a cell of
    the store. *)
Theorem methods_keep_to_their_backend {H} :
  (forall v, respects keeps_apart (@saveData H v)) /\
  (forall v, respects keeps_apart (@saveCustomerTransactions H v)) /\
  (forall v, respects keeps_apart (@saveSupplierTransactions H v)) /\
  (forall file, respects keeps_apart (@importData H file)) /\
  respects keeps_apart (@clearAllData H) /\
  respects keeps_apart (@initialize H) /\
  (forall (w w' : world H), keeps_apart w w' ->
     (electronAPI w <> None -> localStorage w' = localStorage w) /\
     (electronAPI w = None -> hostState w' = hostState w) /\
     defaultData w' = defaultData w /\
     forall v j, denotes (heap w) v j -> denotes (heap w') v j).
Proof.
  split; [apply saveData_keeps_apart|].
  split; [apply saveCustomerTransactions_keeps_apart|].
  split; [apply saveSupplierTransactions_keeps_apart|].
  split; [apply importData_keeps_apart|].
  split; [apply clearAllData_keeps_apart|].
  split; [apply initialize_keeps_apart|].
  intros w w' Hr. unfold keeps_apart in Hr.
  destruct (electronAPI w) as [api|];
    destruct Hr as ([h2 Hh] & Hd & _ & Hs & Ho).
  - split; [intros _; now apply Hs|]. split; [discriminate|].
    split; [exact Hd|].
    intros v j Hv. rewrite Hh. now apply denotes_extend.
  - split; [congruence|]. split; [intros _; now apply Ho|].
    split; [exact Hd|].
    intros v j Hv. rewrite Hh. now apply denotes_extend.
Qed.

Lemma methods_keep_to_their_backend_witness :
  (electronAPI stocked_electron_world <> None ->
   localStorage (snd (clearAllData stocked_electron_world))
   = localStorage stocked_electron_world) /\
  (electronAPI stocked_electron_world = None ->
   hostState (snd (clearAllData stocked_electron_world))
   = hostState stocked_electron_world) /\
  defaultData (snd (clearAllData stocked_electron_world))
  = defaultData stocked_electron_world /\
  forall v j, denotes (heap stocked_electron_world) v j ->
              denotes (heap (snd (clearAllData stocked_electron_world))) v j.
Proof.
  destruct (@methods_keep_to_their_backend (list (string * json)))
    as (_ & _ & _ & _ & Hc & _ & Hr).
  apply Hr.
  apply (Hc stocked_electron_world (fst (clearAllData stocked_electron_world))).
  vm_compute. reflexivity.
Defined.

(** *** Import of a backup *)

(** Text that [saveData] or a log's save wrote is read back by a loader. *)
Lemma load_stored {H} (w : world H) key j (no : M val) (handler : exn -> M val) :
  localStorage w !! key = Some (stringify j) -> unique_keys j = true ->
  exists v h2,
    try_catch (if_item (localStorage w !! key) JSON_parse no) handler w
    = (Ret v, set_heap (heap w ++ h2) w) /\
    denotes (heap w ++ h2) v (stored_as j).
Proof.
  intros Hs Hwf.
  destruct (JSON_parse_Some w _ _ (parse_stringify_stored j Hwf))
    as (v & h2 & Hp & Hd & _).
  exists v, h2. split; [|exact Hd].
  unfold try_catch. rewrite Hs, if_item_text by apply stringify_nonempty.
  now rewrite Hp.
Qed.

Lemma store_if_truthy_lookup key oj ls k :
  k <> key -> store_if_truthy key oj ls !! k = ls !! k.
Proof.
  intros Hk. unfold store_if_truthy. destruct oj as [j|]; [|reflexivity].
  destruct (jtruthy j); [|reflexivity]. now apply lookup_insert_ne.
Qed.

Lemma after_save_if_browser {H} (w : world H) key call oj :
  electronAPI w = None ->
  after_save_if key call oj w
  = set_localStorage (store_if_truthy key oj (localStorage w)) w.
Proof.
  intros He. unfold after_save_if, after_save, store_if_truthy. rewrite He.
  destruct oj as [j|]; [|now rewrite set_localStorage_same].
  destruct (jtruthy j); [reflexivity | now rewrite set_localStorage_same].
Qed.

Lemma after_import_browser {H} (w : world H) fs jp jc js :
  electronAPI w = None ->
  after_import fs jp jc js w
  = set_localStorage
      (store_if_truthy "data/supplierTransactions.json"
         (assoc "supplierTransactions" fs)
         (store_if_truthy "data/customerTransactions.json"
            (assoc "customerTransactions" fs)
            (<["data/perfectWoodData.json" :=
                 stringify (JObj [("products", jp); ("customers", jc);
                                  ("sellers", js)])]> (localStorage w)))) w.
Proof.
  intros He. unfold after_import.
  unfold after_save at 1. rewrite He.
  rewrite (after_save_if_browser (set_localStorage _ w)) by exact He.
  rewrite (after_save_if_browser (set_localStorage _ (set_localStorage _ w)))
    by exact He.
  reflexivity.
Qed.

(** An accepted import in the browser, as a world. *)
Lemma importData_browser_world {H} (w : world H) text fs jp jc js :
  electronAPI w = None ->
  parse text = Some (JObj fs) ->
  assoc "products" fs = Some jp -> assoc "customers" fs = Some jc ->
  assoc "sellers" fs = Some js ->
  jtruthy jp = true -> jtruthy jc = true -> jtruthy js = true ->
  exists h2,
    importData (Some text) w
    = (Ret true,
       set_localStorage
         (store_if_truthy "data/supplierTransactions.json"
            (assoc "supplierTransactions" fs)
            (store_if_truthy "data/customerTransactions.json"
               (assoc "customerTransactions" fs)
               (<["data/perfectWoodData.json" :=
                    stringify (JObj [("products", jp); ("customers", jc);
                                     ("sellers", js)])]> (localStorage w))))
         (set_heap (heap w ++ h2) w)).
Proof.
  intros He Hp Hfp Hfc Hfs Htp Htc Hts.
  destruct (importData_accepts w text fs jp jc js Hp Hfp Hfc Hfs Htp Htc Hts)
    as (h2 & Hi).
  rewrite (after_import_browser (set_heap (heap w ++ h2) w) fs jp jc js He) in Hi.
  now exists h2.
Qed.

(** The loaders on a key that holds the text of a tree. *)
Lemma loadData_stored {H} (w : world H) j :
  electronAPI w = None ->
  localStorage w !! "data/perfectWoodData.json" = Some (stringify j) ->
  unique_keys j = true ->
  exists v w2, loadData w = (Ret v, w2) /\ denotes (heap w2) v (stored_as j).
Proof.
  intros He Hs Hwf.
  destruct (load_stored w "data/perfectWoodData.json" j spread_defaultData
              (fun _ => spread_defaultData) Hs Hwf) as (v & h3 & Hl & Hd).
  eexists v, _. split; [rewrite loadData_browser by exact He; exact Hl|].
  exact Hd.
Qed.

Lemma loadCustomerTransactions_stored {H} (w : world H) j :
  electronAPI w = None ->
  localStorage w !! "data/customerTransactions.json" = Some (stringify j) ->
  unique_keys j = true ->
  exists v w2, loadCustomerTransactions w = (Ret v, w2)
               /\ denotes (heap w2) v (stored_as j).
Proof.
  intros He Hs Hwf.
  destruct (load_stored w "data/customerTransactions.json" j
              (new_cell (CArray [])) (fun _ => new_cell (CArray [])) Hs Hwf)
    as (v & h3 & Hl & Hd).
  eexists v, _.
  split; [rewrite loadCustomerTransactions_browser by exact He; exact Hl|].
  exact Hd.
Qed.

Lemma loadSupplierTransactions_stored {H} (w : world H) j :
  electronAPI w = None ->
  localStorage w !! "data/supplierTransactions.json" = Some (stringify j) ->
  unique_keys j = true ->
  exists v w2, loadSupplierTransactions w = (Ret v, w2)
               /\ denotes (heap w2) v (stored_as j).
Proof.
  intros He Hs Hwf.
  destruct (load_stored w "data/supplierTransactions.json" j
              (new_cell (CArray [])) (fun _ => new_cell (CArray [])) Hs Hwf)
    as (v & h3 & Hl & Hd).
  eexists v, _.
  split; [rewrite loadSupplierTransactions_browser by exact He; exact Hl|].
  exact Hd.
Qed.

Lemma unique_keys_three_members jp jc js :
  unique_keys jp = true -> unique_keys jc = true -> unique_keys js = true ->
  unique_keys (JObj [("products", jp); ("customers", jc); ("sellers", js)])
  = true.
Proof. intros Hp Hc Hs. simpl. now rewrite Hp, Hc, Hs. Qed.

Lemma doubles_three_members jp jc js :
  numbers_are_doubles jp = true -> numbers_are_doubles jc = true ->
  numbers_are_doubles js = true ->
  numbers_are_doubles
    (JObj [("products", jp); ("customers", jc); ("sellers", js)]) = true.
Proof. intros Hp Hc Hs. simpl. now rewrite Hp, Hc, Hs. Qed.

(** X5. What an accepted import stores in the browser: the text of the
    three members as they were read, whatever truthy values they are, under
    the dataset key, and the text of each transaction log that is in the file
    with a truthy value under its key; a log that is absent or falsy leaves
    its key as it was.  The loaders then return what that text reads back
    as: the imported values, with [null] for a number that is not finite
    and [0] for the negative zero. *)
Theorem importData_stores_what_is_present
        {H} (w : world H) (text : string) (fs : list (string * json))
        (jp jc js : json) :
  electronAPI w = None ->
  parse text = Some (JObj fs) ->
  assoc "products" fs = Some jp -> assoc "customers" fs = Some jc ->
  assoc "sellers" fs = Some js ->
  jtruthy jp = true -> jtruthy jc = true -> jtruthy js = true ->
  exists w',
    importData (Some text) w = (Ret true, w') /\
    localStorage w'
    = store_if_truthy "data/supplierTransactions.json"
        (assoc "supplierTransactions" fs)
        (store_if_truthy "data/customerTransactions.json"
           (assoc "customerTransactions" fs)
           (<["data/perfectWoodData.json" :=
                stringify (JObj [("products", jp); ("customers", jc);
                                 ("sellers", js)])]> (localStorage w))) /\
    (exists v w2,
        loadData w' = (Ret v, w2) /\
        denotes (heap w2) v
                (stored_as
                   (JObj [("products", jp); ("customers", jc); ("sellers", js)]))) /\
    (forall ct, assoc "customerTransactions" fs = Some ct -> jtruthy ct = true ->
       exists v w2, loadCustomerTransactions w' = (Ret v, w2)
                    /\ denotes (heap w2) v (stored_as ct)) /\
    (forall st, assoc "supplierTransactions" fs = Some st -> jtruthy st = true ->
       exists v w2, loadSupplierTransactions w' = (Ret v, w2)
                    /\ denotes (heap w2) v (stored_as st)).
Proof.
  intros He Hp Hfp Hfc Hfs Htp Htc Hts.
  destruct (importData_browser_world w text fs jp jc js He Hp Hfp Hfc Hfs
              Htp Htc Hts) as (h2 & Hi).
  pose proof (parse_unique_keys _ _ Hp) as Hwf.
  assert (Hm : forall k j, assoc k fs = Some j -> unique_keys j = true).
  { intros k j Hk. eapply unique_keys_member; [exact Hwf | eapply assoc_In, Hk]. }
  eexists. split; [exact Hi|]. split; [reflexivity|].
  cbn [localStorage set_localStorage]. split; [|split].
  - apply loadData_stored; [exact He | |].
    + cbn [localStorage set_localStorage].
      rewrite !store_if_truthy_lookup by discriminate. apply lookup_insert_eq.
    + apply unique_keys_three_members; eauto.
  - intros ct Hct Ht. apply loadCustomerTransactions_stored; [exact He | |].
    + cbn [localStorage set_localStorage].
      rewrite store_if_truthy_lookup by discriminate.
      unfold store_if_truthy. rewrite Hct, Ht. apply lookup_insert_eq.
    + exact (Hm _ _ Hct).
  - intros st Hst Ht. apply loadSupplierTransactions_stored; [exact He | |].
    + cbn [localStorage set_localStorage].
      unfold store_if_truthy at 1. rewrite Hst, Ht. apply lookup_insert_eq.
    + exact (Hm _ _ Hst).
Qed.

Lemma importData_stores_what_is_present_witness :
  exists w',
    importData (Some import_with_customer_log) stocked_world = (Ret true, w') /\
    localStorage w'
    = store_if_truthy "data/supplierTransactions.json" None
        (store_if_truthy "data/customerTransactions.json"
           (Some (JArr [JObj [("id", JNum 9 0)]]))
           (<["data/perfectWoodData.json" :=
                stringify (JObj [("products", JArr [JObj [("id", JNum 1 0)]]);
                                 ("customers", JArr []); ("sellers", JArr [])])]>
              (localStorage stocked_world))) /\
    (exists v w2,
        loadData w' = (Ret v, w2) /\
        denotes (heap w2) v
                (stored_as
                   (JObj [("products", JArr [JObj [("id", JNum 1 0)]]);
                          ("customers", JArr []); ("sellers", JArr [])]))) /\
    (forall ct, Some (JArr [JObj [("id", JNum 9 0)]]) = Some ct ->
                jtruthy ct = true ->
       exists v w2, loadCustomerTransactions w' = (Ret v, w2)
                    /\ denotes (heap w2) v (stored_as ct)) /\
    (forall st, None = Some st -> jtruthy st = true ->
       exists v w2, loadSupplierTransactions w' = (Ret v, w2)
                    /\ denotes (heap w2) v (stored_as st)).
Proof.
  apply (importData_stores_what_is_present stocked_world
           import_with_customer_log
           [("products", JArr [JObj [("id", JNum 1 0)]]);
            ("customers", JArr []); ("sellers", JArr []);
            ("customerTransactions", JArr [JObj [("id", JNum 9 0)]])]).
  - reflexivity.
  - vm_compute. reflexivity.
  - reflexivity.
  - reflexivity.
  - reflexivity.
  - reflexivity.
  - reflexivity.
  - reflexivity.
Defined.

(** *** Migration *)

Lemma populated_copy_item item to ls :
  copy_item item to ls !! to = if populated item then item else ls !! to.
Proof.
  unfold copy_item, populated. destruct item as [s|]; [|reflexivity].
  destruct (String.eqb s EmptyString); [reflexivity|]. apply lookup_insert_eq.
Qed.

Lemma migrated_new_key ls from to :
  (from, to) ∈ migration_pairs ->
  migrated ls !! to = if populated (ls !! from) then ls !! from else ls !! to.
Proof.
  unfold migration_pairs. rewrite !elem_of_cons, elem_of_nil.
  intros [Hp|[Hp|[Hp|[]]]]; injection Hp as -> ->; unfold migrated.
  - rewrite !copy_item_lookup by discriminate. apply populated_copy_item.
  - rewrite copy_item_lookup by discriminate.
    rewrite populated_copy_item. destruct (populated _); [reflexivity|].
    now rewrite copy_item_lookup by discriminate.
  - rewrite populated_copy_item. destruct (populated _); [reflexivity|].
    now rewrite !copy_item_lookup by discriminate.
Qed.

Lemma migrated_other_key ls k :
  k <> "data/perfectWoodData.json" -> k <> "data/customerTransactions.json" ->
  k <> "data/supplierTransactions.json" ->
  migrated ls !! k = ls !! k.
Proof. intros H1 H2 H3. unfold migrated. now rewrite !copy_item_lookup. Qed.

Lemma populated_Some s : s <> EmptyString -> populated (Some s) = true.
Proof.
  intros Hs. unfold populated. now destruct (String.eqb_spec s EmptyString).
Qed.

(** A loader of the browser on a key that holds JSON text. *)
Lemma load_text {H} (w : world H) key s j (no : M val) (handler : exn -> M val) :
  localStorage w !! key = Some s -> s <> EmptyString -> parse s = Some j ->
  exists v h2,
    try_catch (if_item (localStorage w !! key) JSON_parse no) handler w
    = (Ret v, set_heap (heap w ++ h2) w) /\
    denotes (heap w ++ h2) v j.
Proof.
  intros Hs Hne Hp.
  destruct (JSON_parse_Some w _ _ Hp) as (v & h2 & Hparse & Hd & _).
  exists v, h2. split; [|exact Hd].
  unfold try_catch. rewrite Hs, if_item_text by exact Hne. now rewrite Hparse.
Qed.

(** X6. [initialize] in the browser, key by key: each of the three new
    keys takes the text of its legacy key when that one holds text, and keeps
    its own value otherwise; no other key of [localStorage] changes, the
    legacy keys among them.  A legacy transaction log is what the loader of
    that log returns afterwards. *)
Theorem initialize_migrates_each_key {H} (w : world H) :
  electronAPI w = None ->
  exists w1,
    initialize w = (Ret tt, w1) /\
    heap w1 = heap w /\ hostState w1 = hostState w /\
    (forall from to, (from, to) ∈ migration_pairs ->
       localStorage w1 !! to
       = if populated (localStorage w !! from) then localStorage w !! from
         else localStorage w !! to) /\
    (forall k, k <> "data/perfectWoodData.json" ->
               k <> "data/customerTransactions.json" ->
               k <> "data/supplierTransactions.json" ->
               localStorage w1 !! k = localStorage w !! k) /\
    (forall s j, localStorage w !! "customerTransactions" = Some s ->
                 s <> EmptyString -> parse s = Some j ->
       exists v w2, loadCustomerTransactions w1 = (Ret v, w2)
                    /\ denotes (heap w2) v j) /\
    (forall s j, localStorage w !! "supplierTransactions" = Some s ->
                 s <> EmptyString -> parse s = Some j ->
       exists v w2, loadSupplierTransactions w1 = (Ret v, w2)
                    /\ denotes (heap w2) v j).
Proof.
  intros He. exists (set_localStorage (migrated (localStorage w)) w).
  split; [now apply initialize_browser|].
  split; [reflexivity|]. split; [reflexivity|].
  cbn [localStorage set_localStorage].
  split; [intros from to; apply migrated_new_key|].
  split; [apply migrated_other_key|].
  split.
  - intros s j Hs Hne Hp.
    destruct (load_text (set_localStorage (migrated (localStorage w)) w)
                "data/customerTransactions.json" s j
                (new_cell (CArray [])) (fun _ => new_cell (CArray [])))
      as (v & h2 & Hl & Hd); [| exact Hne | exact Hp |].
    + cbn [localStorage set_localStorage].
      rewrite (migrated_new_key _ "customerTransactions")
        by (unfold migration_pairs; set_solver).
      now rewrite Hs, populated_Some.
    + eexists v, _.
      split; [rewrite loadCustomerTransactions_browser by exact He; exact Hl | exact Hd].
  - intros s j Hs Hne Hp.
    destruct (load_text (set_localStorage (migrated (localStorage w)) w)
                "data/supplierTransactions.json" s j
                (new_cell (CArray [])) (fun _ => new_cell (CArray [])))
      as (v & h2 & Hl & Hd); [| exact Hne | exact Hp |].
    + cbn [localStorage set_localStorage].
      rewrite (migrated_new_key _ "supplierTransactions")
        by (unfold migration_pairs; set_solver).
      now rewrite Hs, populated_Some.
    + eexists v, _.
      split; [rewrite loadSupplierTransactions_browser by exact He; exact Hl | exact Hd].
Qed.

Lemma initialize_migrates_each_key_witness :
  exists w1,
    initialize legacy_world = (Ret tt, w1) /\
    heap w1 = heap legacy_world /\ hostState w1 = hostState legacy_world /\
    (forall from to, (from, to) ∈ migration_pairs ->
       localStorage w1 !! to
       = if populated (localStorage legacy_world !! from)
         then localStorage legacy_world !! from
         else localStorage legacy_world !! to) /\
    (forall k, k <> "data/perfectWoodData.json" ->
               k <> "data/customerTransactions.json" ->
               k <> "data/supplierTransactions.json" ->
               localStorage w1 !! k = localStorage legacy_world !! k) /\
    (forall s j, localStorage legacy_world !! "customerTransactions" = Some s ->
                 s <> EmptyString -> parse s = Some j ->
       exists v w2, loadCustomerTransactions w1 = (Ret v, w2)
                    /\ denotes (heap w2) v j) /\
    (forall s j, localStorage legacy_world !! "supplierTransactions" = Some s ->
                 s <> EmptyString -> parse s = Some j ->
       exists v w2, loadSupplierTransactions w1 = (Ret v, w2)
                    /\ denotes (heap w2) v j).
Proof. apply (initialize_migrates_each_key legacy_world). reflexivity. Defined.

(** X7. [initialize] does nothing at all under Electron, whatever
    [localStorage] holds, and nothing in the browser when none of the three
    legacy keys holds text. *)
Theorem initialize_without_migration {H} (w : world H) :
  electronAPI w <> None \/
  (populated (localStorage w !! "perfectWoodData") = false /\
   populated (localStorage w !! "customerTransactions") = false /\
   populated (localStorage w !! "supplierTransactions") = false) ->
  initialize w = (Ret tt, w).
Proof.
  intros [He|(Hd & Hc & Hs)].
  - unfold initialize, try_catch, bind, get_electronAPI.
    destruct (electronAPI w); [reflexivity | congruence].
  - destruct (electronAPI w) as [api|] eqn:He.
    + unfold initialize, try_catch, bind, get_electronAPI. now rewrite He.
    + rewrite initialize_browser by exact He.
      assert (Hno : forall item to ls, populated item = false ->
                                       copy_item item to ls = ls).
      { intros item to ls. unfold populated, copy_item.
        destruct item as [s|]; [|reflexivity].
        now destruct (String.eqb s EmptyString). }
      unfold migrated. rewrite !Hno by assumption.
      now rewrite set_localStorage_same.
Qed.

Lemma initialize_without_migration_witness :
  initialize stocked_electron_world = (Ret tt, stocked_electron_world) /\
  initialize stocked_world = (Ret tt, stocked_world).
Proof.
  split.
  - apply (initialize_without_migration stocked_electron_world).
    left. discriminate.
  - apply (initialize_without_migration stocked_world).
    right. repeat split.
Defined.

(** X8. The migration is not a one-time step: the legacy keys are never
    removed, so as long as [perfectWoodData] holds text every [initialize]
    (one runs at each page load) puts that text back under the dataset key.
    A dataset saved in between is replaced: the [loadData] after the next
    [initialize] returns the legacy data, not what was saved. *)
Theorem initialize_overwrites_saved_data
        {H} (w : world H) (s : string) (legacy : json) (D : val) (j : json) :
  electronAPI w = None ->
  localStorage w !! "perfectWoodData" = Some s ->
  s <> EmptyString ->
  parse s = Some legacy ->
  denotes (heap w) D j ->
  exists w1 w2 v w3,
    saveData D w = (Ret true, w1) /\
    localStorage w1 !! "data/perfectWoodData.json" = Some (stringify j) /\
    initialize w1 = (Ret tt, w2) /\
    localStorage w2 !! "data/perfectWoodData.json" = Some s /\
    loadData w2 = (Ret v, w3) /\
    denotes (heap w3) v legacy /\
    (j <> legacy -> ~ denotes (heap w3) v j).
Proof.
  intros He Hs Hne Hp Hd.
  set (w1 := set_localStorage (<["data/perfectWoodData.json" := stringify j]>
                                 (localStorage w)) w).
  set (w2 := set_localStorage (migrated (localStorage w1)) w1).
  assert (Hdata : localStorage w2 !! "data/perfectWoodData.json" = Some s).
  { unfold w2. cbn [localStorage set_localStorage].
    rewrite (migrated_new_key _ "perfectWoodData")
      by (unfold migration_pairs; set_solver).
    unfold w1. cbn [localStorage set_localStorage].
    rewrite lookup_insert_ne by discriminate. now rewrite Hs, populated_Some. }
  destruct (load_text w2 "data/perfectWoodData.json" s legacy
              spread_defaultData (fun _ => spread_defaultData) Hdata Hne Hp)
    as (v & h2 & Hl & Hv).
  exists w1, w2, v. eexists. split; [exact (saveData_browser w D j He Hd)|].
  split; [apply lookup_insert_eq|].
  split; [now apply initialize_browser|].
  split; [exact Hdata|].
  split; [rewrite loadData_browser by exact He; exact Hl|].
  split; [exact Hv|].
  intros Hneq Hvj. apply Hneq. cbn [heap set_heap] in Hvj.
  exact (reify_deterministic _ _ _ _ _ _ Hvj Hv).
Qed.

Lemma initialize_overwrites_saved_data_witness :
  exists w1 w2 v w3,
    saveData (fst (holding sample_dataset legacy_world))
             (snd (holding sample_dataset legacy_world)) = (Ret true, w1) /\
    localStorage w1 !! "data/perfectWoodData.json"
    = Some (stringify sample_dataset) /\
    initialize w1 = (Ret tt, w2) /\
    localStorage w2 !! "data/perfectWoodData.json" = Some legacy_text /\
    loadData w2 = (Ret v, w3) /\
    denotes (heap w3) v
            (JObj [("products", JArr [JObj [("id", JNum 3 0)]]);
                   ("customers", JArr []); ("sellers", JArr [])]) /\
    (sample_dataset
     <> JObj [("products", JArr [JObj [("id", JNum 3 0)]]);
              ("customers", JArr []); ("sellers", JArr [])] ->
     ~ denotes (heap w3) v sample_dataset).
Proof.
  apply (initialize_overwrites_saved_data
           (snd (holding sample_dataset legacy_world)) legacy_text).
  - reflexivity.
  - reflexivity.
  - discriminate.
  - vm_compute. reflexivity.
  - vm_compute. reflexivity.
Defined.

(** X9. [clearAllData] in the browser always returns [true]; it removes the
    three new keys and nothing else, so the legacy keys stay.  When
    [perfectWoodData] holds text that is not empty and is JSON, the next
    [initialize] brings the legacy dataset back: after it [loadData] returns
    the legacy data, not the default. *)
Theorem clearAllData_keeps_legacy_keys {H} (w : world H) :
  electronAPI w = None ->
  exists w1,
    clearAllData w = (Ret true, w1) /\
    localStorage w1 !! "data/perfectWoodData.json" = None /\
    localStorage w1 !! "data/customerTransactions.json" = None /\
    localStorage w1 !! "data/supplierTransactions.json" = None /\
    (forall k, k <> "data/perfectWoodData.json" ->
               k <> "data/customerTransactions.json" ->
               k <> "data/supplierTransactions.json" ->
               localStorage w1 !! k = localStorage w !! k) /\
    (forall s legacy,
        localStorage w !! "perfectWoodData" = Some s ->
        s <> EmptyString ->
        parse s = Some legacy ->
        exists w2 v w3,
          initialize w1 = (Ret tt, w2) /\
          loadData w2 = (Ret v, w3) /\
          denotes (heap w3) v legacy).
Proof.
  intros He.
  set (w1 := set_localStorage
               (delete "data/supplierTransactions.json"
                  (delete "data/customerTransactions.json"
                     (delete "data/perfectWoodData.json" (localStorage w)))) w).
  assert (Hother : forall k, k <> "data/perfectWoodData.json" ->
               k <> "data/customerTransactions.json" ->
               k <> "data/supplierTransactions.json" ->
               localStorage w1 !! k = localStorage w !! k).
  { intros k H1 H2 H3. unfold w1. cbn [localStorage set_localStorage].
    now rewrite !lookup_delete_ne by congruence. }
  exists w1. split; [now apply clearAllData_browser|].
  unfold w1 at 1 2 3. cbn [localStorage set_localStorage].
  split; [now rewrite !lookup_delete_ne, lookup_delete_eq by discriminate|].
  split; [now rewrite lookup_delete_ne, lookup_delete_eq by discriminate|].
  split; [now rewrite lookup_delete_eq|].
  split; [exact Hother|].
  intros s legacy Hs Hne Hp.
  set (w2 := set_localStorage (migrated (localStorage w1)) w1).
  assert (Hdata : localStorage w2 !! "data/perfectWoodData.json" = Some s).
  { unfold w2. cbn [localStorage set_localStorage].
    rewrite (migrated_new_key _ "perfectWoodData")
      by (unfold migration_pairs; set_solver).
    rewrite Hother by discriminate. now rewrite Hs, populated_Some. }
  destruct (load_text w2 "data/perfectWoodData.json" s legacy
              spread_defaultData (fun _ => spread_defaultData) Hdata Hne Hp)
    as (v & h2 & Hl & Hv).
  exists w2, v. eexists.
  split; [now apply initialize_browser|].
  split; [rewrite loadData_browser by exact He; exact Hl | exact Hv].
Qed.

Lemma clearAllData_keeps_legacy_keys_witness :
  exists w1,
    clearAllData upgraded_world = (Ret true, w1) /\
    localStorage w1 !! "data/perfectWoodData.json" = None /\
    localStorage w1 !! "data/customerTransactions.json" = None /\
    localStorage w1 !! "data/supplierTransactions.json" = None /\
    (forall k, k <> "data/perfectWoodData.json" ->
               k <> "data/customerTransactions.json" ->
               k <> "data/supplierTransactions.json" ->
               localStorage w1 !! k = localStorage upgraded_world !! k) /\
    exists w2 v w3,
      initialize w1 = (Ret tt, w2) /\
      loadData w2 = (Ret v, w3) /\
      denotes (heap w3) v
              (JObj [("products", JArr [JObj [("id", JNum 3 0)]]);
                     ("customers", JArr []); ("sellers", JArr [])]).
Proof.
  destruct (clearAllData_keeps_legacy_keys upgraded_world eq_refl)
    as (w1 & Hc & Hd & Hct & Hst & Ho & Hleg).
  exists w1. split; [exact Hc|]. split; [exact Hd|]. split; [exact Hct|].
  split; [exact Hst|]. split; [exact Ho|].
  apply (Hleg legacy_text).
  - reflexivity.
  - discriminate.
  - vm_compute. reflexivity.
Defined.

(** *** Saving *)

Lemma save_browser_cases {H} (w : world H) key v :
  exists b w',
    try_catch (let* text := JSON_stringify v in setItem key text ;; ret true)
              (fun _ => ret false) w = (Ret b, w') /\
    heap w' = heap w /\ hostState w' = hostState w /\
    (forall k, k <> key -> localStorage w' !! k = localStorage w !! k) /\
    (b = true -> exists text, localStorage w' !! key = Some text) /\
    (b = false -> w' = w).
Proof.
  unfold try_catch, bind, JSON_stringify.
  destruct (serialize _ _ v) as [[j|]|].
  - eexists true, _. split; [reflexivity|].
    split; [reflexivity|]. split; [reflexivity|].
    cbn [localStorage set_localStorage].
    split; [intros k Hk; now apply lookup_insert_ne|].
    split; [intros _; eexists; apply lookup_insert_eq | discriminate].
  - eexists true, _. split; [reflexivity|].
    split; [reflexivity|]. split; [reflexivity|].
    cbn [localStorage set_localStorage].
    split; [intros k Hk; now apply lookup_insert_ne|].
    split; [intros _; eexists; apply lookup_insert_eq | discriminate].
  - exists false, w. split; [reflexivity|]. repeat split; try reflexivity.
    discriminate.
Qed.

(** X10. A save in the browser never throws and touches one key: it
    returns [true] with a text under its own key, or [false] with the world
    exactly as it was; every other key of [localStorage], the store and the
    host are as before. *)
Theorem browser_save_touches_own_key {H} (w : world H) (v : val) :
  electronAPI w = None ->
  (exists b w',
      saveData v w = (Ret b, w') /\
      heap w' = heap w /\ hostState w' = hostState w /\
      (forall k, k <> "data/perfectWoodData.json" ->
                 localStorage w' !! k = localStorage w !! k) /\
      (b = true ->
       exists text, localStorage w' !! "data/perfectWoodData.json" = Some text) /\
      (b = false -> w' = w)) /\
  (exists b w',
      saveCustomerTransactions v w = (Ret b, w') /\
      heap w' = heap w /\ hostState w' = hostState w /\
      (forall k, k <> "data/customerTransactions.json" ->
                 localStorage w' !! k = localStorage w !! k) /\
      (b = true ->
       exists text,
         localStorage w' !! "data/customerTransactions.json" = Some text) /\
      (b = false -> w' = w)) /\
  (exists b w',
      saveSupplierTransactions v w = (Ret b, w') /\
      heap w' = heap w /\ hostState w' = hostState w /\
      (forall k, k <> "data/supplierTransactions.json" ->
                 localStorage w' !! k = localStorage w !! k) /\
      (b = true ->
       exists text,
         localStorage w' !! "data/supplierTransactions.json" = Some text) /\
      (b = false -> w' = w)).
Proof.
  intros He. split; [|split].
  - destruct (save_browser_cases w "data/perfectWoodData.json" v)
      as (b & w' & Hs & Hrest).
    exists b, w'. split; [|exact Hrest]. rewrite <- Hs.
    unfold saveData, try_catch, bind, get_electronAPI. now rewrite He.
  - destruct (save_browser_cases w "data/customerTransactions.json" v)
      as (b & w' & Hs & Hrest).
    exists b, w'. split; [|exact Hrest]. rewrite <- Hs.
    unfold saveCustomerTransactions, try_catch, bind, get_electronAPI.
    now rewrite He.
  - destruct (save_browser_cases w "data/supplierTransactions.json" v)
      as (b & w' & Hs & Hrest).
    exists b, w'. split; [|exact Hrest]. rewrite <- Hs.
    unfold saveSupplierTransactions, try_catch, bind, get_electronAPI.
    now rewrite He.
Qed.

Lemma browser_save_touches_own_key_witness :
  (exists b w',
      saveData (VRef 5) stocked_world = (Ret b, w') /\
      heap w' = heap stocked_world /\ hostState w' = hostState stocked_world /\
      (forall k, k <> "data/perfectWoodData.json" ->
                 localStorage w' !! k = localStorage stocked_world !! k) /\
      (b = true ->
       exists text, localStorage w' !! "data/perfectWoodData.json" = Some text) /\
      (b = false -> w' = stocked_world)) /\
  (exists b w',
      saveCustomerTransactions (VRef 5) stocked_world = (Ret b, w') /\
      heap w' = heap stocked_world /\ hostState w' = hostState stocked_world /\
      (forall k, k <> "data/customerTransactions.json" ->
                 localStorage w' !! k = localStorage stocked_world !! k) /\
      (b = true ->
       exists text,
         localStorage w' !! "data/customerTransactions.json" = Some text) /\
      (b = false -> w' = stocked_world)) /\
  (exists b w',
      saveSupplierTransactions (VRef 5) stocked_world = (Ret b, w') /\
      heap w' = heap stocked_world /\ hostState w' = hostState stocked_world /\
      (forall k, k <> "data/supplierTransactions.json" ->
                 localStorage w' !! k = localStorage stocked_world !! k) /\
      (b = true ->
       exists text,
         localStorage w' !! "data/supplierTransactions.json" = Some text) /\
      (b = false -> w' = stocked_world)).
Proof. apply (browser_save_touches_own_key stocked_world (VRef 5)). reflexivity. Defined.

(** X11. [saveData(undefined)] in the browser reports success: it returns
    [true] and leaves the text [undefined] under the dataset key, which is
    not JSON, so the [loadData] that follows returns the Default Dataset
    (the [defaultData] object being as its literal made it). *)
Theorem saveData_undefined_then_default {H} (w : world H) :
  electronAPI w = None ->
  default_intact w ->
  exists w1 v w2,
    saveData VUndefined w = (Ret true, w1) /\
    localStorage w1 !! "data/perfectWoodData.json" = Some "undefined" /\
    loadData w1 = (Ret v, w2) /\
    denotes (heap w2) v default_tree.
Proof.
  intros He Hd.
  set (w1 := set_localStorage (<["data/perfectWoodData.json" := "undefined"]>
                                 (localStorage w)) w).
  destruct (spread_defaultData_intact w1 Hd) as (c & Hsp & Hden).
  exists w1. eexists _, _. split; [|split; [|split]].
  - unfold saveData, try_catch, bind, get_electronAPI. now rewrite He.
  - apply lookup_insert_eq.
  - rewrite loadData_default; [exact Hsp | exact He |].
    unfold w1. cbn [localStorage set_localStorage]. rewrite lookup_insert_eq.
    right. vm_compute. reflexivity.
  - exact Hden.
Qed.

Lemma saveData_undefined_then_default_witness :
  exists w1 v w2,
    saveData VUndefined stocked_world = (Ret true, w1) /\
    localStorage w1 !! "data/perfectWoodData.json" = Some "undefined" /\
    loadData w1 = (Ret v, w2) /\
    denotes (heap w2) v default_tree.
Proof.
  apply (saveData_undefined_then_default stocked_world).
  - reflexivity.
  - vm_compute. reflexivity.
Defined.

(** *** Electron *)

Lemma save_electron_verdict {H} (w : world H)
      (save : option json -> H -> settled unit * H) v j :
  denotes (heap w) v j ->
  try_catch (let* d := send v in await (save d) ;; ret true)
            (fun _ => ret false) w
  = (Ret (is_resolved (fst (save (Some j) (hostState w)))),
     set_hostState (snd (save (Some j) (hostState w))) w).
Proof.
  intros Hd. unfold try_catch, bind, send, await.
  unfold denotes in Hd. rewrite Hd.
  now destruct (save (Some j) (hostState w)) as [[[]|] s1].
Qed.

(** X12. Under Electron each save makes one call to the host, with the
    tree of the value ([saveTransactions] with the kind [customer] or
    [supplier]), and [clearAllData] one call; the flag that is returned is
    the verdict of the host, [true] when the promise resolved and [false]
    when it rejected, and the state of the host is what that one call made
    it. *)
Theorem electron_write_reports_host_verdict
        {H} (w : world H) (api : HostAPI H) (v : val) (j : json) :
  electronAPI w = Some api ->
  denotes (heap w) v j ->
  saveData v w
  = (Ret (is_resolved (fst (api_saveData api (Some j) (hostState w)))),
     set_hostState (snd (api_saveData api (Some j) (hostState w))) w) /\
  saveCustomerTransactions v w
  = (Ret (is_resolved
            (fst (api_saveTransactions api "customer" (Some j) (hostState w)))),
     set_hostState
       (snd (api_saveTransactions api "customer" (Some j) (hostState w))) w) /\
  saveSupplierTransactions v w
  = (Ret (is_resolved
            (fst (api_saveTransactions api "supplier" (Some j) (hostState w)))),
     set_hostState
       (snd (api_saveTransactions api "supplier" (Some j) (hostState w))) w) /\
  clearAllData w
  = (Ret (is_resolved (fst (api_clearAllData api (hostState w)))),
     set_hostState (snd (api_clearAllData api (hostState w))) w).
Proof.
  intros He Hd. split; [|split; [|split]].
  - rewrite <- (save_electron_verdict w (api_saveData api) v j Hd).
    unfold saveData, try_catch, bind, get_electronAPI. now rewrite He.
  - rewrite <- (save_electron_verdict w (api_saveTransactions api "customer")
                                      v j Hd).
    unfold saveCustomerTransactions, try_catch, bind, get_electronAPI.
    now rewrite He.
  - rewrite <- (save_electron_verdict w (api_saveTransactions api "supplier")
                                      v j Hd).
    unfold saveSupplierTransactions, try_catch, bind, get_electronAPI.
    now rewrite He.
  - unfold clearAllData, try_catch, bind, get_electronAPI, await. rewrite He.
    now destruct (api_clearAllData api (hostState w)) as [[[]|] s1].
Qed.

Lemma electron_write_reports_host_verdict_witness :
  saveData (fst electron_with_dataset) (snd electron_with_dataset)
  = (Ret (is_resolved
            (fst (api_saveData memory_host (Some sample_dataset)
                               (hostState (snd electron_with_dataset))))),
     set_hostState
       (snd (api_saveData memory_host (Some sample_dataset)
                          (hostState (snd electron_with_dataset))))
       (snd electron_with_dataset)) /\
  saveCustomerTransactions (fst electron_with_dataset) (snd electron_with_dataset)
  = (Ret (is_resolved
            (fst (api_saveTransactions memory_host "customer"
                    (Some sample_dataset)
                    (hostState (snd electron_with_dataset))))),
     set_hostState
       (snd (api_saveTransactions memory_host "customer" (Some sample_dataset)
                                  (hostState (snd electron_with_dataset))))
       (snd electron_with_dataset)) /\
  saveSupplierTransactions (fst electron_with_dataset) (snd electron_with_dataset)
  = (Ret (is_resolved
            (fst (api_saveTransactions memory_host "supplier"
                    (Some sample_dataset)
                    (hostState (snd electron_with_dataset))))),
     set_hostState
       (snd (api_saveTransactions memory_host "supplier" (Some sample_dataset)
                                  (hostState (snd electron_with_dataset))))
       (snd electron_with_dataset)) /\
  clearAllData (snd electron_with_dataset)
  = (Ret (is_resolved
            (fst (api_clearAllData memory_host
                                   (hostState (snd electron_with_dataset))))),
     set_hostState
       (snd (api_clearAllData memory_host
                              (hostState (snd electron_with_dataset))))
       (snd electron_with_dataset)).
Proof.
  apply (electron_write_reports_host_verdict (snd electron_with_dataset)
           memory_host (fst electron_with_dataset) sample_dataset).
  - reflexivity.
  - vm_compute. reflexivity.
Defined.

(** X13. Under Electron, when the host rejects [loadData], or resolves it
    with [undefined] or [null], no loader throws: [loadData] returns a new
    object with the value of the Default Dataset (the [defaultData] object
    being as its literal made it), and each transaction loader a new empty
    array. *)
Theorem electron_loaders_fall_back
        {H} (w : world H) (api : HostAPI H) (r : settled (option json)) (s : H) :
  electronAPI w = Some api ->
  api_loadData api (hostState w) = (r, s) ->
  r = Rejected \/ r = Resolved None \/ r = Resolved (Some JNull) ->
  default_intact w ->
  (exists c,
      loadData w
      = (Ret (VRef (length (heap w))),
         set_heap (heap w ++ [c]) (set_hostState s w)) /\
      denotes (heap w ++ [c]) (VRef (length (heap w))) default_tree) /\
  loadCustomerTransactions w
  = (Ret (VRef (length (heap w))),
     set_heap (heap w ++ [CArray []]) (set_hostState s w)) /\
  loadSupplierTransactions w
  = (Ret (VRef (length (heap w))),
     set_heap (heap w ++ [CArray []]) (set_hostState s w)).
Proof.
  intros He Hl Hr Hd.
  destruct (spread_defaultData_intact (set_hostState s w) Hd) as (c & Hsp & Hden).
  split; [exists c; split; [|exact Hden]|split].
  - unfold loadData, try_catch, bind, get_electronAPI, await. rewrite He, Hl.
    destruct Hr as [->|[->| ->]]; [exact Hsp | exact Hsp |].
    unfold receive, read_field. cbn [alloc_json get_field heap set_heap].
    unfold spread_defaultData in *. exact Hsp.
  - unfold loadCustomerTransactions, try_catch, bind, get_electronAPI, await.
    rewrite He, Hl. destruct Hr as [->|[->| ->]]; reflexivity.
  - unfold loadSupplierTransactions, try_catch, bind, get_electronAPI, await.
    rewrite He, Hl. destruct Hr as [->|[->| ->]]; reflexivity.
Qed.

Lemma electron_loaders_fall_back_witness :
  (exists c,
      loadData refusing_world
      = (Ret (VRef (length (heap refusing_world))),
         set_heap (heap refusing_world ++ [c]) (set_hostState tt refusing_world))
      /\ denotes (heap refusing_world ++ [c])
                 (VRef (length (heap refusing_world))) default_tree) /\
  loadCustomerTransactions refusing_world
  = (Ret (VRef (length (heap refusing_world))),
     set_heap (heap refusing_world ++ [CArray []])
              (set_hostState tt refusing_world)) /\
  loadSupplierTransactions refusing_world
  = (Ret (VRef (length (heap refusing_world))),
     set_heap (heap refusing_world ++ [CArray []])
              (set_hostState tt refusing_world)).
Proof.
  apply (electron_loaders_fall_back refusing_world refusing_host Rejected tt).
  - reflexivity.
  - reflexivity.
  - left. reflexivity.
  - vm_compute. reflexivity.
Defined.

(** *** Export *)

Lemma stored_tree_unique_keys fallback item :
  unique_keys fallback = true -> unique_keys (stored_tree fallback item) = true.
Proof.
  intros Hf. unfold stored_tree. destruct item as [s|]; [|exact Hf].
  destruct (String.eqb s EmptyString); [exact Hf|].
  destruct (parse s) as [j|] eqn:Hp; [exact (parse_unique_keys _ _ Hp) | exact Hf].
Qed.

Lemma stored_tree_doubles fallback item :
  numbers_are_doubles fallback = true ->
  numbers_are_doubles (stored_tree fallback item) = true.
Proof.
  intros Hf. unfold stored_tree. destruct item as [s|]; [|exact Hf].
  destruct (String.eqb s EmptyString); [exact Hf|].
  destruct (parse s) as [j|] eqn:Hp; [exact (parse_doubles _ _ Hp) | exact Hf].
Qed.

(** Reading back twice is reading back once. *)
Lemma stored_as_twice j :
  unique_keys j = true -> numbers_are_doubles j = true ->
  stored_as (stored_as j) = stored_as j.
Proof. intros Hu Hd. now apply stored_as_wf, stored_as_is_wf. Qed.

Lemma stored_as_unique_keys j :
  unique_keys j = true -> numbers_are_doubles j = true ->
  unique_keys (stored_as j) = true.
Proof. intros Hu Hd. now apply wf_unique_keys, stored_as_is_wf. Qed.

Lemma assoc_stored_as k fs :
  assoc k (map (fun kv : string * json => (fst kv, stored_as (snd kv))) fs)
  = stored_as <$> assoc k fs.
Proof.
  induction fs as [|[k' v] fs IH]; [reflexivity|]. cbn [map assoc fst snd].
  destruct (String.eqb k' k); [reflexivity | exact IH].
Qed.

(** A loader of the browser returns the stored tree. *)
Lemma load_stored_tree {H} (w : world H) key (fallback : M val) (jf : json) :
  (exists v h2, fallback w = (Ret v, set_heap (heap w ++ h2) w)
                /\ denotes (heap w ++ h2) v jf) ->
  exists v h2,
    try_catch (if_item (localStorage w !! key) JSON_parse fallback)
              (fun _ => fallback) w
    = (Ret v, set_heap (heap w ++ h2) w) /\
    denotes (heap w ++ h2) v (stored_tree jf (localStorage w !! key)).
Proof.
  intros (vf & hf & Hf & Hdf). unfold try_catch, stored_tree, if_item.
  destruct (localStorage w !! key) as [s|]; [|rewrite Hf; eauto].
  destruct (String.eqb s EmptyString); [rewrite Hf; eauto|].
  destruct (parse s) as [j|] eqn:Hp.
  - destruct (JSON_parse_Some w s j Hp) as (v & h2 & Hparse & Hd & _).
    rewrite Hparse. eauto.
  - unfold JSON_parse. rewrite Hp, Hf. eauto.
Qed.

Lemma load_log_stored_tree {H} (w : world H) key :
  exists v h2,
    try_catch (if_item (localStorage w !! key) JSON_parse (new_cell (CArray [])))
              (fun _ => new_cell (CArray [])) w
    = (Ret v, set_heap (heap w ++ h2) w) /\
    denotes (heap w ++ h2) v (stored_tree (JArr []) (localStorage w !! key)).
Proof.
  apply load_stored_tree. eexists _, [CArray []].
  split; [apply new_array | apply denotes_new_array].
Qed.

Lemma denotes_object h v fs :
  denotes h v (JObj fs) ->
  exists l vs,
    v = VRef l /\ h !! l = Some (CObject vs) /\
    Forall2 (fun kv kj => fst kv = fst kj /\ denotes h (snd kv) (snd kj)) vs fs.
Proof.
  intros Hd. unfold denotes in Hd. cbn [reify] in Hd.
  destruct v as [| |b|x|s|l]; try discriminate.
  destruct (h !! l) as [[xs|vs]|] eqn:Hl; try discriminate.
  - destruct (mapM _ xs); discriminate.
  - destruct (mapM _ vs) as [ms|] eqn:Hm; [|discriminate].
    injection Hd as <-.
    exists l, vs. split; [reflexivity|]. split; [exact Hl|].
    apply mapM_Some in Hm. eapply Forall2_impl; [exact Hm|].
    intros [k x] [k' j]. cbn [fst snd].
    destruct (reify (length h) h x) as [jx|] eqn:Hx; [|discriminate].
    intros Hy. injection Hy as <- <-. split; [reflexivity|].
    eapply reify_more_fuel; [exact Hx | lia].
Qed.

Lemma set_member_Forall2 {A B} (R : A -> B -> Prop) vs fs k x j :
  Forall2 (fun kv kj => fst kv = fst kj /\ R (snd kv) (snd kj)) vs fs ->
  R x j ->
  Forall2 (fun kv kj => fst kv = fst kj /\ R (snd kv) (snd kj))
          (set_member vs k x) (set_member fs k j).
Proof.
  induction 1 as [|[k1 x1] [k2 j1] vs fs [Hk Hr] Hrest IH]; intros Hx;
    simpl in *.
  - constructor; [split; [reflexivity | exact Hx] | constructor].
  - subst k2. destruct (String.eqb k1 k).
    + constructor; [split; [reflexivity | exact Hx] | exact Hrest].
    + constructor; [split; [reflexivity | exact Hr] | now apply IH].
Qed.

Lemma set_member_obj_set fs k v : set_member fs k v = obj_set fs k v.
Proof.
  induction fs as [|[k' v'] fs IH]; simpl; [reflexivity|]. now rewrite IH.
Qed.

Lemma assoc_set_member {A} (fs : list (string * A)) k v :
  assoc k (set_member fs k v) = Some v.
Proof.
  induction fs as [|[k' v'] fs IH]; simpl.
  - now rewrite String.eqb_refl.
  - destruct (String.eqb k' k) eqn:Hk; simpl; rewrite Hk; [reflexivity | exact IH].
Qed.

Lemma assoc_set_member_ne {A} (fs : list (string * A)) k k' v :
  k' <> k -> assoc k' (set_member fs k v) = assoc k' fs.
Proof.
  intros Hne. induction fs as [|[k0 v0] fs IH]; simpl.
  - destruct (String.eqb_spec k k'); [congruence | reflexivity].
  - destruct (String.eqb_spec k0 k) as [->|Hk0]; simpl.
    + destruct (String.eqb_spec k k'); [congruence | reflexivity].
    + now rewrite IH.
Qed.

Lemma backup_members_unique_keys fs ct st now :
  unique_keys (JObj fs) = true -> unique_keys ct = true ->
  unique_keys st = true ->
  unique_keys (JObj (backup_members fs ct st now)) = true.
Proof.
  intros Hfs Hct Hst. simpl in Hfs. apply andb_true_iff in Hfs as [Hnd Hall].
  apply bool_decide_eq_true in Hnd. unfold backup_members.
  rewrite !set_member_obj_set.
  destruct (obj_set_all unique_keys fs "customerTransactions" ct Hnd Hall Hct)
    as [Hnd1 Hall1].
  destruct (obj_set_all unique_keys _ "supplierTransactions" st Hnd1 Hall1 Hst)
    as [Hnd2 Hall2].
  destruct (obj_set_all unique_keys _ "exportDate" (JStr now) Hnd2 Hall2 eq_refl)
    as [Hnd3 Hall3].
  simpl. apply andb_true_iff. split; [now apply bool_decide_eq_true | exact Hall3].
Qed.

Lemma JSON_stringify_indented_denotes {H} (w : world H) v j :
  denotes (heap w) v j ->
  JSON_stringify_indented v w = (Ret (stringify_indented j), w).
Proof.
  intros Hd. unfold JSON_stringify_indented.
  now rewrite (reify_serialize _ _ _ _ Hd).
Qed.

(** [exportData] in the browser, when the dataset that [loadData] returns
    is an object. *)
Lemma exportData_browser {H} (w : world H) now later fs :
  electronAPI w = None -> default_intact w ->
  stored_tree default_tree (localStorage w !! "data/perfectWoodData.json")
  = JObj fs ->
  exists h,
    exportData now later w
    = (Ret (true,
            Some ("perfect-wood-backup-" +:+ before_T later +:+ ".json",
                  stringify_indented
                    (JObj (backup_members fs
                             (stored_tree (JArr [])
                                (localStorage w !! "data/customerTransactions.json"))
                             (stored_tree (JArr [])
                                (localStorage w !! "data/supplierTransactions.json"))
                             now)))),
       set_heap (heap w ++ h) w).
Proof.
  intros He Hd Hfs.
  destruct (load_stored_tree w "data/perfectWoodData.json" spread_defaultData
              default_tree) as (d & h1 & Hl1 & Hd1).
  { destruct (spread_defaultData_intact w Hd) as (c & Hsp & Hden). eauto. }
  rewrite Hfs in Hd1. rewrite <- loadData_browser in Hl1 by exact He.
  set (w1 := set_heap (heap w ++ h1) w) in *.
  destruct (load_log_stored_tree w1 "data/customerTransactions.json")
    as (ct & h2 & Hl2 & Hd2).
  rewrite <- loadCustomerTransactions_browser in Hl2 by exact He.
  set (w2 := set_heap (heap w1 ++ h2) w1) in *.
  destruct (load_log_stored_tree w2 "data/supplierTransactions.json")
    as (st & h3 & Hl3 & Hd3).
  rewrite <- loadSupplierTransactions_browser in Hl3 by exact He.
  set (w3 := set_heap (heap w2 ++ h3) w2) in *.
  assert (Hd1' : denotes (heap w3) d (JObj fs)).
  { cbn [heap set_heap w3 w2 w1] in *. now do 2 apply denotes_extend. }
  assert (Hd2' : denotes (heap w3) ct
                   (stored_tree (JArr [])
                      (localStorage w !! "data/customerTransactions.json"))).
  { cbn [heap set_heap w3 w2] in *. now apply denotes_extend. }
  destruct (denotes_object _ _ _ Hd1') as (l & vs & -> & Hcell & Hvs).
  set (members :=
         set_member
           (set_member (set_member vs "customerTransactions" ct)
                       "supplierTransactions" st)
           "exportDate" (VStr now)).
  set (w4 := set_heap (heap w3 ++ [CObject members]) w3).
  assert (Hx : denotes (heap w4) (VRef (length (heap w3)))
                 (JObj (backup_members fs
                          (stored_tree (JArr [])
                             (localStorage w !! "data/customerTransactions.json"))
                          (stored_tree (JArr [])
                             (localStorage w !! "data/supplierTransactions.json"))
                          now))).
  { apply denotes_new_object. unfold members, backup_members.
    apply set_member_Forall2; [|reflexivity].
    apply set_member_Forall2; [|exact Hd3].
    apply set_member_Forall2; [exact Hvs | exact Hd2']. }
  exists (h1 ++ h2 ++ h3 ++ [CObject members]).
  unfold exportData, try_catch.
  unfold bind at 1. rewrite Hl1.
  unfold bind at 1. rewrite Hl2.
  unfold bind at 1. rewrite Hl3.
  unfold bind at 1. unfold spread at 1, spread_fields, own_fields. rewrite Hcell.
  unfold bind at 1. unfold new_cell at 1, alloc. fold members. fold w4.
  unfold bind at 1. rewrite (JSON_stringify_indented_denotes w4 _ _ Hx).
  unfold ret. f_equal. unfold w4, w3, w2, w1, set_heap.
  cbn [heap localStorage defaultData electronAPI hostState].
  now rewrite <- !app_assoc.
Qed.

(** X14. In the browser, the [defaultData] object being as its literal
    made it, and with a stored or default dataset that is an object,
    [exportData] returns [true] and hands the browser one file, named
    [perfect-wood-backup-] + the date part of the clock's reading + [.json].
    Its text is JSON: it parses to what is read back of the object with the
    members of the dataset, then [customerTransactions] and
    [supplierTransactions] with the two logs as the loaders return them (a
    member of the dataset with one of these names is overridden in its
    place) and [exportDate] with the first reading of the clock; read back
    means [null] for a number that is not finite and [0] for the negative
    zero.  [localStorage] is as before. *)
Theorem exportData_writes_backup
        {H} (w : world H) (now later : string) (fs : list (string * json)) :
  electronAPI w = None ->
  default_intact w ->
  stored_tree default_tree (localStorage w !! "data/perfectWoodData.json")
  = JObj fs ->
  exists text w',
    exportData now later w
    = (Ret (true,
            Some ("perfect-wood-backup-" +:+ before_T later +:+ ".json", text)),
       w') /\
    parse text
    = Some (stored_as
              (JObj (backup_members fs
                       (stored_tree (JArr [])
                          (localStorage w !! "data/customerTransactions.json"))
                       (stored_tree (JArr [])
                          (localStorage w !! "data/supplierTransactions.json"))
                       now))) /\
    localStorage w' = localStorage w.
Proof.
  intros He Hd Hfs.
  destruct (exportData_browser w now later fs He Hd Hfs) as (h & Hx).
  eexists _, _. split; [exact Hx|]. split; [|reflexivity].
  apply parse_stringify_indented_stored, backup_members_unique_keys.
  - rewrite <- Hfs. now apply stored_tree_unique_keys.
  - now apply stored_tree_unique_keys.
  - now apply stored_tree_unique_keys.
Qed.

Lemma exportData_writes_backup_witness :
  exists text w',
    exportData "2024-05-01T10:00:00.000Z" "2024-05-02T00:00:01.000Z" stocked_world
    = (Ret (true,
            Some ("perfect-wood-backup-"
                  +:+ before_T "2024-05-02T00:00:01.000Z" +:+ ".json", text)),
       w') /\
    parse text
    = Some (stored_as
              (JObj (backup_members
                       [("products", JArr []); ("customers", JArr []);
                        ("sellers", JArr [])]
                       (stored_tree (JArr [])
                          (localStorage stocked_world
                           !! "data/customerTransactions.json"))
                       (stored_tree (JArr [])
                          (localStorage stocked_world
                           !! "data/supplierTransactions.json"))
                       "2024-05-01T10:00:00.000Z"))) /\
    localStorage w' = localStorage stocked_world.
Proof.
  apply (exportData_writes_backup stocked_world).
  - reflexivity.
  - vm_compute. reflexivity.
  - vm_compute. reflexivity.
Defined.

(** X15. A backup restores: in the browser, the [defaultData] object being
    as its literal made it, with a dataset whose [products], [customers] and
    [sellers] are sequences and logs that are sequences (or not stored), the
    text that [exportData] hands out is accepted by [importData] in any
    browser, and after that import [loadData] returns the three sequences of
    the exported dataset and the two transaction loaders return the exported
    logs, all as they are read back from text: with [null] for a number that
    is not finite and [0] for the negative zero.  Other members of the
    dataset and [exportDate] are not restored. *)
Theorem export_then_import_restores
        {H} (w w0 : world H) (now later : string) (fs : list (string * json))
        (ps cs ss cts sts : list json) :
  electronAPI w = None ->
  default_intact w ->
  stored_tree default_tree (localStorage w !! "data/perfectWoodData.json")
  = JObj fs ->
  assoc "products" fs = Some (JArr ps) ->
  assoc "customers" fs = Some (JArr cs) ->
  assoc "sellers" fs = Some (JArr ss) ->
  stored_tree (JArr []) (localStorage w !! "data/customerTransactions.json")
  = JArr cts ->
  stored_tree (JArr []) (localStorage w !! "data/supplierTransactions.json")
  = JArr sts ->
  electronAPI w0 = None ->
  exists name text w' w1,
    exportData now later w = (Ret (true, Some (name, text)), w') /\
    importData (Some text) w0 = (Ret true, w1) /\
    (exists v w2,
        loadData w1 = (Ret v, w2) /\
        denotes (heap w2) v
                (stored_as (JObj [("products", JArr ps); ("customers", JArr cs);
                                  ("sellers", JArr ss)]))) /\
    (exists v w2, loadCustomerTransactions w1 = (Ret v, w2)
                  /\ denotes (heap w2) v (stored_as (JArr cts))) /\
    (exists v w2, loadSupplierTransactions w1 = (Ret v, w2)
                  /\ denotes (heap w2) v (stored_as (JArr sts))).
Proof.
  intros He Hd Hfs Hp Hc Hs Hct Hst He0.
  destruct (exportData_browser w now later fs He Hd Hfs) as (h & Hx).
  rewrite Hct, Hst in Hx.
  assert (Hufs : unique_keys (JObj fs) = true)
    by (rewrite <- Hfs; now apply stored_tree_unique_keys).
  assert (Hdfs : numbers_are_doubles (JObj fs) = true)
    by (rewrite <- Hfs; now apply stored_tree_doubles).
  assert (Huct : unique_keys (JArr cts) = true)
    by (rewrite <- Hct; now apply stored_tree_unique_keys).
  assert (Hdct : numbers_are_doubles (JArr cts) = true)
    by (rewrite <- Hct; now apply stored_tree_doubles).
  assert (Hust : unique_keys (JArr sts) = true)
    by (rewrite <- Hst; now apply stored_tree_unique_keys).
  assert (Hdst : numbers_are_doubles (JArr sts) = true)
    by (rewrite <- Hst; now apply stored_tree_doubles).
  set (members := backup_members fs (JArr cts) (JArr sts) now) in *.
  set (read := map (fun kv : string * json => (fst kv, stored_as (snd kv)))
                   members).
  assert (Hparse : parse (stringify_indented (JObj members)) = Some (JObj read)).
  { now apply (parse_stringify_indented_stored (JObj members)),
      backup_members_unique_keys. }
  assert (Hmp : assoc "products" read = Some (stored_as (JArr ps))).
  { unfold read, members, backup_members. rewrite assoc_stored_as.
    now rewrite !assoc_set_member_ne, Hp by discriminate. }
  assert (Hmc : assoc "customers" read = Some (stored_as (JArr cs))).
  { unfold read, members, backup_members. rewrite assoc_stored_as.
    now rewrite !assoc_set_member_ne, Hc by discriminate. }
  assert (Hms : assoc "sellers" read = Some (stored_as (JArr ss))).
  { unfold read, members, backup_members. rewrite assoc_stored_as.
    now rewrite !assoc_set_member_ne, Hs by discriminate. }
  assert (Hmct : assoc "customerTransactions" read = Some (stored_as (JArr cts))).
  { unfold read, members, backup_members. rewrite assoc_stored_as.
    rewrite !assoc_set_member_ne by discriminate.
    now rewrite assoc_set_member. }
  assert (Hmst : assoc "supplierTransactions" read = Some (stored_as (JArr sts))).
  { unfold read, members, backup_members. rewrite assoc_stored_as.
    rewrite assoc_set_member_ne by discriminate.
    now rewrite assoc_set_member. }
  destruct (importData_browser_world w0 _ read _ _ _
              He0 Hparse Hmp Hmc Hms eq_refl eq_refl eq_refl) as (h0 & Hi).
  assert (Hm : forall k j, assoc k fs = Some j ->
                 unique_keys j = true /\ numbers_are_doubles j = true).
  { intros k j Hk. split.
    - eapply unique_keys_member; [exact Hufs | eapply assoc_In, Hk].
    - eapply doubles_member; [exact Hdfs | eapply assoc_In, Hk]. }
  destruct (Hm _ _ Hp) as [Hup Hdp]. destruct (Hm _ _ Hc) as [Huc Hdc].
  destruct (Hm _ _ Hs) as [Hus Hds].
  eexists _, _, _, _. split; [exact Hx|]. split; [exact Hi|].
  split; [|split].
  - rewrite <- (stored_as_twice
                  (JObj [("products", JArr ps); ("customers", JArr cs);
                         ("sellers", JArr ss)]))
      by (now apply unique_keys_three_members || now apply doubles_three_members).
    apply loadData_stored; [exact He0 | |].
    + cbn [localStorage set_localStorage].
      rewrite !store_if_truthy_lookup by discriminate. apply lookup_insert_eq.
    + apply (stored_as_unique_keys
               (JObj [("products", JArr ps); ("customers", JArr cs);
                      ("sellers", JArr ss)]));
        [now apply unique_keys_three_members | now apply doubles_three_members].
  - rewrite <- (stored_as_twice (JArr cts)) by assumption.
    apply loadCustomerTransactions_stored; [exact He0 | |].
    + cbn [localStorage set_localStorage].
      rewrite store_if_truthy_lookup by discriminate.
      unfold store_if_truthy. rewrite Hmct. apply lookup_insert_eq.
    + now apply stored_as_unique_keys.
  - rewrite <- (stored_as_twice (JArr sts)) by assumption.
    apply loadSupplierTransactions_stored; [exact He0 | |].
    + cbn [localStorage set_localStorage].
      unfold store_if_truthy at 1. rewrite Hmst. apply lookup_insert_eq.
    + now apply stored_as_unique_keys.
Qed.

Lemma export_then_import_restores_witness :
  exists name text w' w1,
    exportData "2024-05-01T10:00:00.000Z" "2024-05-02T00:00:01.000Z" stocked_world
    = (Ret (true, Some (name, text)), w') /\
    importData (Some text) browser_world = (Ret true, w1) /\
    (exists v w2,
        loadData w1 = (Ret v, w2) /\
        denotes (heap w2) v
                (stored_as (JObj [("products", JArr []); ("customers", JArr []);
                                  ("sellers", JArr [])]))) /\
    (exists v w2, loadCustomerTransactions w1 = (Ret v, w2)
                  /\ denotes (heap w2) v
                             (stored_as (JArr [JObj [("id", JNum 7 0)]]))) /\
    (exists v w2, loadSupplierTransactions w1 = (Ret v, w2)
                  /\ denotes (heap w2) v (stored_as (JArr []))).
Proof.
  apply (export_then_import_restores stocked_world browser_world
           "2024-05-01T10:00:00.000Z" "2024-05-02T00:00:01.000Z"
           [("products", JArr []); ("customers", JArr []); ("sellers", JArr [])]).
  - reflexivity.
  - vm_compute. reflexivity.
  - vm_compute. reflexivity.
  - reflexivity.
  - reflexivity.
  - reflexivity.
  - vm_compute. reflexivity.
  - vm_compute. reflexivity.
  - reflexivity.
Defined.

(** *** The default on a corrupt key *)

(** X16. With text that is not JSON under the dataset key, and the
    [defaultData] object being as its literal made it, [loadData] in the
    browser does not throw: it returns a new object, a copy of the members of
    [defaultData], that has the value of the Default Dataset; [localStorage]
    is as before. *)
Theorem loadData_corrupt_copies_default {H} (w : world H) (s : string) :
  electronAPI w = None ->
  localStorage w !! "data/perfectWoodData.json" = Some s ->
  parse s = None ->
  default_intact w ->
  exists w',
    loadData w = (Ret (VRef (length (heap w))), w') /\
    heap w' = heap w ++ [CObject (own_fields (heap w) (defaultData w))] /\
    denotes (heap w') (VRef (length (heap w))) default_tree /\
    localStorage w' = localStorage w.
Proof.
  intros He Hs Hp Hd.
  destruct (spread_defaultData_intact w Hd) as (c & Hsp & Hden).
  assert (Hc : c = CObject (own_fields (heap w) (defaultData w))).
  { unfold spread_defaultData, alloc in Hsp. injection Hsp as Hh.
    apply app_inv_head in Hh. now injection Hh as <-. }
  subst c. eexists. split.
  - rewrite loadData_default; [exact Hsp | exact He |]. rewrite Hs. now right.
  - split; [reflexivity|]. split; [exact Hden | reflexivity].
Qed.

Lemma loadData_corrupt_copies_default_witness :
  exists w',
    loadData corrupt_world = (Ret (VRef (length (heap corrupt_world))), w') /\
    heap w'
    = heap corrupt_world
      ++ [CObject (own_fields (heap corrupt_world) (defaultData corrupt_world))] /\
    denotes (heap w') (VRef (length (heap corrupt_world))) default_tree /\
    localStorage w' = localStorage corrupt_world.
Proof.
  apply (loadData_corrupt_copies_default corrupt_world corrupt_text).
  - reflexivity.
  - reflexivity.
  - vm_compute. reflexivity.
  - vm_compute. reflexivity.
Defined.

(** *** Saving what was loaded *)

(** X17. Saving what was loaded keeps what a loader can see, up to what text
    can hold: in the browser, the [defaultData] object being as its literal
    made it, [loadData] followed by [saveData] of its result returns [true],
    and the [loadData] after that returns the first result as it is read
    back from its text, that is with [null] for a number that is not finite
    (the stored text [1e400] is loaded as Infinity and saved as [null]) and
    [0] for the negative zero; what it returns is JSON data, which a further
    save and load return unchanged.  Likewise for the two transaction
    logs. *)
Theorem load_save_load_reads_back {H} (w : world H) :
  electronAPI w = None ->
  default_intact w ->
  (exists j v w1 w2 v' w3,
      loadData w = (Ret v, w1) /\ denotes (heap w1) v j /\
      saveData v w1 = (Ret true, w2) /\
      loadData w2 = (Ret v', w3) /\ denotes (heap w3) v' (stored_as j) /\
      wf (stored_as j) = true) /\
  (exists j v w1 w2 v' w3,
      loadCustomerTransactions w = (Ret v, w1) /\ denotes (heap w1) v j /\
      saveCustomerTransactions v w1 = (Ret true, w2) /\
      loadCustomerTransactions w2 = (Ret v', w3) /\
      denotes (heap w3) v' (stored_as j) /\ wf (stored_as j) = true) /\
  (exists j v w1 w2 v' w3,
      loadSupplierTransactions w = (Ret v, w1) /\ denotes (heap w1) v j /\
      saveSupplierTransactions v w1 = (Ret true, w2) /\
      loadSupplierTransactions w2 = (Ret v', w3) /\
      denotes (heap w3) v' (stored_as j) /\ wf (stored_as j) = true).
Proof.
  intros He Hd. split; [|split].
  - destruct (load_stored_tree w "data/perfectWoodData.json" spread_defaultData
                default_tree) as (v & h2 & Hl & Hv).
    { destruct (spread_defaultData_intact w Hd) as (c & Hsp & Hden). eauto. }
    set (j := stored_tree default_tree
                (localStorage w !! "data/perfectWoodData.json")) in *.
    set (w1 := set_heap (heap w ++ h2) w) in *.
    assert (Hu : unique_keys j = true) by now apply stored_tree_unique_keys.
    assert (Hn : numbers_are_doubles j = true) by now apply stored_tree_doubles.
    destruct (browser_roundtrip_stored w1 "data/perfectWoodData.json" j
                spread_defaultData (fun _ => spread_defaultData) Hu)
      as (v' & h3 & Hl' & Hv').
    eexists j, v, w1, _, v', _.
    split; [rewrite loadData_browser by exact He; exact Hl|].
    split; [exact Hv|].
    split; [exact (saveData_browser w1 v j He Hv)|].
    split; [rewrite loadData_browser by exact He; exact Hl'|].
    split; [exact Hv' | now apply stored_as_is_wf].
  - destruct (load_log_stored_tree w "data/customerTransactions.json")
      as (v & h2 & Hl & Hv).
    set (j := stored_tree (JArr [])
                (localStorage w !! "data/customerTransactions.json")) in *.
    set (w1 := set_heap (heap w ++ h2) w) in *.
    assert (Hu : unique_keys j = true) by now apply stored_tree_unique_keys.
    assert (Hn : numbers_are_doubles j = true) by now apply stored_tree_doubles.
    destruct (browser_roundtrip_stored w1 "data/customerTransactions.json" j
                (new_cell (CArray [])) (fun _ => new_cell (CArray [])) Hu)
      as (v' & h3 & Hl' & Hv').
    eexists j, v, w1, _, v', _.
    split; [rewrite loadCustomerTransactions_browser by exact He; exact Hl|].
    split; [exact Hv|].
    split; [exact (saveCustomerTransactions_browser w1 v j He Hv)|].
    split; [rewrite loadCustomerTransactions_browser by exact He; exact Hl'|].
    split; [exact Hv' | now apply stored_as_is_wf].
  - destruct (load_log_stored_tree w "data/supplierTransactions.json")
      as (v & h2 & Hl & Hv).
    set (j := stored_tree (JArr [])
                (localStorage w !! "data/supplierTransactions.json")) in *.
    set (w1 := set_heap (heap w ++ h2) w) in *.
    assert (Hu : unique_keys j = true) by now apply stored_tree_unique_keys.
    assert (Hn : numbers_are_doubles j = true) by now apply stored_tree_doubles.
    destruct (browser_roundtrip_stored w1 "data/supplierTransactions.json" j
                (new_cell (CArray [])) (fun _ => new_cell (CArray [])) Hu)
      as (v' & h3 & Hl' & Hv').
    eexists j, v, w1, _, v', _.
    split; [rewrite loadSupplierTransactions_browser by exact He; exact Hl|].
    split; [exact Hv|].
    split; [exact (saveSupplierTransactions_browser w1 v j He Hv)|].
    split; [rewrite loadSupplierTransactions_browser by exact He; exact Hl'|].
    split; [exact Hv' | now apply stored_as_is_wf].
Qed.

Lemma load_save_load_reads_back_witness :
  (exists j v w1 w2 v' w3,
      loadData overflowing_world = (Ret v, w1) /\ denotes (heap w1) v j /\
      saveData v w1 = (Ret true, w2) /\
      loadData w2 = (Ret v', w3) /\ denotes (heap w3) v' (stored_as j) /\
      wf (stored_as j) = true) /\
  (exists j v w1 w2 v' w3,
      loadCustomerTransactions overflowing_world = (Ret v, w1) /\
      denotes (heap w1) v j /\
      saveCustomerTransactions v w1 = (Ret true, w2) /\
      loadCustomerTransactions w2 = (Ret v', w3) /\
      denotes (heap w3) v' (stored_as j) /\ wf (stored_as j) = true) /\
  (exists j v w1 w2 v' w3,
      loadSupplierTransactions overflowing_world = (Ret v, w1) /\
      denotes (heap w1) v j /\
      saveSupplierTransactions v w1 = (Ret true, w2) /\
      loadSupplierTransactions w2 = (Ret v', w3) /\
      denotes (heap w3) v' (stored_as j) /\ wf (stored_as j) = true).
Proof.
  apply (load_save_load_reads_back overflowing_world).
  - reflexivity.
  - vm_compute. reflexivity.
Defined.

(** *** Import under Electron *)

Lemma after_save_if_electron {H} (w : world H) api key kind oj :
  electronAPI w = Some api ->
  after_save_if key (fun api => api_saveTransactions api kind) oj w
  = set_hostState (host_after_log api kind oj (hostState w)) w.
Proof.
  intros He. unfold after_save_if, after_save, host_after_log. rewrite He.
  assert (Hsame : set_hostState (hostState w) w = w) by now destruct w.
  destruct oj as [j|]; [|now rewrite Hsame].
  destruct (jtruthy j); [reflexivity | now rewrite Hsame].
Qed.

Lemma after_import_electron {H} (w : world H) api fs jp jc js :
  electronAPI w = Some api ->
  after_import fs jp jc js w
  = set_hostState
      (host_after_log api "supplier" (assoc "supplierTransactions" fs)
         (host_after_log api "customer" (assoc "customerTransactions" fs)
            (snd (api_saveData api
                    (Some (JObj [("products", jp); ("customers", jc);
                                 ("sellers", js)]))
                    (hostState w))))) w.
Proof.
  intros He. unfold after_import.
  unfold after_save at 1. rewrite He.
  rewrite (after_save_if_electron (set_hostState _ w) api) by exact He.
  rewrite (after_save_if_electron (set_hostState _ (set_hostState _ w)) api)
    by exact He.
  reflexivity.
Qed.

(** X18. [importData] does not look at what the saves return: under
    Electron an import that passes the validation resolves [true] whatever
    the host answers, also when the host rejects every call.  The host has
    then received [saveData] with the three members, then [saveTransactions]
    for each log that is in the file with a truthy value, the customer log
    first; [localStorage] is as before. *)
Theorem importData_ignores_save_results
        {H} (w : world H) (api : HostAPI H) (text : string)
        (fs : list (string * json)) (jp jc js : json) :
  electronAPI w = Some api ->
  parse text = Some (JObj fs) ->
  assoc "products" fs = Some jp -> assoc "customers" fs = Some jc ->
  assoc "sellers" fs = Some js ->
  jtruthy jp = true -> jtruthy jc = true -> jtruthy js = true ->
  exists w',
    importData (Some text) w = (Ret true, w') /\
    localStorage w' = localStorage w /\
    hostState w'
    = host_after_log api "supplier" (assoc "supplierTransactions" fs)
        (host_after_log api "customer" (assoc "customerTransactions" fs)
           (snd (api_saveData api
                   (Some (JObj [("products", jp); ("customers", jc);
                                ("sellers", js)]))
                   (hostState w)))).
Proof.
  intros He Hp Hfp Hfc Hfs Htp Htc Hts.
  destruct (importData_accepts w text fs jp jc js Hp Hfp Hfc Hfs Htp Htc Hts)
    as (h2 & Hi).
  rewrite (after_import_electron (set_heap (heap w ++ h2) w) api) in Hi
    by exact He.
  eexists. split; [exact Hi|]. split; reflexivity.
Qed.

Lemma importData_ignores_save_results_witness :
  exists w',
    importData (Some import_with_customer_log) refusing_world = (Ret true, w') /\
    localStorage w' = localStorage refusing_world /\
    hostState w'
    = host_after_log refusing_host "supplier" None
        (host_after_log refusing_host "customer"
           (Some (JArr [JObj [("id", JNum 9 0)]]))
           (snd (api_saveData refusing_host
                   (Some (JObj [("products", JArr [JObj [("id", JNum 1 0)]]);
                                ("customers", JArr []); ("sellers", JArr [])]))
                   (hostState refusing_world)))).
Proof.
  apply (importData_ignores_save_results refusing_world refusing_host
           import_with_customer_log
           [("products", JArr [JObj [("id", JNum 1 0)]]);
            ("customers", JArr []); ("sellers", JArr []);
            ("customerTransactions", JArr [JObj [("id", JNum 9 0)]])]).
  - reflexivity.
  - vm_compute. reflexivity.
  - reflexivity.
  - reflexivity.
  - reflexivity.
  - reflexivity.
  - reflexivity.
  - reflexivity.
Defined.

(** *** Starting afresh *)

(** X19. After [clearAllData()] has returned [true], and the [defaultData]
    object being as its literal made it, [loadData()] returns the Default
    Dataset and [loadCustomerTransactions()] an empty sequence.  In the
    browser this holds from any state of [localStorage]; under Electron it
    holds for a host that, once its [clearAllData] has resolved, answers
    [loadData] with an object without truthy [data] and
    [customerTransactions]. *)
Theorem clearAllData_then_load_default_intact {H} (w w1 : world H) :
  clearAllData w = (Ret true, w1) ->
  default_intact w ->
  host_clears w ->
  (exists v w2, loadData w1 = (Ret v, w2) /\ denotes (heap w2) v default_tree) /\
  (exists v w2, loadCustomerTransactions w1 = (Ret v, w2)
                /\ denotes (heap w2) v (JArr [])).
Proof.
  intros Hc Hd Hb.
  destruct (clearAllData_world _ _ _ Hc) as (Hh & Hdd & Hapi).
  assert (Hd1 : default_intact w1).
  { unfold default_intact. now rewrite Hh, Hdd. }
  unfold host_clears in Hb.
  destruct (electronAPI w) as [api|] eqn:He; rename Hapi into He1.
  - assert (Hrep : host_reports_nothing api (hostState w1)).
    { revert Hc. unfold clearAllData, try_catch, bind, get_electronAPI, await.
      rewrite He.
      destruct (api_clearAllData api (hostState w)) as [[[]|] s1] eqn:Hcl.
      - intros Hc. injection Hc as <-. cbn [hostState set_hostState].
        now apply Hb.
      - intros Hc. discriminate. }
    destruct Hrep as (fs & s2 & Hl & Hfd & Hfc). split.
    + destruct (read_host_field_truthy (set_hostState s2 w1) fs "data")
        as (x & h2 & Hr & Ht).
      exists (VRef (defaultData w1)). eexists. split.
      * unfold loadData, try_catch, bind, get_electronAPI, await.
        rewrite He1, Hl. unfold bind in Hr.
        destruct (receive (Some (JObj fs)) (set_hostState s2 w1)) as [[r|e] w']
          eqn:Hrec; [|discriminate].
        rewrite Hr, Ht, Hfd. reflexivity.
      * cbn [heap set_heap set_hostState]. now apply denotes_extend.
    + destruct (read_host_field_truthy (set_hostState s2 w1) fs
                  "customerTransactions") as (x & h2 & Hr & Ht).
      eexists _, _. split.
      * unfold loadCustomerTransactions, try_catch, bind, get_electronAPI, await.
        rewrite He1, Hl. unfold bind in Hr.
        destruct (receive (Some (JObj fs)) (set_hostState s2 w1)) as [[r|e] w']
          eqn:Hrec; [|discriminate].
        rewrite Hr. unfold or_empty_array. rewrite Ht, Hfc. reflexivity.
      * apply denotes_new_array.
  - rewrite (clearAllData_browser w He) in Hc.
    injection Hc as <-. split.
    + destruct (spread_defaultData_intact _ Hd1) as (c & Hsp & Hden).
      eexists _, _. split.
      * rewrite loadData_default; [exact Hsp | exact He1 |].
        cbn [localStorage set_localStorage].
        now rewrite lookup_delete_ne, lookup_delete_ne, lookup_delete_eq.
      * exact Hden.
    + eexists _, _. split.
      * rewrite loadCustomerTransactions_browser by exact He1.
        apply load_log_default. cbn [localStorage set_localStorage].
        now rewrite lookup_delete_ne, lookup_delete_eq.
      * apply denotes_new_array.
Qed.

Lemma clearAllData_then_load_default_intact_witness :
  ((exists v w2, loadData browser_world = (Ret v, w2)
                 /\ denotes (heap w2) v default_tree) /\
   (exists v w2, loadCustomerTransactions browser_world = (Ret v, w2)
                 /\ denotes (heap w2) v (JArr []))) /\
  ((exists v w2, loadData electron_world = (Ret v, w2)
                 /\ denotes (heap w2) v default_tree) /\
   (exists v w2, loadCustomerTransactions electron_world = (Ret v, w2)
                 /\ denotes (heap w2) v (JArr []))).
Proof.
  split.
  - apply (clearAllData_then_load_default_intact stocked_world browser_world).
    + vm_compute. reflexivity.
    + vm_compute. reflexivity.
    + exact I.
  - apply (clearAllData_then_load_default_intact stocked_electron_world
                                                 electron_world).
    + reflexivity.
    + vm_compute. reflexivity.
    + intros s1 Hs1. injection Hs1 as <-. exists [], []. repeat split.
Defined.

End DataManagerMore.

